(** * Chicken Tender Marketplace: order lifecycle, settlement and coin ledger

    A shallow embedding of the order routers
    ([orders/routers/order.router.ts],
    [orders/routers/orderAdministration.router.ts]) and of the coin routers
    ([users/routers/userRedirection.router.ts],
    [users/routers/userAdministration.router.ts]), with the properties of
    the specification stated over it.

    Conventions of the embedding:
    - a JavaScript [number] is a double. The numbers of these routers are
      whole: balances and amounts come from integer literals and from sums,
      differences and products of whole numbers, costs from the
      configuration, dates are in milliseconds. A whole double is written as
      the integer of [Z] it holds, zero and negative zero alike; [+], [-]
      and [*] round the exact result to the nearest double ([to_double]),
      so they are exact as long as the result stays within [2^53]. Results
      beyond the largest double, which JavaScript turns into [Infinity], are
      not covered;
    - a Mongo [ObjectId] is a [nat]; collections are finite maps from ids
      to documents, the two append-only collections (transactions, audits)
      are lists with the newest document first;
    - [new Date()] is the parameter [now] of every operation;
    - a promise chain is a computation in the monad [Tx]: a stage either
      resolves or rejects, and a rejection skips to the [.catch] handler;
    - a Mongo session with a transaction works on a copy of the database,
      which [commitTransaction] installs and [abortTransaction] drops;
    - mail is not part of the state: every [sendMail] of these routers has
      its own [.catch], so its failure never reaches the chain. *)

From stdpp Require Import gmap strings list fin_maps.
From Stdlib Require Import ZArith Lia.

#[local] Open Scope Z_scope.

Abbreviation ObjectId := nat (only parsing).

(** ** Numbers *)

(** [Number.MAX_SAFE_INTEGER]. *)
Definition MAX_SAFE_INTEGER : Z := 2 ^ 53 - 1.

(** The double nearest to the integer [z]: an integer of magnitude up to
    [2^53] is a double; a larger one keeps its 53 leading bits [q], and the
    [e] bits [r] below them are rounded off, to the nearest, a tie going to
    the even [q]. *)
Definition to_double (z : Z) : Z :=
  let a := Z.abs z in
  if a <=? 2 ^ 53 then z
  else
    let e := Z.log2 a - 52 in
    let q := a / 2 ^ e in
    let r := a mod 2 ^ e in
    let half := 2 ^ (e - 1) in
    let q' := if (r <? half) || ((r =? half) && Z.even q) then q else q + 1 in
    Z.sgn z * (q' * 2 ^ e).

(** [a + b], [a - b] and [a * b] of whole doubles. *)
Definition num_add (a b : Z) : Z := to_double (a + b).
Definition num_sub (a b : Z) : Z := to_double (a - b).
Definition num_mul (a b : Z) : Z := to_double (a * b).

(** The number a string holding the literal of the integer [z] stands for:
    [Number(s)], [parseInt(s, 10)], the comparison of [s] with a number, and
    Mongoose's cast of [s] to a path of type [Number]. *)
Definition toNumber (z : Z) : Z := to_double z.

(** [Number.isSafeInteger]. *)
Definition safe (z : Z) : Prop := - MAX_SAFE_INTEGER <= z <= MAX_SAFE_INTEGER.

#[global] Instance safe_dec (z : Z) : Decision (safe z).
Proof. unfold safe. apply _. Defined.

(** ** Data model *)

(** [orders/models/order.ts], [enum OrderState]. *)
Inductive OrderState := Closing | Open | Closed | Archived | Cancelled.

#[global] Instance OrderState_eq_dec : EqDecision OrderState.
Proof. solve_decision. Defined.

(** [IUser] with [userSchema] ([users/models], in
    [users/dust/user.dustHelper.ts]): of a user document the routers of the
    orders and of the ledger read the balance [coins], a [Number] with
    default 0, and the flag [enabled], with default [false]. The identity
    fields of the document are in [Account] below. *)
Record User := mkUser { coins : Z; enabled : bool }.

(** [IUserOrder]: the reference to the user and the free-form details. *)
Record UserOrder := mkUserOrder { uo_user : ObjectId; details : list string }.

(** [IOrder]. *)
Record Order := mkOrder {
  openDate : Z;
  closeDate : Z;
  location : string;
  description : string;
  cost : Z;
  state : OrderState;
  userOrders : list UserOrder;
  purchaser : option ObjectId
}.

(** [ITransactionEntry] and [ITransaction] of [transactions/models]. *)
Record TransactionEntry := mkEntry {
  entry_user : ObjectId;
  previousValue : Z;
  newValue : Z
}.

Record Transaction := mkTransaction {
  tx_description : string;
  tx_date : Z;
  entries : list TransactionEntry
}.

(** [IAudit]. The [log] text of the three audits written by the routers is
    kept as the values the template string interpolates. *)
Inductive AuditLog :=
| LoggedOrder (closed : Z) (loc : string) (c : Z) (order : ObjectId)
              (purchaserId : ObjectId) (participants : list (option ObjectId))
| TransferredCoins (source : ObjectId) (amount : Z) (target : ObjectId)
| SetCoins (admin : ObjectId) (amount : Z) (target : ObjectId).

Record Audit := mkAudit { audit_date : Z; log : AuditLog }.

(** The collections of the database. *)
Record Db := mkDb {
  users : gmap nat User;
  orders : gmap nat Order;
  transactions : list Transaction;
  audits : list Audit
}.

(** [IOrderField], [IOrderType] of [orders/models/orderType.ts]. *)
Record IOrderField := mkField { field_name : string; values : list string }.

Record IOrderType := mkOrderType {
  type_name : string;
  type_description : string;
  type_cost : Z;
  fields : list IOrderField
}.

(** The jobs of the Agenda scheduler: name, data (the order id) and due time. *)
Inductive JobName := closingOrder | closeOrder.

#[global] Instance JobName_eq_dec : EqDecision JobName.
Proof. solve_decision. Defined.

Record Job := mkJob { job_name : JobName; job_data : ObjectId; nextRunAt : Z }.

#[global] Instance Job_eq_dec : EqDecision Job.
Proof. solve_decision. Defined.

(** The persistent state: the database and the scheduler's queue. *)
Record Sys := mkSys { db : Db; jobs : list Job }.

(** [req.flash(type, message)]. Values interpolated into a message (names,
    amounts) are left out of its text. *)
Inductive FlashType := success | error.

#[global] Instance FlashType_eq_dec : EqDecision FlashType.
Proof. solve_decision. Defined.

Definition Flash : Type := FlashType * string.

(** Field setters, in place of JavaScript's assignment to a property. *)
Definition set_coins (c : Z) (u : User) : User :=
  {| coins := c; enabled := enabled u |}.

Definition set_enabled (b : bool) (u : User) : User :=
  {| coins := coins u; enabled := b |}.

Definition set_state (s : OrderState) (o : Order) : Order :=
  {| openDate := openDate o; closeDate := closeDate o; location := location o;
     description := description o; cost := cost o; state := s;
     userOrders := userOrders o; purchaser := purchaser o |}.

Definition set_closeDate (d : Z) (o : Order) : Order :=
  {| openDate := openDate o; closeDate := d; location := location o;
     description := description o; cost := cost o; state := state o;
     userOrders := userOrders o; purchaser := purchaser o |}.

Definition set_userOrders (l : list UserOrder) (o : Order) : Order :=
  {| openDate := openDate o; closeDate := closeDate o; location := location o;
     description := description o; cost := cost o; state := state o;
     userOrders := l; purchaser := purchaser o |}.

Definition set_purchaser (p : option ObjectId) (o : Order) : Order :=
  {| openDate := openDate o; closeDate := closeDate o; location := location o;
     description := description o; cost := cost o; state := state o;
     userOrders := userOrders o; purchaser := p |}.

Definition set_users (m : gmap nat User) (d : Db) : Db :=
  {| users := m; orders := orders d; transactions := transactions d;
     audits := audits d |}.

Definition set_orders (m : gmap nat Order) (d : Db) : Db :=
  {| users := users d; orders := m; transactions := transactions d;
     audits := audits d |}.

Definition add_transaction (t : Transaction) (d : Db) : Db :=
  {| users := users d; orders := orders d; transactions := t :: transactions d;
     audits := audits d |}.

Definition add_audit (a : Audit) (d : Db) : Db :=
  {| users := users d; orders := orders d; transactions := transactions d;
     audits := a :: audits d |}.

(** ** Promise chains inside a session *)

(** The outcome of a promise. *)
Inductive Result (A : Type) :=
| Resolved (a : A)
| Rejected (err : string).

Arguments Resolved {A} a.
Arguments Rejected {A} err.

(** A chain running in a session: it reads and writes the session's working
    copy of the database. *)
Definition Tx (A : Type) : Type := Db -> Db * Result A.

Definition resolve {A} (a : A) : Tx A := fun w => (w, Resolved a).

Definition throw {A} (err : string) : Tx A := fun w => (w, Rejected err).

Definition andThen {A B} (c : Tx A) (k : A -> Tx B) : Tx B :=
  fun w =>
    match c w with
    | (w', Resolved a) => k a w'
    | (w', Rejected err) => (w', Rejected err)
    end.

Notation "'do' x <- c ; k" := (andThen c (fun x => k))
  (at level 10, x name, c at level 100, k at level 200).

(** The storage calls a chain makes. A [Faults] oracle tells which of them
    throw (a driver or validation error); [no_faults] is the run in which
    storage works. *)
Inductive Call :=
| CallFindOrder
| CallUpdateUser (u : ObjectId)
| CallSaveUser (u : ObjectId)
| CallSaveOrder
| CallAudit
| CallCreateTransaction
| CallCommit
| CallReload.

#[global] Instance Call_eq_dec : EqDecision Call.
Proof. solve_decision. Defined.

Definition Faults : Type := Call -> bool.

Definition no_faults : Faults := fun _ => false.

Definition storage (f : Faults) (c : Call) : Tx unit :=
  fun w => if f c then (w, Rejected "storage error") else (w, Resolved tt).

(** A populated user reference: the user document held in memory, or [null]
    when the id no longer resolves. *)
Record UserDoc := mkUserDoc { doc_id : ObjectId; doc_user : User }.

Record PopulatedUserOrder := mkPopulated {
  pu_ref : ObjectId;
  pu_user : option UserDoc;
  pu_details : list string
}.

Definition populate (w : Db) (uo : UserOrder) : PopulatedUserOrder :=
  {| pu_ref := uo_user uo;
     pu_user := mkUserDoc (uo_user uo) <$> users w !! uo_user uo;
     pu_details := details uo |}.

(** [Order.findOne({_id, state}).session(session).populate('userOrders.user')]. *)
Definition Order_findOne_populated (f : Faults) (id : ObjectId)
    (expected : OrderState -> bool) : Tx (option (Order * list PopulatedUserOrder)) :=
  do _ <- storage f CallFindOrder;
  fun w =>
    match orders w !! id with
    | Some o =>
        if expected (state o)
        then (w, Resolved (Some (o, populate w <$> userOrders o)))
        else (w, Resolved None)
    | None => (w, Resolved None)
    end.

(** [User.findByIdAndUpdate(id, {$inc: {coins: delta}}).session(session)]:
    resolves with the document as it was before the update, or [null]. The
    sum is a sum of doubles. *)
Definition User_findByIdAndUpdate_inc (f : Faults) (id : ObjectId) (delta : Z)
    : Tx (option UserDoc) :=
  do _ <- storage f (CallUpdateUser id);
  fun w =>
    match users w !! id with
    | Some u =>
        (set_users (<[id := set_coins (num_add (coins u) delta) u]> (users w)) w,
         Resolved (Some (mkUserDoc id u)))
    | None => (w, Resolved None)
    end.

(** [User.findByIdAndUpdate(id, {$set: {coins: value}}).session(session)]. *)
Definition User_findByIdAndUpdate_set (f : Faults) (id : ObjectId) (value : Z)
    : Tx (option UserDoc) :=
  do _ <- storage f (CallUpdateUser id);
  fun w =>
    match users w !! id with
    | Some u =>
        (set_users (<[id := set_coins value u]> (users w)) w,
         Resolved (Some (mkUserDoc id u)))
    | None => (w, Resolved None)
    end.

(** [user.save()] of a populated document whose [coins] was assigned: the
    stored document takes the in-memory balance. *)
Definition User_save (f : Faults) (d : UserDoc) : Tx unit :=
  do _ <- storage f (CallSaveUser (doc_id d));
  fun w =>
    match users w !! doc_id d with
    | Some u =>
        (set_users (<[doc_id d := set_coins (coins (doc_user d)) u]> (users w)) w,
         Resolved tt)
    | None => (w, Rejected "No document found for query")
    end.

(** [order.save()] of the order loaded in the session. *)
Definition Order_save (f : Faults) (id : ObjectId) (o : Order) : Tx unit :=
  do _ <- storage f CallSaveOrder;
  fun w => (set_orders (<[id := o]> (orders w)) w, Resolved tt).

(** [audit(session, message)] of [audit/audit.ts]. *)
Definition audit (f : Faults) (now : Z) (message : AuditLog) : Tx unit :=
  do _ <- storage f CallAudit;
  fun w => (add_audit {| audit_date := now; log := message |} w, Resolved tt).

(** [Transaction.create([t], {session})]. *)
Definition Transaction_create (f : Faults) (t : Transaction) : Tx Transaction :=
  do _ <- storage f CallCreateTransaction;
  fun w => (add_transaction t w, Resolved t).

(** [session.commitTransaction()]. *)
Definition commitTransaction (f : Faults) : Tx unit := storage f CallCommit.

(** ** Settlement: [OrderAdministrationRouter.logOrder] *)

(** [purchaser.equals(userOrder.user)]: Mongoose compares the [_id]s, and
    answers [false] for a [null] argument. *)
Definition equals (p : UserDoc) (u : option UserDoc) : bool :=
  match u with
  | Some d => bool_decide (doc_id p = doc_id d)
  | None => false
  end.

(** The filter of [logOrder], used for the debits and again for the ledger. *)
Definition not_purchaser (p : UserDoc) (pu : PopulatedUserOrder) : bool :=
  negb (equals p (pu_user pu)).

(** [order.userOrders.filter(...).map(userOrder => { userOrder.user.coins -=
    order.cost; return userOrder.user.save(); })] under [Promise.all]. The
    documents are mutated in place, so the result is [order.userOrders] as
    it stands in memory afterwards: the entries kept by the filter carry the
    debited balance, the others are untouched. Reading [coins] of a [null]
    user throws. Every entry holds its own copy of the user document; the
    properties below are about orders whose participants are distinct
    ([unique_participants]), where no two entries hold the same user. *)
Fixpoint debit_participants (f : Faults) (p : UserDoc) (c : Z)
    (l : list PopulatedUserOrder) : Tx (list PopulatedUserOrder) :=
  match l with
  | [] => resolve []
  | pu :: rest =>
      if not_purchaser p pu then
        match pu_user pu with
        | None => throw "TypeError: Cannot read property 'coins' of null"
        | Some d =>
            let d' := mkUserDoc (doc_id d)
                        (set_coins (num_sub (coins (doc_user d)) c) (doc_user d)) in
            do _ <- User_save f d';
            do rest' <- debit_participants f p c rest;
            resolve (mkPopulated (pu_ref pu) (Some d') (pu_details pu) :: rest')
        end
      else
        do rest' <- debit_participants f p c rest;
        resolve (pu :: rest')
  end.

(** The ledger entry of one debited participant: the previous value is
    computed back from the balance the document holds after the debit. *)
Definition participant_entry (c : Z) (pu : PopulatedUserOrder)
    : Result TransactionEntry :=
  match pu_user pu with
  | Some d =>
      Resolved {| entry_user := doc_id d;
                  previousValue := num_add (coins (doc_user d)) c;
                  newValue := coins (doc_user d) |}
  | None => Rejected "TypeError: Cannot read property 'coins' of null"
  end.

Fixpoint participant_entries (c : Z) (l : list PopulatedUserOrder)
    : Result (list TransactionEntry) :=
  match l with
  | [] => Resolved []
  | pu :: rest =>
      match participant_entry c pu with
      | Rejected err => Rejected err
      | Resolved e =>
          match participant_entries c rest with
          | Rejected err => Rejected err
          | Resolved es => Resolved (e :: es)
          end
      end
  end.

Definition lift {A} (r : Result A) : Tx A := fun w => (w, r).

(** The chain of [logOrder] from [startTransaction] up to and including
    [commitTransaction]. *)
Definition logOrder_chain (f : Faults) (now : Z) (id purchaserId : ObjectId)
    : Tx Transaction :=
  do found <- Order_findOne_populated f id (fun s => bool_decide (s = Closed));
  match found with
  | None => throw "Unable to find order"
  | Some (order, populated) =>
      let credit := num_mul (cost order) (Z.of_nat (length populated) - 1) in
      do p <- User_findByIdAndUpdate_inc f purchaserId credit;
      match p with
      | None => throw "Order purchaser not found"
      | Some purchaserDoc =>
          do populated' <- debit_participants f purchaserDoc (cost order) populated;
          do _ <- Order_save f id
                    (set_state Archived (set_purchaser (Some (doc_id purchaserDoc)) order));
          do _ <- audit f now
                    (LoggedOrder (closeDate order) (location order) (cost order) id
                       (doc_id purchaserDoc)
                       ((fun pu => doc_id <$> pu_user pu) <$> populated'));
          let purchaserEntry :=
            {| entry_user := doc_id purchaserDoc;
               previousValue := coins (doc_user purchaserDoc);
               newValue := num_add (coins (doc_user purchaserDoc)) credit |} in
          do es <- lift (participant_entries (cost order)
                           (filter (fun pu => not_purchaser purchaserDoc pu = true) populated'));
          do t <- Transaction_create f
                    {| tx_description := "Logged order"; tx_date := now;
                       entries := purchaserEntry :: es |};
          do _ <- commitTransaction f;
          resolve t
      end
  end.

(** [logOrder]: the chain runs on the session's copy [d]; when it resolves
    the copy is the committed database and success is flashed, then the
    order is read again for the mail, and a failure of that read reaches
    the same [.catch]; when the chain rejects, the handler flashes the error
    and aborts, which leaves the database as it was. *)
Definition logOrder (f : Faults) (now : Z) (id purchaserId : ObjectId) (d : Db)
    : Db * list Flash :=
  match logOrder_chain f now id purchaserId d with
  | (w, Resolved _) =>
      if f CallReload
      then (w, [(success, "Successfully logged order"); (error, "Failed to log order")])
      else (w, [(success, "Successfully logged order")])
  | (_, Rejected _) => (d, [(error, "Failed to log order")])
  end.

(** ** Coin transfer: [UserRouter.transferCoins] *)

(** The chain of [transferCoins] between [startTransaction] and
    [commitTransaction]. Both updates resolve with the document as it was
    before that update. [amount] is the integer whose literal the string
    [req.body.coins] holds: the update casts the string to a number, and
    [-1 * coins] and [parseInt(coins, 10)] convert it. *)
Definition transferCoins_chain (f : Faults) (now : Z) (sourceId targetId : ObjectId)
    (amount : Z) : Tx Transaction :=
  do t <- User_findByIdAndUpdate_inc f targetId (toNumber amount);
  match t with
  | None => throw "targetUser is null"
  | Some targetUser =>
      do s <- User_findByIdAndUpdate_inc f sourceId (num_mul (-1) (toNumber amount));
      match s with
      | None => throw "sourceUser is null"
      | Some sourceUser =>
          do _ <- audit f now (TransferredCoins (doc_id sourceUser) amount (doc_id targetUser));
          do t <- Transaction_create f
                    {| tx_description := "Coin transfer"; tx_date := now;
                       entries :=
                         [ {| entry_user := doc_id targetUser;
                              previousValue := coins (doc_user targetUser);
                              newValue := num_add (coins (doc_user targetUser))
                                            (toNumber amount) |};
                           {| entry_user := doc_id sourceUser;
                              previousValue := coins (doc_user sourceUser);
                              newValue := num_sub (coins (doc_user sourceUser))
                                            (toNumber amount) |} ] |};
          do _ <- commitTransaction f;
          resolve t
      end
  end.

(** [transferCoins]: [reqUser] is [req.user], the sender's document as the
    session middleware loaded it. [coins > req.user.coins] compares the
    string with a number, as numbers. The [.catch] handler calls [req.flash]
    with one argument, which reads messages and sets none. *)
Definition transferCoins (f : Faults) (now : Z) (reqUser : UserDoc)
    (targetId : ObjectId) (amount : Z) (d : Db) : Db * list Flash :=
  if toNumber amount >? coins (doc_user reqUser)
  then (d, [(error, "Can transfer at most coins")])
  else
    match transferCoins_chain f now (doc_id reqUser) targetId amount d with
    | (w, Resolved _) => (w, [(success, "Transferred coins")])
    | (_, Rejected _) => (d, [])
    end.

(** [validateRequest] after [body('coins').exists().isInt(...)]: the body
    field is [None] when it is absent or not an integer literal, else the
    integer the literal denotes. *)
Definition validation_error : list Flash := [(error, "Invalid value (coins)")].

(** The gate mounted by [AuthenticationRouter.registerRoutes]: a request
    reaches the routers only with an existing, enabled [req.user]. *)
Definition authenticated (d : Db) (uid : ObjectId) : option UserDoc :=
  match users d !! uid with
  | Some u => if enabled u then Some (mkUserDoc uid u) else None
  | None => None
  end.

(** [POST /transfer]: [body('coins').exists().isInt({ min: 1 })], which
    compares the string with [1] as numbers, then [transferCoins]. *)
Definition post_transfer (f : Faults) (now : Z) (sender targetId : ObjectId)
    (body_coins : option Z) (d : Db) : Db * list Flash :=
  match authenticated d sender with
  | None => (d, [])
  | Some reqUser =>
      match body_coins with
      | None => (d, validation_error)
      | Some amount =>
          if 1 <=? toNumber amount
          then transferCoins f now reqUser targetId amount d
          else (d, validation_error)
      end
  end.

(** ** Forced adjustment: [UserAdministrationRouter.setCoins] *)

(** [value] is the integer whose literal [req.body.coins] holds; the update
    and the ledger entry cast the string to a number, the audit message
    quotes the string. *)
Definition setCoins_chain (f : Faults) (now : Z) (admin id : ObjectId) (value : Z)
    : Tx Transaction :=
  do u <- User_findByIdAndUpdate_set f id (toNumber value);
  match u with
  | None => throw "User not found"
  | Some user =>
      do _ <- audit f now (SetCoins admin value (doc_id user));
      do t <- Transaction_create f
                {| tx_description := "Forced coin update"; tx_date := now;
                   entries := [ {| entry_user := doc_id user;
                                   previousValue := coins (doc_user user);
                                   newValue := toNumber value |} ] |};
      do _ <- commitTransaction f;
      resolve t
  end.

(** [setCoins] flashes its success as soon as the user is found, before the
    audit, the ledger entry and the commit. *)
Definition setCoins (f : Faults) (now : Z) (admin id : ObjectId) (value : Z) (d : Db)
    : Db * list Flash :=
  match setCoins_chain f now admin id value d with
  | (w, Resolved _) => (w, [(success, "Set coins")])
  | (_, Rejected _) =>
      if negb (f (CallUpdateUser id)) && bool_decide (is_Some (users d !! id))
      then (d, [(success, "Set coins"); (error, "Failed to update coins")])
      else (d, [(error, "Failed to update coins")])
  end.

(** [POST /setCoins]: [body('coins').isInt()], then [setCoins]. *)
Definition post_setCoins (f : Faults) (now : Z) (admin id : ObjectId)
    (body_coins : option Z) (d : Db) : Db * list Flash :=
  match authenticated d admin with
  | None => (d, [])
  | Some _ =>
      match body_coins with
      | None => (d, validation_error)
      | Some value => setCoins f now admin id value d
      end
  end.

(** [enableUser], [disableUser], [deleteUser] of the same router. *)
Definition set_user_enabled (b : bool) (id : ObjectId) (d : Db) : Db * list Flash :=
  match users d !! id with
  | Some u => (set_users (<[id := set_enabled b u]> (users d)) d,
               [(success, "Successfully updated user")])
  | None => (d, [(error, "Failed to update user")])
  end.

Definition deleteUser (id : ObjectId) (d : Db) : Db * list Flash :=
  match users d !! id with
  | Some u =>
      if enabled u then (d, [(error, "Failed to delete user")])
      else (set_users (delete id (users d)) d, [(success, "Successfully deleted user")])
  | None => (d, [(error, "Failed to delete user")])
  end.

(** ** Orders: [OrderRouter] and [OrderAdministrationRouter] *)

(** The configuration the routers are built with. *)
Record Config := mkConfig {
  orderTypes : list IOrderType;
  orderCloseTimeout : Z
}.

(** [this.orderTypes.find((type) => type.name === name)]. *)
Definition find_orderType (types : list IOrderType) (name : string)
    : option IOrderType :=
  List.find (fun t => bool_decide (type_name t = name)) types.

Definition in_states (allowed : list OrderState) (s : OrderState) : bool :=
  bool_decide (s ∈ allowed).

(** The [$elemMatch] / [$nin] tests on [userOrders.user]. *)
Definition participates (uid : ObjectId) (o : Order) : bool :=
  bool_decide (uid ∈ uo_user <$> userOrders o).

(** [agenda.schedule(when, name, data)]. *)
Definition schedule (when : Z) (name : JobName) (data : ObjectId) (q : list Job)
    : list Job :=
  q ++ [mkJob name data when].

(** [agenda.cancel({name: {$in: ['closingOrder', 'closeOrder']}, data: id})]. *)
Definition cancel_jobs (id : ObjectId) (q : list Job) : list Job :=
  filter (fun j => job_data j ≠ id) q.

(** [job.remove()]: the job's own record leaves the queue. *)
Fixpoint remove_job (j : Job) (q : list Job) : list Job :=
  match q with
  | [] => []
  | j' :: rest => if decide (j' = j) then rest else j' :: remove_job j rest
  end.

(** The validation [order.save()] runs: [orderSchema] requires [location]
    and [description], which for a string means present and not empty; the
    other required paths always hold a value here. *)
Definition order_valid (o : Order) : bool :=
  negb (bool_decide (location o = "")) && negb (bool_decide (description o = "")).

(** [createOrder]: when the document passes the validation of the schema it
    is stored under a fresh [_id] and one job is scheduled; when it does
    not, [save] rejects, nothing is stored or scheduled and the error is
    flashed. *)
Definition createOrder (cfg : Config) (now : Z) (type : string) (close : Z) (s : Sys)
    : Sys * list Flash :=
  let typeConfig := find_orderType (orderTypes cfg) type in
  let order :=
    {| location := type;
       description := match typeConfig with Some t => type_description t | None => "" end;
       cost := match typeConfig with Some t => type_cost t | None => 1 end;
       closeDate := close;
       openDate := now;
       state := Open;
       userOrders := [];
       purchaser := None |} in
  if order_valid order then
    let id := fresh (dom (orders (db s))) in
    let closingTime :=
      if close - orderCloseTimeout cfg <? now then now else close - orderCloseTimeout cfg in
    ({| db := set_orders (<[id := order]> (orders (db s))) (db s);
        jobs := schedule closingTime closingOrder id (jobs s) |},
     [(success, "Created new order")])
  else (s, [(error, "Failed to create new order")]).

(** The ['closingOrder'] job body, run at time [now]. The conditional update
    resolves with the populated order, or [null] when the order is not
    [Open]; the recipients query reads [userOrder.user._id] of every
    participant, which throws on a [null] user; only when that stage
    resolves is the ['closeOrder'] job scheduled. Errors are logged. *)
Definition closingOrder_job (cfg : Config) (now : Z) (orderId : ObjectId) (s : Sys)
    : Sys :=
  match orders (db s) !! orderId with
  | Some o =>
      if bool_decide (state o = Open) then
        let d' := set_orders (<[orderId := set_state Closing o]> (orders (db s))) (db s) in
        if forallb (fun pu => bool_decide (is_Some (pu_user pu)))
                   (populate (db s) <$> userOrders o)
        then {| db := d';
                jobs := schedule (now + orderCloseTimeout cfg) closeOrder orderId (jobs s) |}
        else {| db := d'; jobs := jobs s |}
      else s
  | None => s
  end.

(** [closeOrderById]. *)
Definition closeOrderById (now : Z) (id : ObjectId) (d : Db) : Db * Result Order :=
  match orders d !! id with
  | Some o =>
      if in_states [Open; Closing] (state o) then
        let o' :=
          set_closeDate now
            (set_state (if (0 <? length (userOrders o))%nat then Closed else Cancelled) o) in
        (set_orders (<[id := o']> (orders d)) d, Resolved o')
      else (d, Rejected "Order is null")
  | None => (d, Rejected "Order is null")
  end.

(** The ['closeOrder'] job body. *)
Definition closeOrder_job (now : Z) (orderId : ObjectId) (s : Sys) : Sys :=
  {| db := fst (closeOrderById now orderId (db s)); jobs := jobs s |}.

(** The scheduler fires a queued job that is due: the job removes itself,
    then its body runs. *)
Definition run_job (cfg : Config) (now : Z) (j : Job) (s : Sys) : Sys :=
  if bool_decide (j ∈ jobs s) && (nextRunAt j <=? now) then
    let s' := {| db := db s; jobs := remove_job j (jobs s) |} in
    match job_name j with
    | closingOrder => closingOrder_job cfg now (job_data j) s'
    | closeOrder => closeOrder_job now (job_data j) s'
    end
  else s.

(** [closeOrder], the manual close. *)
Definition closeOrder_route (now : Z) (id : ObjectId) (s : Sys) : Sys * list Flash :=
  match closeOrderById now id (db s) with
  | (d', Resolved _) =>
      ({| db := d'; jobs := cancel_jobs id (jobs s) |},
       [(success, "Order successfully closed")])
  | (d', Rejected _) =>
      ({| db := d'; jobs := jobs s |}, [(error, "Failed to close order")])
  end.

(** [cancelOrder]: the outcome of [findOneAndUpdate] is not inspected. *)
Definition cancelOrder (now : Z) (id : ObjectId) (s : Sys) : Sys * list Flash :=
  let d' :=
    match orders (db s) !! id with
    | Some o =>
        if in_states [Open; Closing; Closed] (state o) then
          set_orders
            (<[id := set_closeDate now (set_userOrders [] (set_state Cancelled o))]>
               (orders (db s)))
            (db s)
        else db s
    | None => db s
    end in
  ({| db := d'; jobs := cancel_jobs id (jobs s) |},
   [(success, "Order successfully canceled")]).

(** The [details] built by [joinOrder]: one line per field of the order
    type; a missing or empty value throws. *)
Fixpoint join_details (body : gmap string string) (fs : list IOrderField)
    : Result (list string) :=
  match fs with
  | [] => Resolved []
  | fld :: rest =>
      match body !! field_name fld with
      | Some v =>
          if bool_decide (v = "") then Rejected "Value was not provided"
          else
            match join_details body rest with
            | Resolved ds => Resolved ((field_name fld +:+ ": " +:+ v) :: ds)
            | Rejected err => Rejected err
            end
      | None => Rejected "Value was not provided"
      end
  end.

(** [joinOrder]. *)
Definition joinOrder (cfg : Config) (reqUser id : ObjectId) (body : gmap string string)
    (d : Db) : Db * list Flash :=
  let failed := (d, [(error, "Failed to join order; it may already be closed")]) in
  match orders d !! id with
  | Some o =>
      if in_states [Open; Closing] (state o) && negb (participates reqUser o) then
        match find_orderType (orderTypes cfg) (location o) with
        | Some thisOrderType =>
            match join_details body (fields thisOrderType) with
            | Resolved ds =>
                (set_orders
                   (<[id := set_userOrders (userOrders o ++ [mkUserOrder reqUser ds]) o]>
                      (orders d)) d,
                 [(success, "Successfully joined order")])
            | Rejected _ => failed
            end
        | None => failed
        end
      else failed
  | None => failed
  end.

(** [leaveOrder]: a conditional update with [$pull]. *)
Definition leaveOrder (reqUser id : ObjectId) (d : Db) : Db * list Flash :=
  let failed := (d, [(error, "Failed to leave order; it may already be closed")]) in
  match orders d !! id with
  | Some o =>
      if in_states [Open; Closing] (state o) && participates reqUser o then
        (set_orders
           (<[id := set_userOrders
                      (filter (fun uo => uo_user uo ≠ reqUser) (userOrders o)) o]>
              (orders d)) d,
         [(success, "Successfully left order")])
      else failed
  | None => failed
  end.

(** ** The system as a transition system *)

(** The requests and scheduler events that write to the state. The role
    checks of the administration routers (['order-creator'], ['admin']) come
    before the operations and are not part of them. *)
Inductive Op :=
| OpCreateOrder (type : string) (close : Z)
| OpJoinOrder (reqUser id : ObjectId) (body : gmap string string)
| OpLeaveOrder (reqUser id : ObjectId)
| OpCloseOrder (id : ObjectId)
| OpCancelOrder (id : ObjectId)
| OpLogOrder (f : Faults) (id purchaserId : ObjectId)
| OpRunJob (j : Job)
| OpTransfer (f : Faults) (sender targetId : ObjectId) (body_coins : option Z)
| OpSetCoins (f : Faults) (admin id : ObjectId) (body_coins : option Z)
| OpEnableUser (id : ObjectId)
| OpDisableUser (id : ObjectId)
| OpDeleteUser (id : ObjectId).

Definition on_db (s : Sys) (r : Db * list Flash) : Sys * list Flash :=
  ({| db := fst r; jobs := jobs s |}, snd r).

(** A request of an authenticated user. *)
Definition as_user (uid : ObjectId) (s : Sys) (k : Db -> Db * list Flash)
    : Sys * list Flash :=
  match authenticated (db s) uid with
  | Some _ => on_db s (k (db s))
  | None => (s, [])
  end.

Definition step (cfg : Config) (now : Z) (op : Op) (s : Sys) : Sys * list Flash :=
  match op with
  | OpCreateOrder type close => createOrder cfg now type close s
  | OpJoinOrder u id body => as_user u s (joinOrder cfg u id body)
  | OpLeaveOrder u id => as_user u s (leaveOrder u id)
  | OpCloseOrder id => closeOrder_route now id s
  | OpCancelOrder id => cancelOrder now id s
  | OpLogOrder f id p => on_db s (logOrder f now id p (db s))
  | OpRunJob j => (run_job cfg now j s, [])
  | OpTransfer f u t c => on_db s (post_transfer f now u t c (db s))
  | OpSetCoins f a id c => on_db s (post_setCoins f now a id c (db s))
  | OpEnableUser id => on_db s (set_user_enabled true id (db s))
  | OpDisableUser id => on_db s (set_user_enabled false id (db s))
  | OpDeleteUser id => on_db s (deleteUser id (db s))
  end.

(** A history: operations with the time at which each one runs. *)
Fixpoint run (cfg : Config) (ops : list (Z * Op)) (s : Sys) : Sys :=
  match ops with
  | [] => s
  | (now, op) :: rest => run cfg rest (fst (step cfg now op s))
  end.

(** ** Observations used by the properties *)

Definition order_state (d : Db) (id : ObjectId) : option OrderState :=
  state <$> orders d !! id.

Definition participants (d : Db) (id : ObjectId) : option (list ObjectId) :=
  (fun o => uo_user <$> userOrders o) <$> orders d !! id.

Definition balance (d : Db) (uid : ObjectId) : option Z :=
  coins <$> users d !! uid.

Definition delta (e : TransactionEntry) : Z := newValue e - previousValue e.

Definition sum_deltas (t : Transaction) : Z :=
  foldr Z.add 0 (delta <$> entries t).

Definition flashed (ty : FlashType) (fl : list Flash) : bool :=
  bool_decide (ty ∈ fst <$> fl).

(** ** The effect of the debits, as plain functions *)

(** The document a debited participant holds in memory. *)
Definition debit_doc (c : Z) (d : UserDoc) : UserDoc :=
  mkUserDoc (doc_id d) (set_coins (num_sub (coins (doc_user d)) c) (doc_user d)).

(** [order.userOrders] in memory after the debits. *)
Definition debited (p : UserDoc) (c : Z) (pu : PopulatedUserOrder)
    : PopulatedUserOrder :=
  if not_purchaser p pu
  then mkPopulated (pu_ref pu) (debit_doc c <$> pu_user pu) (pu_details pu)
  else pu.

(** The users collection after the saves of [debit_participants]. *)
Fixpoint debit_users (p : UserDoc) (c : Z) (l : list PopulatedUserOrder)
    (m : gmap nat User) : gmap nat User :=
  match l with
  | [] => m
  | pu :: rest =>
      if not_purchaser p pu then
        match pu_user pu with
        | Some d =>
            debit_users p c rest
              (alter (set_coins (num_sub (coins (doc_user d)) c)) (doc_id d) m)
        | None => m
        end
      else debit_users p c rest m
  end.

(** The participants to which the filter of [logOrder] applies the debit. *)
Definition debtors (p : ObjectId) (l : list UserOrder) : list ObjectId :=
  filter (fun u => u ≠ p) (uo_user <$> l).

(** ** The outcome of a settlement, as plain functions *)

(** The purchaser's credit. *)
Definition settlement_credit (o : Order) : Z :=
  num_mul (cost o) (Z.of_nat (length (userOrders o)) - 1).

(** The ledger entry of the debtor [uid], read from the database [d] in
    which the settlement starts. *)
Definition debtor_entry (d : Db) (c : Z) (uid : ObjectId) : TransactionEntry :=
  {| entry_user := uid;
     previousValue := num_add (num_sub (default 0 (balance d uid)) c) c;
     newValue := num_sub (default 0 (balance d uid)) c |}.

Definition settlement_transaction (now : Z) (d : Db) (p : ObjectId) (u : User)
    (o : Order) : Transaction :=
  {| tx_description := "Logged order";
     tx_date := now;
     entries :=
       {| entry_user := p; previousValue := coins u;
          newValue := num_add (coins u) (settlement_credit o) |}
       :: (debtor_entry d (cost o) <$> debtors p (userOrders o)) |}.

(** The database a settlement of order [o] with purchaser [p], stored as
    [u], commits. *)
Definition settled (now : Z) (id p : ObjectId) (o : Order) (u : User) (d : Db) : Db :=
  {| users :=
       debit_users (mkUserDoc p u) (cost o) (populate d <$> userOrders o)
         (<[p := set_coins (num_add (coins u) (settlement_credit o)) u]> (users d));
     orders := <[id := set_state Archived (set_purchaser (Some p) o)]> (orders d);
     transactions := settlement_transaction now d p u o :: transactions d;
     audits :=
       {| audit_date := now;
          log := LoggedOrder (closeDate o) (location o) (cost o) id p
                   (Some <$> (uo_user <$> userOrders o)) |} :: audits d |}.

(** The storage calls a settlement makes before it has committed. *)
Definition settlement_calls (p : ObjectId) (o : Order) : list Call :=
  [CallFindOrder; CallUpdateUser p] ++
  (CallSaveUser <$> debtors p (userOrders o)) ++
  [CallSaveOrder; CallAudit; CallCreateTransaction; CallCommit].

(** Every participant of [o] resolves to a stored user. *)
Definition participants_resolve (d : Db) (o : Order) : Prop :=
  Forall (fun uid => is_Some (users d !! uid)) (uo_user <$> userOrders o).

(** The numbers a settlement of [o] with purchaser [p] computes are safe
    integers: the credit, the purchaser's balance before and after it, and
    the balance of every other participant before and after the debit. *)
Definition safe_settlement (d : Db) (p : ObjectId) (o : Order) : Prop :=
  let credit := cost o * (Z.of_nat (length (userOrders o)) - 1) in
  safe credit /\
  (forall b, balance d p = Some b -> safe b /\ safe (b + credit)) /\
  (forall uid b, uid ∈ uo_user <$> userOrders o -> uid <> p ->
     balance d uid = Some b -> safe b /\ safe (b - cost o)).

(** The causes the router names for a failed settlement: the order does not
    resolve under the state filter [Closed], the purchaser does not resolve,
    or one of the storage calls made before the commit has completed
    throws. *)
Definition settlement_fails_early (f : Faults) (id p : ObjectId) (d : Db) : Prop :=
  order_state d id <> Some Closed \/
  users d !! p = None \/
  exists o c, orders d !! id = Some o /\ c ∈ settlement_calls p o /\ f c = true.

(** ** The scenarios of the specification *)

Module Scenario.

Definition A : ObjectId := 1%nat.
Definition B : ObjectId := 2%nat.
Definition C : ObjectId := 3%nat.
(** A user who takes part in no order. *)
Definition D : ObjectId := 4%nat.

Definition order_id : ObjectId := 7%nat.

(** An order with [cost = 5] and participants A, B, C, closed. *)
Definition tenders : Order :=
  {| openDate := 0; closeDate := 1000; location := "tenders";
     description := "chicken tenders"; cost := 5; state := Closed;
     userOrders := [mkUserOrder A []; mkUserOrder B []; mkUserOrder C []];
     purchaser := None |}.

Definition start : Db :=
  {| users := list_to_map [(A, mkUser 0 true); (B, mkUser 7 true);
                           (C, mkUser (-2) true); (D, mkUser 1 true)];
     orders := {[ order_id := tenders ]};
     transactions := [];
     audits := [] |}.

Definition cfg : Config :=
  {| orderTypes := [mkOrderType "tenders" "chicken tenders" 5 []];
     orderCloseTimeout := 5000 |}.

(** Storage in which [Transaction.create] throws. *)
Definition ledger_write_fails : Faults :=
  fun c => bool_decide (c = CallCreateTransaction).

Definition empty : Sys :=
  {| db := {| users := ∅; orders := ∅; transactions := []; audits := [] |};
     jobs := [] |}.

End Scenario.

(** A balance beyond the safe integers, as [setCoins] stores it when an
    administrator enters it. *)
Module Rounding.

Definition order_id : ObjectId := 8%nat.

(** An order with [cost = 1] and participants A and B, closed. *)
Definition nuggets : Order :=
  {| openDate := 0; closeDate := 1000; location := "nuggets";
     description := "chicken nuggets"; cost := 1; state := Closed;
     userOrders := [mkUserOrder Scenario.A []; mkUserOrder Scenario.B []];
     purchaser := None |}.

(** B holds [2^53 + 2] coins. *)
Definition start : Db :=
  {| users := list_to_map [(Scenario.A, mkUser 0 true);
                           (Scenario.B, mkUser 9007199254740994 true)];
     orders := {[ order_id := nuggets ]};
     transactions := [];
     audits := [] |}.

End Rounding.

(** ** The outcome of a transfer, as plain functions *)

(** The users collection after the two updates of a transfer of [a] coins
    from [s] to [r], where [ur] is the stored recipient and [us] the sender
    as stored once the recipient has been credited. *)
Definition transfer_users (s r : ObjectId) (a : Z) (us ur : User) (m : gmap nat User)
    : gmap nat User :=
  <[s := set_coins (num_add (coins us) (num_mul (-1) (toNumber a))) us]>
    (<[r := set_coins (num_add (coins ur) (toNumber a)) ur]> m).

Definition transfer_transaction (now : Z) (s r : ObjectId) (a : Z) (us ur : User)
    : Transaction :=
  {| tx_description := "Coin transfer"; tx_date := now;
     entries :=
       [ {| entry_user := r; previousValue := coins ur;
            newValue := num_add (coins ur) (toNumber a) |};
         {| entry_user := s; previousValue := coins us;
            newValue := num_sub (coins us) (toNumber a) |} ] |}.

Definition transferred (now : Z) (s r : ObjectId) (a : Z) (us ur : User) (d : Db) : Db :=
  add_transaction (transfer_transaction now s r a us ur)
    (add_audit {| audit_date := now; log := TransferredCoins s a r |}
       (set_users (transfer_users s r a us ur (users d)) d)).

(** ** The life of one order *)

(** How the operation [op], run at time [now] and answering the flashes
    [fl], may change the stored order [id] from [o]: these are all the
    writes the routers and the jobs make to an existing order. *)
Inductive OrderChange (now : Z) (op : Op) (fl : list Flash) (id : ObjectId) (o : Order)
    : Order -> Prop :=
| Unchanged :
    OrderChange now op fl id o o
| Joined u body ds :
    op = OpJoinOrder u id body ->
    in_states [Open; Closing] (state o) = true ->
    u ∉ uo_user <$> userOrders o ->
    OrderChange now op fl id o
      (set_userOrders (userOrders o ++ [mkUserOrder u ds]) o)
| Left u :
    op = OpLeaveOrder u id ->
    in_states [Open; Closing] (state o) = true ->
    u ∈ uo_user <$> userOrders o ->
    OrderChange now op fl id o
      (set_userOrders (filter (fun uo => uo_user uo ≠ u) (userOrders o)) o)
| MovedToClosing due :
    op = OpRunJob (mkJob closingOrder id due) ->
    state o = Open ->
    OrderChange now op fl id o (set_state Closing o)
| WasClosed :
    op = OpCloseOrder id \/ (exists due, op = OpRunJob (mkJob closeOrder id due)) ->
    in_states [Open; Closing] (state o) = true ->
    OrderChange now op fl id o
      (set_closeDate now
         (set_state (if (0 <? length (userOrders o))%nat then Closed else Cancelled) o))
| WasCancelled :
    op = OpCancelOrder id ->
    in_states [Open; Closing; Closed] (state o) = true ->
    OrderChange now op fl id o
      (set_closeDate now (set_userOrders [] (set_state Cancelled o)))
| WasArchived f p :
    op = OpLogOrder f id p ->
    flashed success fl = true ->
    state o = Closed ->
    OrderChange now op fl id o (set_state Archived (set_purchaser (Some p) o)).

(** No order has the same user twice among its participants. *)
Definition unique_participants (d : Db) : Prop :=
  forall id o, orders d !! id = Some o -> NoDup (uo_user <$> userOrders o).

(** ** The order state machine *)

(** The edges along which the routers and the jobs move an order's state:
    the conditional updates of ['closingOrder'], [closeOrderById],
    [cancelOrder] and [logOrder]. *)
Definition transition (s s' : OrderState) : bool :=
  match s, s' with
  | Open, Closing => true
  | Open, Closed | Closing, Closed => true
  | Open, Cancelled | Closing, Cancelled | Closed, Cancelled => true
  | Closed, Archived => true
  | _, _ => false
  end.

(** The states no operation leaves. *)
Definition terminal (s : OrderState) : bool :=
  match s with
  | Archived | Cancelled => true
  | _ => false
  end.

(** An order has a purchaser exactly when it is [Archived]. *)
Definition purchaser_iff_archived (d : Db) : Prop :=
  forall id o, orders d !! id = Some o ->
    (state o = Archived <-> is_Some (purchaser o)).

(** No job for the order [id] is queued. *)
Definition no_jobs_for (id : ObjectId) (q : list Job) : Prop :=
  forall j, j ∈ q -> job_data j <> id.

(** ** Coins and the ledger *)

(** The coins held by all users together. *)
Definition total_coins (m : gmap nat User) : Z :=
  map_fold (fun _ u acc => coins u + acc) 0 m.

(** The net coin movement recorded by a ledger. *)
Definition ledger_net (l : list Transaction) : Z :=
  foldr Z.add 0 (sum_deltas <$> l).

(** What an operation does to the users, the ledger and the audit log: the
    writes of [logOrder], [transferCoins], [setCoins], [enableUser],
    [disableUser] and [deleteUser]; the other operations write to orders
    and jobs only. *)
Inductive CoinChange (now : Z) (op : Op) (d : Db) : Db -> Prop :=
| NoCoinChange d' :
    users d' = users d -> transactions d' = transactions d -> audits d' = audits d ->
    CoinChange now op d d'
| CoinsSettled id p o u :
    orders d !! id = Some o -> users d !! p = Some u ->
    participants_resolve d o ->
    CoinChange now op d (settled now id p o u d)
| CoinsTransferred f s r a us ur :
    op = OpTransfer f s r (Some a) ->
    users d !! r = Some ur ->
    <[r := set_coins (num_add (coins ur) (toNumber a)) ur]> (users d) !! s = Some us ->
    CoinChange now op d (transferred now s r a us ur d)
| CoinsSet admin id v u :
    users d !! id = Some u ->
    CoinChange now op d
      (add_transaction
         {| tx_description := "Forced coin update"; tx_date := now;
            entries := [ {| entry_user := id; previousValue := coins u;
                            newValue := toNumber v |} ] |}
         (add_audit {| audit_date := now; log := SetCoins admin v id |}
            (set_users (<[id := set_coins (toNumber v) u]> (users d)) d)))
| UserFlagged id u b :
    users d !! id = Some u ->
    CoinChange now op d (set_users (<[id := set_enabled b u]> (users d)) d)
| UserDeleted id u :
    op = OpDeleteUser id ->
    users d !! id = Some u -> enabled u = false ->
    CoinChange now op d (set_users (delete id (users d)) d).

(** Every balance is a safe integer. *)
Definition safe_balances (d : Db) : Prop :=
  map_Forall (fun _ u => safe (coins u)) (users d).

(** Every balance is a safe integer before, between and after the
    operations of a history. *)
Fixpoint balances_stay_safe (cfg : Config) (ops : list (Z * Op)) (s : Sys) : Prop :=
  safe_balances (db s) /\
  match ops with
  | [] => True
  | (now, op) :: rest => balances_stay_safe cfg rest (fst (step cfg now op s))
  end.

(** A history without [deleteUser]. *)
Definition deletes_no_user (ops : list (Z * Op)) : Prop :=
  Forall (fun x => forall id, snd x <> OpDeleteUser id) ops.

(** An order that is [Closed] or [Archived] has participants. *)
Definition closed_has_participants (d : Db) : Prop :=
  forall id o, orders d !! id = Some o ->
    state o = Closed \/ state o = Archived -> userOrders o <> [].

(** Every field of the order type has a value in the request body, and the
    value is not the empty string. *)
Definition fields_provided (body : gmap string string) (fs : list IOrderField) : Prop :=
  Forall (fun fld => exists v, body !! field_name fld = Some v /\ v <> "") fs.

(** ** Database upgrade: [upgrade/upgrader.ts] and [config/dbMigration.ts] *)

Section Upgrade.

(** What the upgrade functions work on: the collections other than the
    version document. *)
Context {Content : Type}.

(** [IUpgradeStep]; [step_from] and [step_to] are its fields [from] and
    [to]. An upgrade function answers the content it leaves and whether its
    promise resolved. *)
Record IUpgradeStep := mkStep {
  upgradeFunc : Content -> Content * Result unit;
  step_from : Z;
  step_to : Z
}.

(** [IUpgradeConfig]. *)
Record IUpgradeConfig := mkUpgradeConfig {
  targetVersion : Z;
  steps : list IUpgradeStep
}.

(** The database as the upgrade sees it: the document of the
    ['schemaVersion'] collection, if there is one, and the rest. *)
Record Store := mkStore {
  schemaVersion : option Z;
  content : Content
}.

(** [upgrade]: the recursion of the source, which nothing bounds, runs here
    on [fuel]; [None] is the run that has not returned when the fuel is
    spent. The version document is saved after every step. *)
Fixpoint upgrade (fuel : nat) (cfg : IUpgradeConfig) (version : Z) (c : Content)
    : option (Store * Result unit) :=
  match fuel with
  | O => None
  | S fuel' =>
      if version =? targetVersion cfg
      then Some ({| schemaVersion := Some version; content := c |}, Resolved tt)
      else
        match List.find (fun step => step_from step =? version) (steps cfg) with
        | None =>
            Some ({| schemaVersion := Some version; content := c |},
                  Rejected "No upgrade step")
        | Some nextStep =>
            match upgradeFunc nextStep c with
            | (c', Resolved _) => upgrade fuel' cfg (step_to nextStep) c'
            | (c', Rejected err) =>
                Some ({| schemaVersion := Some version; content := c' |}, Rejected err)
            end
        end
  end.

(** [upgradeDatabase]: a database without version document is at version 1. *)
Definition upgradeDatabase (fuel : nat) (cfg : IUpgradeConfig) (st : Store)
    : option (Store * Result unit) :=
  match schemaVersion st with
  | None => upgrade fuel cfg 1 (content st)
  | Some version => upgrade fuel cfg version (content st)
  end.

(** [config/dbMigration.ts], over the upgrade function [upgradeFrom1To2]. *)
Definition dbMigration (upgradeFrom1To2 : Content -> Content * Result unit)
    : IUpgradeConfig :=
  {| targetVersion := 2;
     steps := [ {| upgradeFunc := upgradeFrom1To2; step_from := 1; step_to := 2 |} ] |}.

(** Every step leads to a later version. *)
Definition steps_increase (cfg : IUpgradeConfig) : Prop :=
  Forall (fun step => step_from step < step_to step) (steps cfg).

(** The steps that start at version [v] or later. *)
Definition steps_ahead (cfg : IUpgradeConfig) (v : Z) : list IUpgradeStep :=
  filter (fun step => v <= step_from step) (steps cfg).

End Upgrade.

Arguments IUpgradeStep : clear implicits.
Arguments IUpgradeConfig : clear implicits.
Arguments Store : clear implicits.

(** [upgradeFrom1To2], the step from version 1 to 2:
    [User.updateMany({}, {$set: {activated: true}})], on the [activated]
    flags of the users. *)
Definition upgradeFrom1To2 (activated : gmap nat bool) : gmap nat bool * Result unit :=
  ((fun _ => true) <$> activated, Resolved tt).

(** ** Return locations: [routing/routerBase.ts] *)

(** The part of the session the routers use. *)
Record Session := mkSession { returnTo : option string }.

(** The parts of a request these functions read: the [referrer] header, the
    [returnTo] query parameter and the session, if there is one. *)
Record Request := mkRequest {
  header_referrer : option string;
  query_returnTo : option string;
  req_session : option Session
}.

(** JavaScript's truth of a string that may be undefined: defined and not
    empty. *)
Definition truthy (v : option string) : bool :=
  match v with
  | Some s => negb (bool_decide (s = ""))
  | None => false
  end.

Definition set_session (s : option Session) (req : Request) : Request :=
  {| header_referrer := header_referrer req; query_returnTo := query_returnTo req;
     req_session := s |}.

(** [storeReturnTo]. *)
Definition storeReturnTo (req : Request) : Request :=
  match req_session req with
  | Some _ =>
      if truthy (header_referrer req)
      then set_session (Some {| returnTo := header_referrer req |}) req
      else req
  | None => req
  end.

(** [redirectToLast]: the request as it leaves the function and the location
    of the redirect. *)
Definition redirectToLast (req : Request) : Request * string :=
  let stored :=
    match req_session req with
    | Some s =>
        if truthy (returnTo s)
        then (returnTo s, Some {| returnTo := None |})
        else (None, Some s)
    | None => (None, None)
    end in
  let redirectTo :=
    if truthy (query_returnTo req) then query_returnTo req
    else if negb (truthy (fst stored)) then header_referrer req
    else fst stored in
  (set_session (snd stored) req,
   if truthy redirectTo then default "/" redirectTo else "/").

(** ** Identities: [setOAuthProvider] and [authenticateFromProfile] *)

(** An element of [oAuthIds] in the user schema. *)
Record OAuthId := mkOAuthId { oauth_id : string; authType : string }.

#[global] Instance OAuthId_eq_dec : EqDecision OAuthId.
Proof. solve_decision. Defined.

(** A user document with its identity fields ([users/models], the schema
    beside [IUser]): names, e-mail and OAuth ids, and the balance and flag
    of [User]. *)
Record Account := mkAccount {
  firstName : string;
  lastName : string;
  email : string;
  oAuthIds : list OAuthId;
  account : User
}.

(** The users collection with its identity fields, in the order of
    insertion, which is the order in which [findOne] meets the documents. *)
Definition Accounts : Type := list (nat * Account).

Definition set_oAuthIds (ids : list OAuthId) (a : Account) : Account :=
  {| firstName := firstName a; lastName := lastName a; email := email a;
     oAuthIds := ids; account := account a |}.

(** ['oAuthIds.authType': provider], and its negation with [$nin]. *)
Definition has_provider (provider : string) (a : Account) : bool :=
  bool_decide (provider ∈ authType <$> oAuthIds a).

(** [oAuthIds: {$elemMatch: {id, authType}}]. *)
Definition matches_profile (providerName id : string) (a : Account) : bool :=
  bool_decide (mkOAuthId id providerName ∈ oAuthIds a).

(** [User.findOneAndUpdate({_id, ...filter}, update)]: the first document
    with that id that passes the filter is updated; the outcome is the
    document as it was, with the collection as it is now, or [null]. *)
Fixpoint findOneAndUpdate (id : ObjectId) (filter : Account -> bool)
    (update : Account -> Account) (l : Accounts) : option (Account * Accounts) :=
  match l with
  | [] => None
  | (k, a) :: rest =>
      if bool_decide (k = id) && filter a
      then Some (a, (k, update a) :: rest)
      else
        match findOneAndUpdate id filter update rest with
        | Some (found, rest') => Some (found, (k, a) :: rest')
        | None => None
        end
  end.

(** [{'oAuthIds.$.id': id}] under the filter ['oAuthIds.authType': provider]:
    the positional operator names the first element that matched. *)
Fixpoint set_first_id (provider id : string) (ids : list OAuthId) : list OAuthId :=
  match ids with
  | [] => []
  | x :: rest =>
      if bool_decide (authType x = provider)
      then mkOAuthId id (authType x) :: rest
      else x :: set_first_id provider id rest
  end.

(** The success message of [setOAuthProvider], with the names of the
    document the query returned. *)
Definition provider_set (provider : string) (user : Account) : Flash :=
  (success,
   "Set OAuth provider '" +:+ provider +:+ "' for "
     +:+ firstName user +:+ " " +:+ lastName user).

(** [setOAuthProvider]: push the pair when the user has no id of that
    provider, else overwrite the id of the provider's first entry. *)
Definition setOAuthProvider (uid : ObjectId) (provider id : string) (l : Accounts)
    : Accounts * list Flash :=
  match findOneAndUpdate uid (fun a => negb (has_provider provider a))
          (fun a => set_oAuthIds (oAuthIds a ++ [mkOAuthId id provider]) a) l with
  | Some (user, l') => (l', [provider_set provider user])
  | None =>
      match findOneAndUpdate uid (has_provider provider)
              (fun a => set_oAuthIds (set_first_id provider id (oAuthIds a)) a) l with
      | Some (user, l') => (l', [provider_set provider user])
      | None => (l, [(error, "Failed to set OAuth provider information")])
      end
  end.

(** [IOAuthUser] of [auth/entities/oauth.ts]. *)
Record IOAuthUser := mkOAuthUser {
  profile_id : string;
  profile_firstName : string;
  profile_lastName : string;
  profile_email : string
}.

(** The schema's [required: true] on a string path: the value is there and
    is not empty. *)
Definition required (s : string) : bool := negb (bool_decide (s = "")).

(** The document [new User({oAuthIds, firstName, lastName, email})] with the
    schema's defaults: no coins, not enabled. *)
Definition new_account (providerName : string) (u : IOAuthUser) : Account :=
  {| firstName := profile_firstName u; lastName := profile_lastName u;
     email := profile_email u;
     oAuthIds := [mkOAuthId (profile_id u) providerName];
     account := {| coins := 0; enabled := false |} |}.

(** [authenticateFromProfile], after [provider.parseProfile]: the user the
    strategy hands to [done], or the error. *)
Definition authenticateFromProfile (providerName : string) (u : IOAuthUser)
    (l : Accounts) : Accounts * Result ObjectId :=
  match List.find (fun x => matches_profile providerName (profile_id u) (snd x)) l with
  | Some (k, _) => (l, Resolved k)
  | None =>
      if required (profile_firstName u) && required (profile_lastName u)
         && required (profile_email u)
      then
        let k := fresh (list_to_set (fst <$> l) : gset nat) in
        (l ++ [(k, new_account providerName u)], Resolved k)
      else (l, Rejected "User validation failed")
  end.

(** [GithubOAuthProvider.parseProfile] of
    [auth/providers/githubOAuthProvider.ts]. *)

(** [s.split(' ')]. *)
Fixpoint split_space (s : string) : list string :=
  match s with
  | EmptyString => [""]
  | String c rest =>
      if bool_decide (c = Ascii.Space) then "" :: split_space rest
      else
        match split_space rest with
        | piece :: pieces => String c piece :: pieces
        | [] => [String c ""]
        end
  end.

Fixpoint has_space (s : string) : bool :=
  match s with
  | EmptyString => false
  | String c rest => bool_decide (c = Ascii.Space) || has_space rest
  end.

(** The fields of a GitHub profile the function reads. *)
Record GithubProfile := mkGithubProfile {
  gh_id : string;
  displayName : string;
  emails : option (list string)
}.

Definition parseProfile (profile : GithubProfile) : IOAuthUser :=
  let names := split_space (displayName profile) in
  (* while (names.length < 2) names.push('Unknown') *)
  let names :=
    match names with
    | [] => ["Unknown"; "Unknown"]
    | [one] => [one; "Unknown"]
    | _ => names
    end in
  {| profile_id := gh_id profile;
     profile_firstName := default "" (names !! 0%nat);
     profile_lastName := default "" (names !! 1%nat);
     profile_email :=
       match emails profile with
       | Some (profileEmail :: _) => profileEmail
       | _ => ""
       end |}.

(** The collection with the document [uid] replaced by its update. *)
Definition update_at (uid : ObjectId) (g : Account -> Account) (l : Accounts)
    : Accounts :=
  (fun x => if bool_decide (fst x = uid) then (fst x, g (snd x)) else x) <$> l.

(** The first OAuth id a user has for a provider. *)
Definition id_for (provider : string) (a : Account) : option OAuthId :=
  List.find (fun x => bool_decide (authType x = provider)) (oAuthIds a).

(** The OAuth ids a user has for the other providers. *)
Definition ids_of_others (provider : string) (a : Account) : list OAuthId :=
  filter (fun x => authType x <> provider) (oAuthIds a).

(** * Properties *)

(** ** Numbers *)

Lemma to_double_exact z : - 2 ^ 53 <= z <= 2 ^ 53 -> to_double z = z.
Proof.
  intros H. unfold to_double.
  destruct (Z.leb_spec (Z.abs z) (2 ^ 53)) as [_|Hgt]; [reflexivity | lia].
Qed.

Lemma to_double_safe z : safe z -> to_double z = z.
Proof.
  unfold safe, MAX_SAFE_INTEGER. intros H. apply to_double_exact. lia.
Qed.

Lemma to_double_opp z : to_double (- z) = - to_double z.
Proof.
  unfold to_double. rewrite Z.abs_opp, Z.sgn_opp.
  destruct (Z.abs z <=? 2 ^ 53); [reflexivity | lia].
Qed.

(** Beyond [2^53] a double is [q * 2^e] with [2^52 <= q <= 2^53] and
    [1 <= e]. *)
Lemma to_double_large z :
  2 ^ 53 < Z.abs z ->
  exists q e, 1 <= e /\ 2 ^ 52 <= q <= 2 ^ 53 /\ to_double z = Z.sgn z * (q * 2 ^ e).
Proof.
  intros Hgt. unfold to_double.
  destruct (Z.leb_spec (Z.abs z) (2 ^ 53)) as [Hle|_]; [lia|].
  set (a := Z.abs z) in *.
  assert (Hpos : 0 < a) by lia.
  pose proof (Z.log2_spec a Hpos) as [Hlo Hhi].
  assert (Hlog : 53 <= Z.log2 a).
  { apply Z.log2_le_pow2; lia. }
  set (e := Z.log2 a - 52) in *.
  assert (He : 1 <= e) by lia.
  assert (Hpow : 0 < 2 ^ e) by (apply Z.pow_pos_nonneg; lia).
  assert (Hsplit : 2 ^ Z.log2 a = 2 ^ 52 * 2 ^ e).
  { rewrite <- Z.pow_add_r by lia. f_equal. lia. }
  assert (Hsplit' : 2 ^ Z.succ (Z.log2 a) = 2 ^ 53 * 2 ^ e).
  { rewrite <- Z.pow_add_r by lia. f_equal. lia. }
  assert (Hq : 2 ^ 52 <= a / 2 ^ e < 2 ^ 53).
  { split.
    - apply Z.div_le_lower_bound; lia.
    - apply Z.div_lt_upper_bound; lia. }
  eexists _, e. split; [exact He|]. split; [|reflexivity].
  destruct ((a mod 2 ^ e <? 2 ^ (e - 1)) ||
            ((a mod 2 ^ e =? 2 ^ (e - 1)) && Z.even (a / 2 ^ e))); lia.
Qed.

(** A safe integer is the double of itself only. *)
Lemma to_double_safe_inv z : safe (to_double z) -> to_double z = z.
Proof.
  intros Hs. destruct (Z.le_gt_cases (Z.abs z) (2 ^ 53)) as [Hle|Hgt].
  - apply to_double_exact. lia.
  - exfalso. destruct (to_double_large z Hgt) as (q & e & He & Hq & Heq).
    rewrite Heq in Hs. unfold safe, MAX_SAFE_INTEGER in Hs.
    assert (H2 : 2 <= 2 ^ e).
    { change 2 with (2 ^ 1) at 1. apply Z.pow_le_mono_r; lia. }
    assert (Hbig : 2 ^ 53 <= q * 2 ^ e) by nia.
    destruct (Z.sgn_spec z) as [[_ Hsg]|[[Hz _]|[_ Hsg]]]; [| lia |];
      rewrite Hsg in Hs; lia.
Qed.

(** A double is its own double. *)
Lemma to_double_idem z : to_double (to_double z) = to_double z.
Proof.
  destruct (Z.le_gt_cases (Z.abs z) (2 ^ 53)) as [Hle|Hgt].
  - rewrite !(to_double_exact z) by lia. reflexivity.
  - destruct (to_double_large z Hgt) as (q & e & He & Hq & Heq).
    rewrite Heq.
    assert (Hpow : 0 < 2 ^ e) by (apply Z.pow_pos_nonneg; lia).
    assert (Hv : 0 < q * 2 ^ e) by nia.
    assert (Hrep : to_double (q * 2 ^ e) = q * 2 ^ e).
    { destruct (Z.le_gt_cases (q * 2 ^ e) (2 ^ 53)) as [Hsmall|Hbig].
      - apply to_double_exact. lia.
      - unfold to_double. rewrite (Z.abs_eq (q * 2 ^ e)) by lia.
        destruct (Z.leb_spec (q * 2 ^ e) (2 ^ 53)) as [|_]; [lia|].
        rewrite (Z.sgn_pos _ Hv), Z.mul_1_l.
        destruct (Z.eq_dec q (2 ^ 53)) as [->|Hne].
        + assert (Hprod : 2 ^ 53 * 2 ^ e = 2 ^ (53 + e)).
          { rewrite Z.pow_add_r by lia. reflexivity. }
          rewrite Hprod. rewrite Z.log2_pow2 by lia.
          replace (53 + e - 52) with (e + 1) by lia.
          replace (e + 1 - 1) with e by lia.
          assert (Hdiv : 2 ^ (53 + e) = 2 ^ 52 * 2 ^ (e + 1)).
          { rewrite <- Z.pow_add_r by lia. f_equal. lia. }
          rewrite Hdiv.
          rewrite Z.div_mul by lia.
          rewrite Z.mod_mul by lia.
          destruct (Z.ltb_spec 0 (2 ^ e)) as [_|]; [|lia]. reflexivity.
        + assert (Hlog : Z.log2 (q * 2 ^ e) = 52 + e).
          { rewrite Z.log2_mul_pow2 by lia.
            assert (Z.log2 q = 52); [|lia].
            apply Z.log2_unique; lia. }
          rewrite Hlog. replace (52 + e - 52) with e by lia.
          rewrite Z.div_mul by lia.
          rewrite Z.mod_mul by lia.
          assert (0 < 2 ^ (e - 1)) by (apply Z.pow_pos_nonneg; lia).
          destruct (Z.ltb_spec 0 (2 ^ (e - 1))) as [_|]; [|lia]. reflexivity. }
    destruct (Z.sgn_spec z) as [[_ Hsg]|[[_ Hsg]|[_ Hsg]]]; rewrite Hsg.
    + rewrite Z.mul_1_l. exact Hrep.
    + reflexivity.
    + replace (-1 * (q * 2 ^ e)) with (- (q * 2 ^ e)) by lia.
      rewrite to_double_opp, Hrep. reflexivity.
Qed.

(** [a + -1 * x] and [a - x] are the same double, for a double [x]. *)
Lemma num_add_opp_double a z :
  num_add a (num_mul (-1) (toNumber z)) = num_sub a (toNumber z).
Proof.
  unfold num_add, num_sub, num_mul, toNumber.
  replace (-1 * to_double z) with (- to_double z) by lia.
  rewrite to_double_opp, to_double_idem. reflexivity.
Qed.

(** [-1 * x] of a double [x] is [- x]. *)
Lemma num_mul_opp_double z : num_mul (-1) (to_double z) = - to_double z.
Proof.
  unfold num_mul. replace (-1 * to_double z) with (- to_double z) by lia.
  rewrite to_double_opp, to_double_idem. reflexivity.
Qed.

Lemma safe_opp z : safe z -> safe (- z).
Proof. unfold safe. lia. Qed.

(** Rounding keeps a number on its side of 1. *)
Lemma to_double_positive z : 1 <= to_double z <-> 1 <= z.
Proof.
  destruct (Z.le_gt_cases (Z.abs z) (2 ^ 53)) as [Hle|Hgt].
  - rewrite (to_double_exact z) by lia. reflexivity.
  - destruct (to_double_large z Hgt) as (q & e & He & Hq & ->).
    assert (Hpow : 0 < 2 ^ e) by (apply Z.pow_pos_nonneg; lia).
    assert (Hv : 0 < q * 2 ^ e) by nia.
    destruct (Z.sgn_spec z) as [[Hz Hsg]|[[Hz Hsg]|[Hz Hsg]]]; rewrite Hsg; lia.
Qed.

(** ** Promise chains *)

Lemma andThen_resolved {A B} (c : Tx A) (k : A -> Tx B) w w' b :
  andThen c k w = (w', Resolved b) ->
  exists w1 a, c w = (w1, Resolved a) /\ k a w1 = (w', Resolved b).
Proof.
  unfold andThen. destruct (c w) as [w1 [a|err]] eqn:E; intros H.
  - exists w1, a. split; [reflexivity | exact H].
  - discriminate H.
Qed.

Lemma storage_resolved f c w w' u :
  storage f c w = (w', Resolved u) -> f c = false /\ w' = w.
Proof.
  unfold storage. destruct (f c); intros H; inversion H; auto.
Qed.

Lemma storage_ok f c w : f c = false -> storage f c w = (w, Resolved tt).
Proof. unfold storage. intros ->. reflexivity. Qed.

Lemma resolve_resolved {A} (a b : A) w w' :
  resolve a w = (w', Resolved b) -> w' = w /\ b = a.
Proof. unfold resolve. intros H. inversion H. auto. Qed.

(** Inverts the hypothesis [H], a chain that resolved: [H1] is its first
    stage, [H] becomes the rest. *)
Tactic Notation "chain_inv" hyp(H) "as" ident(H1) :=
  let w1 := fresh "w" in
  let a := fresh "a" in
  apply andThen_resolved in H; destruct H as (w1 & a & H1 & H).

Lemma User_save_resolved f d w w' u :
  User_save f d w = (w', Resolved u) ->
  f (CallSaveUser (doc_id d)) = false /\
  is_Some (users w !! doc_id d) /\
  w' = set_users (alter (set_coins (coins (doc_user d))) (doc_id d) (users w)) w.
Proof.
  unfold User_save. intros H. chain_inv H as Hs.
  apply storage_resolved in Hs as [Hf ->].
  destruct (users w !! doc_id d) as [x|] eqn:E; [|discriminate H].
  inversion H; subst. repeat split; auto.
  f_equal. apply map_eq. intros i. rewrite lookup_alter.
  case_decide.
  - subst i. rewrite lookup_insert_eq, E. reflexivity.
  - rewrite lookup_insert_ne by congruence. reflexivity.
Qed.

Lemma User_save_ok f d w :
  f (CallSaveUser (doc_id d)) = false ->
  is_Some (users w !! doc_id d) ->
  User_save f d w =
    (set_users (alter (set_coins (coins (doc_user d))) (doc_id d) (users w)) w,
     Resolved tt).
Proof.
  intros Hf [x E]. unfold User_save, andThen. rewrite storage_ok by exact Hf.
  rewrite E. f_equal. f_equal. apply map_eq. intros i. rewrite lookup_alter.
  case_decide.
  - subst i. rewrite lookup_insert_eq, E. reflexivity.
  - rewrite lookup_insert_ne by congruence. reflexivity.
Qed.

(** ** The debits of a settlement *)

Lemma debit_participants_resolved f p c l : forall w w' l',
  debit_participants f p c l w = (w', Resolved l') ->
  w' = set_users (debit_users p c l (users w)) w /\
  l' = debited p c <$> l /\
  Forall (fun pu => not_purchaser p pu = true ->
            exists d, pu_user pu = Some d /\ f (CallSaveUser (doc_id d)) = false) l.
Proof.
  induction l as [|pu rest IH]; intros w w' l' H; simpl in *.
  - apply resolve_resolved in H as [-> ->]. destruct w; auto.
  - unfold debited at 1. destruct (not_purchaser p pu) eqn:Enp.
    + destruct (pu_user pu) as [d|] eqn:Ed; [|discriminate H].
      chain_inv H as Hs. apply User_save_resolved in Hs as (Hf & _ & ->).
      chain_inv H as Hr. apply IH in Hr as (-> & -> & HF).
      apply resolve_resolved in H as [-> ->]. simpl.
      split; [reflexivity|]. split; [reflexivity|].
      constructor; [intros _; exists d; auto | exact HF].
    + chain_inv H as Hr. apply IH in Hr as (-> & -> & HF).
      apply resolve_resolved in H as [-> ->].
      split; [reflexivity|]. split; [reflexivity|].
      constructor; [intros Hc; rewrite Enp in Hc; discriminate Hc | exact HF].
Qed.

Lemma debit_participants_ok f p c l : forall w,
  Forall (fun pu => not_purchaser p pu = true ->
            exists d, pu_user pu = Some d /\ f (CallSaveUser (doc_id d)) = false /\
                      is_Some (users w !! doc_id d)) l ->
  debit_participants f p c l w =
    (set_users (debit_users p c l (users w)) w, Resolved (debited p c <$> l)).
Proof.
  induction l as [|pu rest IH]; intros w HF; simpl.
  - unfold resolve. destruct w; reflexivity.
  - inversion HF as [|? ? Hpu Hrest]; subst.
    unfold debited at 1. destruct (not_purchaser p pu) eqn:Enp.
    + destruct (Hpu eq_refl) as (d & Ed & Hf & Hd). rewrite Ed.
      unfold andThen at 1. rewrite User_save_ok; [|exact Hf|exact Hd].
      unfold andThen. simpl. rewrite IH.
      * reflexivity.
      * eapply Forall_impl; [exact Hrest|]. simpl.
        intros pu' Hpu' Hnp. destruct (Hpu' Hnp) as (d' & Ed' & Hf' & Hd').
        exists d'. split; [exact Ed'|]. split; [exact Hf'|].
        rewrite lookup_alter. case_decide as Heq; [|exact Hd'].
        rewrite fmap_is_Some, Heq. exact Hd'.
    + unfold andThen. rewrite IH by exact Hrest. reflexivity.
Qed.

(** A user who is not debited keeps the stored document. *)
Lemma debit_users_other p c l : forall m i,
  (forall pu d, pu ∈ l -> not_purchaser p pu = true -> pu_user pu = Some d ->
     doc_id d <> i) ->
  debit_users p c l m !! i = m !! i.
Proof.
  induction l as [|pu rest IH]; intros m i Hi; simpl; [reflexivity|].
  destruct (not_purchaser p pu) eqn:Enp.
  - destruct (pu_user pu) as [d|] eqn:Ed; [|reflexivity].
    rewrite IH.
    + rewrite lookup_alter_ne; [reflexivity|].
      eapply Hi; [left | exact Enp | exact Ed].
    + intros pu' d' Hin. apply Hi. right. exact Hin.
  - apply IH. intros pu' d' Hin. apply Hi. right. exact Hin.
Qed.

(** A debited user's stored balance is the populated balance minus the
    cost, when no other participant entry refers to the same user. *)
Lemma debit_users_debited p c l : forall m pu d,
  NoDup (pu_ref <$> l) ->
  (forall pu' d', pu' ∈ l -> pu_user pu' = Some d' -> doc_id d' = pu_ref pu') ->
  (forall pu', pu' ∈ l -> not_purchaser p pu' = true -> is_Some (pu_user pu')) ->
  pu ∈ l -> not_purchaser p pu = true -> pu_user pu = Some d ->
  debit_users p c l m !! doc_id d =
    set_coins (num_sub (coins (doc_user d)) c) <$> m !! doc_id d.
Proof.
  induction l as [|pu0 rest IH]; intros m pu d Hnd Href Hres Hin Hnp Hd.
  - inversion Hin.
  - simpl in Hnd. apply NoDup_cons in Hnd as [Hnotin Hnd].
    assert (Href' : forall pu' d', pu' ∈ rest -> pu_user pu' = Some d' ->
                      doc_id d' = pu_ref pu').
    { intros pu' d' Hin'. apply Href. right. exact Hin'. }
    assert (Hres' : forall pu', pu' ∈ rest -> not_purchaser p pu' = true ->
                      is_Some (pu_user pu')).
    { intros pu' Hin'. apply Hres. right. exact Hin'. }
    apply elem_of_cons in Hin as [->|Hin]; simpl.
    + rewrite Hnp, Hd. rewrite debit_users_other.
      * rewrite lookup_alter_eq. reflexivity.
      * intros pu' d' Hin' _ Hd' Heq. apply Hnotin.
        assert (E0 : doc_id d = pu_ref pu0) by (apply Href; [left | exact Hd]).
        rewrite <- E0, <- Heq, (Href' pu' d' Hin' Hd').
        apply list_elem_of_fmap. exists pu'. split; [reflexivity | exact Hin'].
    + destruct (not_purchaser p pu0) eqn:Enp0.
      * destruct (Hres pu0) as [d0 Ed0]; [left | exact Enp0 |]. rewrite Ed0.
        rewrite (IH _ pu d Hnd Href' Hres' Hin Hnp Hd).
        rewrite lookup_alter_ne; [reflexivity|].
        intros Heq. apply Hnotin.
        assert (E0 : doc_id d0 = pu_ref pu0) by (apply Href; [left | exact Ed0]).
        rewrite <- E0, Heq, (Href' pu d Hin Hd).
        apply list_elem_of_fmap. exists pu. split; [reflexivity | exact Hin].
      * apply (IH _ pu d Hnd Href' Hres' Hin Hnp Hd).
Qed.

(** ** Populated participants *)

Lemma populate_resolved d uo u :
  users d !! uo_user uo = Some u ->
  pu_user (populate d uo) = Some (mkUserDoc (uo_user uo) u).
Proof. unfold populate. simpl. intros ->. reflexivity. Qed.

Lemma not_purchaser_populated d p u uo u' :
  users d !! uo_user uo = Some u' ->
  not_purchaser (mkUserDoc p u) (populate d uo) = bool_decide (uo_user uo <> p).
Proof.
  intros H. unfold not_purchaser. rewrite (populate_resolved _ _ _ H). simpl.
  destruct (decide (p = uo_user uo)) as [->|Hne].
  - rewrite bool_decide_eq_true_2 by reflexivity.
    rewrite bool_decide_eq_false_2 by (intros Hc; apply Hc; reflexivity).
    reflexivity.
  - rewrite bool_decide_eq_false_2 by exact Hne.
    rewrite bool_decide_eq_true_2 by congruence. reflexivity.
Qed.

Lemma not_purchaser_debited p c pu :
  not_purchaser p (debited p c pu) = not_purchaser p pu.
Proof.
  unfold debited. destruct (not_purchaser p pu) eqn:E; [|exact E].
  unfold not_purchaser in *. simpl. destruct (pu_user pu); exact E.
Qed.

Lemma debtors_cons p uo l :
  debtors p (uo :: l) =
    if bool_decide (uo_user uo <> p) then uo_user uo :: debtors p l else debtors p l.
Proof.
  unfold debtors. simpl. rewrite filter_cons.
  destruct (decide (uo_user uo <> p)) as [H|H].
  - rewrite bool_decide_eq_true_2 by exact H. reflexivity.
  - rewrite bool_decide_eq_false_2 by exact H. reflexivity.
Qed.

Lemma elem_of_debtors p l uid :
  uid ∈ debtors p l <-> uid ∈ uo_user <$> l /\ uid <> p.
Proof. unfold debtors. rewrite list_elem_of_filter. tauto. Qed.

(** The ledger entries of the debited participants. *)
Lemma participant_entries_debited d p u c uos :
  Forall (fun uid => is_Some (users d !! uid)) (uo_user <$> uos) ->
  participant_entries c
    (filter (fun pu => not_purchaser (mkUserDoc p u) pu = true)
       (debited (mkUserDoc p u) c <$> (populate d <$> uos))) =
  Resolved (debtor_entry d c <$> debtors p uos).
Proof.
  induction uos as [|uo rest IH]; intros HF; [reflexivity|].
  simpl in HF. apply Forall_cons in HF as [[u' Hu'] HF].
  rewrite !fmap_cons, filter_cons, debtors_cons.
  rewrite not_purchaser_debited.
  rewrite (not_purchaser_populated _ _ _ _ _ Hu').
  destruct (decide (uo_user uo <> p)) as [Hne|Heq].
  - rewrite bool_decide_eq_true_2 by exact Hne.
    rewrite decide_True by reflexivity.
    simpl. rewrite (IH HF).
    unfold debited. rewrite (not_purchaser_populated _ _ _ _ _ Hu').
    rewrite bool_decide_eq_true_2 by exact Hne.
    unfold participant_entry. simpl. rewrite Hu'. simpl.
    unfold debtor_entry, balance. rewrite Hu'. reflexivity.
  - rewrite bool_decide_eq_false_2 by exact Heq.
    rewrite decide_False by discriminate.
    apply (IH HF).
Qed.

(** The participant list of the audit. *)
Lemma audit_participants d p u c uos :
  Forall (fun uid => is_Some (users d !! uid)) (uo_user <$> uos) ->
  (fun pu => doc_id <$> pu_user pu) <$>
    (debited (mkUserDoc p u) c <$> (populate d <$> uos)) =
  Some <$> (uo_user <$> uos).
Proof.
  induction uos as [|uo rest IH]; intros HF; [reflexivity|].
  simpl in HF. apply Forall_cons in HF as [[u' Hu'] HF].
  rewrite !fmap_cons, (IH HF). f_equal.
  unfold debited. destruct (not_purchaser _ _); simpl; rewrite Hu'; reflexivity.
Qed.

(** The condition under which [debit_participants] saves every debtor. *)
Lemma debit_condition f d p u o (m : gmap nat User) :
  participants_resolve d o ->
  (forall uid, uid <> p -> m !! uid = users d !! uid) ->
  Forall (fun c => f c = false) (CallSaveUser <$> debtors p (userOrders o)) ->
  Forall (fun pu => not_purchaser (mkUserDoc p u) pu = true ->
            exists doc, pu_user pu = Some doc /\ f (CallSaveUser (doc_id doc)) = false /\
                        is_Some (m !! doc_id doc))
         (populate d <$> userOrders o).
Proof.
  unfold participants_resolve. intros HR Hm Hf.
  rewrite Forall_forall in HR. rewrite Forall_forall in Hf. apply Forall_forall.
  intros pu Hin Hnp. apply list_elem_of_fmap in Hin as (uo & -> & Hin).
  assert (Huid : uo_user uo ∈ uo_user <$> userOrders o).
  { apply list_elem_of_fmap. exists uo. auto. }
  destruct (HR _ Huid) as [u' Hu'].
  rewrite (not_purchaser_populated _ _ _ _ _ Hu') in Hnp.
  apply bool_decide_eq_true_1 in Hnp.
  exists (mkUserDoc (uo_user uo) u'). simpl.
  split; [apply populate_resolved; exact Hu'|].
  split.
  - apply Hf. apply list_elem_of_fmap. exists (uo_user uo). split; [reflexivity|].
    apply elem_of_debtors. auto.
  - rewrite Hm by exact Hnp. eauto.
Qed.

(** ** The settlement chain *)

(** When the order is [Closed], the purchaser and the participants resolve
    and no storage call throws, the chain commits [settled]. *)
Lemma logOrder_chain_ok f now id p d o u :
  orders d !! id = Some o ->
  state o = Closed ->
  users d !! p = Some u ->
  participants_resolve d o ->
  Forall (fun c => f c = false) (settlement_calls p o) ->
  logOrder_chain f now id p d =
    (settled now id p o u d, Resolved (settlement_transaction now d p u o)).
Proof.
  intros Ho Hst Hu HR Hf.
  unfold settlement_calls in Hf.
  apply Forall_app in Hf as [Hf1 Hf]. apply Forall_app in Hf as [Hf2 Hf3].
  apply Forall_cons in Hf1 as [Hfind Hf1]. apply Forall_cons in Hf1 as [Hupd _].
  apply Forall_cons in Hf3 as [Hsave Hf3]. apply Forall_cons in Hf3 as [Haud Hf3].
  apply Forall_cons in Hf3 as [Hcre Hf3]. apply Forall_cons in Hf3 as [Hcom _].
  unfold logOrder_chain, Order_findOne_populated.
  unfold andThen at 1. unfold andThen at 1. rewrite (storage_ok _ _ _ Hfind).
  rewrite Ho, Hst. rewrite bool_decide_eq_true_2 by reflexivity.
  unfold User_findByIdAndUpdate_inc.
  unfold andThen at 1. unfold andThen at 1. rewrite (storage_ok _ _ _ Hupd).
  rewrite Hu. rewrite length_fmap.
  unfold andThen at 1.
  rewrite (debit_participants_ok f (mkUserDoc p u) (cost o)).
  2:{ apply (debit_condition f d p u o); [exact HR | | exact Hf2].
      intros uid Hne. simpl. apply lookup_insert_ne. congruence. }
  unfold Order_save. unfold andThen at 1. unfold andThen at 1.
  rewrite (storage_ok _ _ _ Hsave).
  unfold audit. unfold andThen at 1. unfold andThen at 1.
  rewrite (storage_ok _ _ _ Haud).
  unfold andThen at 1. unfold lift.
  rewrite (participant_entries_debited d p u (cost o) (userOrders o) HR).
  rewrite (audit_participants d p u (cost o) (userOrders o) HR).
  unfold Transaction_create. unfold andThen at 1. unfold andThen at 1.
  rewrite (storage_ok _ _ _ Hcre).
  unfold commitTransaction. unfold andThen at 1.
  rewrite (storage_ok _ _ _ Hcom).
  reflexivity.
Qed.

(** Conversely, a chain that resolved found all of this. *)
Lemma logOrder_chain_conditions f now id p d w t :
  logOrder_chain f now id p d = (w, Resolved t) ->
  exists o u,
    orders d !! id = Some o /\ state o = Closed /\ users d !! p = Some u /\
    participants_resolve d o /\
    Forall (fun c => f c = false) (settlement_calls p o).
Proof.
  unfold logOrder_chain. intros H.
  chain_inv H as Hfound. unfold Order_findOne_populated in Hfound.
  chain_inv Hfound as Hs1. apply storage_resolved in Hs1 as [Hfind ->].
  destruct (orders d !! id) as [o|] eqn:Ho; [|inversion Hfound; subst; discriminate H].
  destruct (bool_decide (state o = Closed)) eqn:Hst;
    [|inversion Hfound; subst; discriminate H].
  apply bool_decide_eq_true_1 in Hst.
  inversion Hfound; subst w0 a; clear Hfound.
  chain_inv H as Hp. unfold User_findByIdAndUpdate_inc in Hp.
  chain_inv Hp as Hs2. apply storage_resolved in Hs2 as [Hupd ->].
  destruct (users d !! p) as [u|] eqn:Hu; [|inversion Hp; subst; discriminate H].
  inversion Hp; subst w0 a; clear Hp.
  chain_inv H as Hdeb. apply debit_participants_resolved in Hdeb as (-> & -> & HF).
  chain_inv H as Hos. unfold Order_save in Hos. chain_inv Hos as Hs3.
  apply storage_resolved in Hs3 as [Hsave _].
  chain_inv H as Hau. unfold audit in Hau. chain_inv Hau as Hs4.
  apply storage_resolved in Hs4 as [Haud _].
  chain_inv H as Hes. chain_inv H as Htc. unfold Transaction_create in Htc.
  chain_inv Htc as Hs5. apply storage_resolved in Hs5 as [Hcre _].
  chain_inv H as Hct. unfold commitTransaction in Hct.
  apply storage_resolved in Hct as [Hcom _].
  exists o, u. repeat (split; [solve [auto]|]).
  rewrite Forall_forall in HF.
  assert (HR : participants_resolve d o).
  { apply Forall_forall. intros uid Hin.
    apply list_elem_of_fmap in Hin as (uo & -> & Hin).
    destruct (users d !! uo_user uo) as [u'|] eqn:Hu'; [eauto|].
    destruct (HF (populate d uo)) as (doc & Hdoc & _).
    - apply list_elem_of_fmap. exists uo. auto.
    - unfold not_purchaser, populate. simpl. rewrite Hu'. reflexivity.
    - unfold populate in Hdoc. simpl in Hdoc. rewrite Hu' in Hdoc. discriminate Hdoc. }
  split; [exact HR|].
  unfold settlement_calls.
  repeat (apply Forall_app; split); repeat (apply Forall_cons; split);
    try apply Forall_nil; auto.
  apply Forall_forall. intros c Hin.
  apply list_elem_of_fmap in Hin as (uid & -> & Hin).
  apply elem_of_debtors in Hin as [Hin Hne].
  apply list_elem_of_fmap in Hin as (uo & -> & Hin).
  unfold participants_resolve in HR. rewrite Forall_forall in HR.
  destruct (HR (uo_user uo)) as [u' Hu'].
  { apply list_elem_of_fmap. exists uo. auto. }
  destruct (HF (populate d uo)) as (doc & Hdoc & Hf).
  - apply list_elem_of_fmap. exists uo. auto.
  - rewrite (not_purchaser_populated _ _ _ _ _ Hu').
    apply bool_decide_eq_true_2. exact Hne.
  - rewrite (populate_resolved _ _ _ Hu') in Hdoc. inversion Hdoc; subst doc.
    exact Hf.
Qed.

Lemma logOrder_chain_resolved f now id p d w t :
  logOrder_chain f now id p d = (w, Resolved t) ->
  exists o u,
    orders d !! id = Some o /\ state o = Closed /\ users d !! p = Some u /\
    participants_resolve d o /\
    w = settled now id p o u d /\ t = settlement_transaction now d p u o.
Proof.
  intros H.
  destruct (logOrder_chain_conditions _ _ _ _ _ _ _ H) as (o & u & Ho & Hst & Hu & HR & Hf).
  rewrite (logOrder_chain_ok f now id p d o u Ho Hst Hu HR Hf) in H.
  inversion H; subst. exists o, u. auto 10.
Qed.

(** ** Balances after a settlement *)

Lemma settled_purchaser now id p o u d :
  users (settled now id p o u d) !! p =
    Some (set_coins (num_add (coins u) (settlement_credit o)) u).
Proof.
  unfold settled. simpl. rewrite debit_users_other.
  - apply lookup_insert_eq.
  - intros pu doc _ Hnp Hdoc Heq.
    unfold not_purchaser, equals in Hnp. rewrite Hdoc in Hnp. simpl in Hnp.
    rewrite bool_decide_eq_true_2 in Hnp by congruence. discriminate Hnp.
Qed.

Lemma settled_debtor now id p o u d uid u' :
  NoDup (uo_user <$> userOrders o) ->
  participants_resolve d o ->
  uid ∈ debtors p (userOrders o) ->
  users d !! uid = Some u' ->
  users (settled now id p o u d) !! uid =
    Some (set_coins (num_sub (coins u') (cost o)) u').
Proof.
  intros Hnd HR Hin Hu'. unfold settled. simpl.
  apply elem_of_debtors in Hin as [Hin Hne].
  apply list_elem_of_fmap in Hin as (uo & -> & Hin).
  unfold participants_resolve in HR. rewrite Forall_forall in HR.
  pose proof (debit_users_debited (mkUserDoc p u) (cost o)
                (populate d <$> userOrders o)
                (<[p := set_coins (num_add (coins u) (settlement_credit o)) u]> (users d))
                (populate d uo) (mkUserDoc (uo_user uo) u')) as Hdeb.
  simpl in Hdeb. rewrite Hdeb; clear Hdeb.
  - rewrite lookup_insert_ne by congruence. rewrite Hu'. reflexivity.
  - rewrite <- list_fmap_compose.
    erewrite list_fmap_ext; [exact Hnd|]. intros ? x _. reflexivity.
  - intros pu' d' Hin' Hd'. apply list_elem_of_fmap in Hin' as (uo' & -> & _).
    unfold populate in *. simpl in *.
    destruct (users d !! uo_user uo'); inversion Hd'. reflexivity.
  - intros pu' Hin' _. apply list_elem_of_fmap in Hin' as (uo' & -> & Hin').
    destruct (HR (uo_user uo')) as [x Hx].
    + apply list_elem_of_fmap. exists uo'. auto.
    + rewrite (populate_resolved _ _ _ Hx). eauto.
  - apply list_elem_of_fmap. exists uo. auto.
  - rewrite (not_purchaser_populated _ _ _ _ _ Hu').
    apply bool_decide_eq_true_2. exact Hne.
  - apply populate_resolved. exact Hu'.
Qed.

Lemma settled_bystander now id p o u d uid :
  uid <> p -> uid ∉ (uo_user <$> userOrders o) ->
  users (settled now id p o u d) !! uid = users d !! uid.
Proof.
  intros Hne Hnotin. unfold settled. simpl. rewrite debit_users_other.
  - apply lookup_insert_ne. congruence.
  - intros pu doc Hin _ Hdoc Heq. apply Hnotin.
    apply list_elem_of_fmap in Hin as (uo & -> & Hin).
    apply list_elem_of_fmap. exists uo. split; [|exact Hin].
    unfold populate in Hdoc. simpl in Hdoc.
    destruct (users d !! uo_user uo); inversion Hdoc as [Hd].
    rewrite <- Hd in Heq. simpl in Heq. congruence.
Qed.

(** ** [logOrder]: success and failure *)

Lemma logOrder_success f now id p d d' fl :
  logOrder f now id p d = (d', fl) ->
  flashed success fl = true ->
  exists t, logOrder_chain f now id p d = (d', Resolved t).
Proof.
  unfold logOrder.
  destruct (logOrder_chain f now id p d) as [w [t|err]]; intros H Hfl.
  - exists t. destruct (f CallReload); inversion H; reflexivity.
  - inversion H; subst. discriminate Hfl.
Qed.

Lemma logOrder_failure f now id p d d' fl :
  logOrder f now id p d = (d', fl) ->
  flashed success fl = false ->
  d' = d /\ fl = [(error, "Failed to log order")].
Proof.
  unfold logOrder.
  destruct (logOrder_chain f now id p d) as [w [t|err]]; intros H Hfl.
  - destruct (f CallReload); inversion H; subst; discriminate Hfl.
  - inversion H; auto.
Qed.

(** ** Settlements within the safe integers *)

Lemma settlement_credit_safe d p o :
  safe_settlement d p o ->
  settlement_credit o = cost o * (Z.of_nat (length (userOrders o)) - 1).
Proof.
  intros (Hc & _ & _). unfold settlement_credit, num_mul. apply to_double_safe, Hc.
Qed.

Lemma delta_debtor_entry d c uid b :
  balance d uid = Some b -> safe b -> safe (b - c) ->
  delta (debtor_entry d c uid) = - c.
Proof.
  intros Hb H1 H2. unfold delta, debtor_entry. simpl. rewrite Hb. simpl.
  unfold num_add, num_sub. rewrite (to_double_safe (b - c) H2).
  replace (b - c + c) with b by lia. rewrite (to_double_safe b H1). lia.
Qed.

Lemma deltas_debtors d c (l : list ObjectId) :
  Forall (fun uid => exists b, balance d uid = Some b /\ safe b /\ safe (b - c)) l ->
  delta <$> (debtor_entry d c <$> l) = replicate (length l) (- c).
Proof.
  induction 1 as [|uid l (b & Hb & H1 & H2) _ IH]; [reflexivity|].
  rewrite !fmap_cons, (delta_debtor_entry d c uid b Hb H1 H2), IH. reflexivity.
Qed.

(** The debtors of a settlement hold safe balances. *)
Lemma safe_debtors d p o :
  participants_resolve d o -> safe_settlement d p o ->
  Forall (fun uid => exists b, balance d uid = Some b /\ safe b /\ safe (b - cost o))
         (debtors p (userOrders o)).
Proof.
  intros HR (_ & _ & Hs). apply Forall_forall. intros uid Hin.
  apply elem_of_debtors in Hin as [Hin Hne].
  unfold participants_resolve in HR. rewrite Forall_forall in HR.
  destruct (HR uid Hin) as [u Hu].
  assert (Hb : balance d uid = Some (coins u)) by (unfold balance; rewrite Hu; reflexivity).
  exists (coins u). split; [exact Hb|]. exact (Hs uid (coins u) Hin Hne Hb).
Qed.

Lemma deltas_settlement now d p u o :
  users d !! p = Some u ->
  participants_resolve d o -> safe_settlement d p o ->
  delta <$> entries (settlement_transaction now d p u o) =
    cost o * (Z.of_nat (length (userOrders o)) - 1)
    :: replicate (length (debtors p (userOrders o))) (- cost o).
Proof.
  intros Hu HR Hs.
  unfold settlement_transaction, entries.
  rewrite fmap_cons, (deltas_debtors d (cost o) _ (safe_debtors d p o HR Hs)).
  f_equal. unfold delta. simpl.
  rewrite (settlement_credit_safe d p o Hs).
  destruct Hs as (_ & Hp & _).
  destruct (Hp (coins u)) as [_ Hsum]; [unfold balance; rewrite Hu; reflexivity|].
  unfold num_add. rewrite (to_double_safe _ Hsum). lia.
Qed.

(** ** Settlement: balances and ledger *)

(** C1, as amended. Every settlement of an order with per-participant cost
    [c] and [n] (distinct) participants happens on a [Closed] order and,
    when the credit and the balances it reads and writes are safe integers,
    raises the purchaser's balance by exactly [c * (n - 1)], lowers the
    balance of every participant other than the purchaser by exactly [c],
    and creates one ledger entry whose deltas are the credit followed by
    [- c] for each debited participant. In the scenario (cost 5,
    participants A, B, C, purchaser A) the balances move by +10, -5, -5 and
    the one ledger entry has exactly the three deltas +10, -5, -5. *)
Theorem settlement_moves_coins f now id p d d' fl o :
  orders d !! id = Some o ->
  NoDup (uo_user <$> userOrders o) ->
  safe_settlement d p o ->
  logOrder f now id p d = (d', fl) ->
  flashed success fl = true ->
  state o = Closed /\
  (exists b, balance d p = Some b /\
             balance d' p = Some (b + cost o * (Z.of_nat (length (userOrders o)) - 1))) /\
  (forall uid, uid ∈ uo_user <$> userOrders o -> uid <> p ->
     exists b, balance d uid = Some b /\ balance d' uid = Some (b - cost o)) /\
  (exists t, transactions d' = t :: transactions d /\
             delta <$> entries t =
               cost o * (Z.of_nat (length (userOrders o)) - 1)
               :: replicate (length (debtors p (userOrders o))) (- cost o)) /\
  (let s := Scenario.start in
   let s' := fst (logOrder no_faults now Scenario.order_id Scenario.A s) in
   balance s' Scenario.A = Z.add 10 <$> balance s Scenario.A /\
   balance s' Scenario.B = Z.add (-5) <$> balance s Scenario.B /\
   balance s' Scenario.C = Z.add (-5) <$> balance s Scenario.C /\
   (fun t => delta <$> entries t) <$> transactions s' = [[10; -5; -5]]).
Proof.
  intros Ho Hnd Hsafe Hlog Hfl.
  destruct (logOrder_success _ _ _ _ _ _ _ Hlog Hfl) as [t Hchain].
  destruct (logOrder_chain_resolved _ _ _ _ _ _ _ Hchain)
    as (o' & u & Ho' & Hst & Hu & HR & -> & ->).
  rewrite Ho in Ho'. inversion Ho'; subst o'. clear Ho'.
  split; [exact Hst|]. split; [|split; [|split]].
  - exists (coins u). unfold balance. rewrite Hu, settled_purchaser. simpl.
    split; [reflexivity|]. f_equal.
    rewrite (settlement_credit_safe d p o Hsafe).
    destruct Hsafe as (_ & Hp & _).
    destruct (Hp (coins u)) as [_ Hsum]; [unfold balance; rewrite Hu; reflexivity|].
    apply to_double_safe, Hsum.
  - intros uid Hin Hne.
    pose proof HR as HR'. unfold participants_resolve in HR'.
    rewrite Forall_forall in HR'. destruct (HR' uid Hin) as [u' Hu'].
    exists (coins u'). unfold balance. rewrite Hu'.
    rewrite (settled_debtor now id p o u d uid u' Hnd HR);
      [|apply elem_of_debtors; auto|exact Hu'].
    simpl. split; [reflexivity|]. f_equal.
    destruct Hsafe as (_ & _ & Hd).
    destruct (Hd uid (coins u') Hin Hne) as [_ Hdiff];
      [unfold balance; rewrite Hu'; reflexivity|].
    apply to_double_safe, Hdiff.
  - exists (settlement_transaction now d p u o). split; [reflexivity|].
    apply deltas_settlement; assumption.
  - vm_compute. auto.
Qed.

Lemma scenario_settlement_is_safe p :
  safe_settlement Scenario.start p Scenario.tenders.
Proof.
  assert (Hall : forall uid b, balance Scenario.start uid = Some b -> - 2 <= b <= 7).
  { intros uid b Hb. unfold balance, Scenario.start in Hb. simpl in Hb.
    destruct (decide (uid = Scenario.A)) as [->|HA]; [vm_compute in Hb; inversion Hb; lia|].
    destruct (decide (uid = Scenario.B)) as [->|HB]; [vm_compute in Hb; inversion Hb; lia|].
    destruct (decide (uid = Scenario.C)) as [->|HC]; [vm_compute in Hb; inversion Hb; lia|].
    destruct (decide (uid = Scenario.D)) as [->|HD]; [vm_compute in Hb; inversion Hb; lia|].
    rewrite !lookup_insert_ne in Hb by congruence. rewrite lookup_empty in Hb.
    discriminate Hb. }
  unfold safe_settlement, safe, MAX_SAFE_INTEGER. simpl.
  split; [lia|]. split.
  - intros b Hb. pose proof (Hall p b Hb). lia.
  - intros uid b _ _ Hb. pose proof (Hall uid b Hb). lia.
Qed.

Lemma settlement_moves_coins_witness :
  (orders Scenario.start !! Scenario.order_id = Some Scenario.tenders /\
   NoDup (uo_user <$> userOrders Scenario.tenders) /\
   safe_settlement Scenario.start Scenario.D Scenario.tenders /\
   flashed success
     (snd (logOrder no_faults 200 Scenario.order_id Scenario.D Scenario.start)) = true) /\
  exists b,
    balance Scenario.start Scenario.D = Some b /\
    balance (fst (logOrder no_faults 200 Scenario.order_id Scenario.D Scenario.start))
      Scenario.D = Some (b + 5 * (3 - 1)).
Proof.
  assert (Hnd : NoDup (uo_user <$> userOrders Scenario.tenders)).
  { apply (bool_decide_unpack _). vm_compute. exact I. }
  split;
    [split; [reflexivity | split; [exact Hnd | split;
       [exact (scenario_settlement_is_safe Scenario.D) | reflexivity]]]|].
  exact (proj1 (proj2
    (settlement_moves_coins no_faults 200 Scenario.order_id Scenario.D Scenario.start
       (fst (logOrder no_faults 200 Scenario.order_id Scenario.D Scenario.start))
       (snd (logOrder no_faults 200 Scenario.order_id Scenario.D Scenario.start))
       Scenario.tenders eq_refl Hnd (scenario_settlement_is_safe Scenario.D)
       eq_refl eq_refl))).
Defined.

(** C1 as stated fails beyond the safe integers, where the balances are
    doubles that no longer hold every integer: when B holds
    9007199254740994 coins and the order between A and B costs 1, the
    settlement with purchaser A succeeds, B's balance becomes
    9007199254740992, two less and not one, and B's line in the ledger entry
    has the delta 0. *)
Lemma large_balance_is_not_debited_the_cost :
  let r := logOrder no_faults 200 Rounding.order_id Scenario.A Rounding.start in
  order_state Rounding.start Rounding.order_id = Some Closed /\
  cost Rounding.nuggets = 1 /\
  balance Rounding.start Scenario.B = Some 9007199254740994 /\
  flashed success (snd r) = true /\
  balance (fst r) Scenario.B = Some 9007199254740992 /\
  balance (fst r) Scenario.B <> Some (9007199254740994 - 1) /\
  (fun t => delta <$> entries t) <$> transactions (fst r) = [[1; 0]].
Proof.
  cbv zeta. split; [reflexivity|]. split; [reflexivity|]. split; [reflexivity|].
  split; [reflexivity|]. split; [vm_compute; reflexivity|].
  split; [vm_compute; discriminate | vm_compute; reflexivity].
Qed.

(** ** Conservation *)

Lemma sum_deltas_replicate (k : nat) (c : Z) :
  foldr Z.add 0 (replicate k c) = Z.of_nat k * c.
Proof.
  induction k as [|k IH]; [reflexivity|].
  rewrite Nat2Z.inj_succ. simpl. rewrite IH. lia.
Qed.

(** The net coin movement of a settlement's ledger entry. *)
Lemma sum_deltas_settlement now d p u o :
  users d !! p = Some u ->
  participants_resolve d o -> safe_settlement d p o ->
  sum_deltas (settlement_transaction now d p u o) =
    cost o * (Z.of_nat (length (userOrders o)) - 1)
    - Z.of_nat (length (debtors p (userOrders o))) * cost o.
Proof.
  intros Hu HR Hs. unfold sum_deltas.
  rewrite (deltas_settlement now d p u o Hu HR Hs). simpl.
  rewrite sum_deltas_replicate. lia.
Qed.

Lemma filter_out_stranger (p : ObjectId) (l : list ObjectId) :
  p ∉ l -> filter (fun u => u <> p) l = l.
Proof.
  induction l as [|x l IH]; intros Hp; [reflexivity|].
  apply not_elem_of_cons in Hp as [Hne Hp].
  rewrite filter_cons_True by congruence. f_equal. apply IH. exact Hp.
Qed.

Lemma filter_out_member (p : ObjectId) (l : list ObjectId) :
  NoDup l -> p ∈ l ->
  S (length (filter (fun u => u <> p) l)) = length l.
Proof.
  induction 1 as [|x l Hx Hnd IH]; intros Hin; [inversion Hin|].
  rewrite filter_cons. destruct (decide (x <> p)) as [Hne|Heq].
  - simpl. f_equal. apply IH. apply elem_of_cons in Hin as [->|Hin]; [congruence|exact Hin].
  - assert (x = p) as -> by (destruct (decide (x = p)); [assumption | contradiction]).
    simpl. f_equal. f_equal. apply filter_out_stranger. exact Hx.
Qed.

Lemma debtors_of_participant p uos :
  NoDup (uo_user <$> uos) -> p ∈ uo_user <$> uos ->
  Z.of_nat (length (debtors p uos)) = Z.of_nat (length uos) - 1.
Proof.
  intros Hnd Hin. pose proof (filter_out_member p _ Hnd Hin) as H.
  rewrite length_fmap in H. unfold debtors. lia.
Qed.

Lemma debtors_of_stranger p uos :
  p ∉ (uo_user <$> uos) -> debtors p uos = uo_user <$> uos.
Proof. apply filter_out_stranger. Qed.

Lemma setCoins_committed f now admin id v d d' fl :
  setCoins f now admin id v d = (d', fl) ->
  flashed error fl = false ->
  exists u,
    users d !! id = Some u /\
    d' = add_transaction
           {| tx_description := "Forced coin update"; tx_date := now;
              entries := [ {| entry_user := id; previousValue := coins u;
                              newValue := toNumber v |} ] |}
           (add_audit {| audit_date := now; log := SetCoins admin v id |}
              (set_users (<[id := set_coins (toNumber v) u]> (users d)) d)).
Proof.
  unfold setCoins.
  destruct (setCoins_chain f now admin id v d) as [w [t|err]] eqn:Hc; intros H Hfl.
  - inversion H; subst d' fl. clear H Hfl.
    unfold setCoins_chain in Hc.
    chain_inv Hc as Hu. unfold User_findByIdAndUpdate_set in Hu.
    chain_inv Hu as Hs1. apply storage_resolved in Hs1 as [_ ->].
    destruct (users d !! id) as [u|] eqn:Eu; [|inversion Hu; subst; discriminate Hc].
    inversion Hu; subst; clear Hu.
    chain_inv Hc as Ha. unfold audit in Ha. chain_inv Ha as Hs2.
    apply storage_resolved in Hs2 as [_ ->]. inversion Ha; subst; clear Ha.
    chain_inv Hc as Ht. unfold Transaction_create in Ht. chain_inv Ht as Hs3.
    apply storage_resolved in Hs3 as [_ ->]. inversion Ht; subst; clear Ht.
    chain_inv Hc as Hcm. unfold commitTransaction in Hcm.
    apply storage_resolved in Hcm as [_ ->].
    apply resolve_resolved in Hc as [-> _].
    exists u. split; reflexivity.
  - destruct (negb (f (CallUpdateUser id)) && bool_decide (is_Some (users d !! id)));
      inversion H; subst; discriminate Hfl.
Qed.

(** C2, as amended. The ledger entry created by settling an order whose
    purchaser is one of its (distinct) participants conserves coins when the
    credit and the balances are safe integers: its deltas sum to zero. A
    forced coin adjustment that commits creates a ledger entry with the
    single entry (previous balance, new balance), whose delta is their
    difference, whatever it is; the new balance is the entered integer when
    that is a safe integer. *)
Theorem settlement_conserves_coins :
  (forall f now id p d d' fl o,
     orders d !! id = Some o ->
     NoDup (uo_user <$> userOrders o) ->
     p ∈ uo_user <$> userOrders o ->
     safe_settlement d p o ->
     logOrder f now id p d = (d', fl) ->
     flashed success fl = true ->
     exists t, transactions d' = t :: transactions d /\ sum_deltas t = 0) /\
  (forall f now admin id v d d' fl,
     setCoins f now admin id v d = (d', fl) ->
     flashed error fl = false ->
     exists t b b',
       transactions d' = t :: transactions d /\
       balance d id = Some b /\ balance d' id = Some b' /\
       entries t = [ {| entry_user := id; previousValue := b; newValue := b' |} ] /\
       sum_deltas t = b' - b /\
       (safe v -> b' = v)).
Proof.
  split.
  - intros f now id p d d' fl o Ho Hnd Hin Hsafe Hlog Hfl.
    destruct (logOrder_success _ _ _ _ _ _ _ Hlog Hfl) as [t Hchain].
    destruct (logOrder_chain_resolved _ _ _ _ _ _ _ Hchain)
      as (o' & u & Ho' & Hst & Hu & HR & -> & ->).
    rewrite Ho in Ho'. inversion Ho'; subst o'. clear Ho'.
    exists (settlement_transaction now d p u o). split; [reflexivity|].
    rewrite (sum_deltas_settlement now d p u o Hu HR Hsafe),
      (debtors_of_participant p _ Hnd Hin).
    lia.
  - intros f now admin id v d d' fl Hset Hfl.
    destruct (setCoins_committed _ _ _ _ _ _ _ _ Hset Hfl) as (u & Hu & ->).
    eexists. exists (coins u), (toNumber v). split; [reflexivity|].
    unfold balance. simpl. rewrite Hu, lookup_insert_eq. simpl.
    repeat split.
    + unfold sum_deltas, delta. simpl. lia.
    + apply to_double_safe.
Qed.

Lemma settlement_conserves_coins_witness :
  (orders Scenario.start !! Scenario.order_id = Some Scenario.tenders /\
   NoDup (uo_user <$> userOrders Scenario.tenders) /\
   Scenario.A ∈ uo_user <$> userOrders Scenario.tenders /\
   safe_settlement Scenario.start Scenario.A Scenario.tenders /\
   flashed success
     (snd (logOrder no_faults 200 Scenario.order_id Scenario.A Scenario.start)) = true) /\
  exists t,
    transactions (fst (logOrder no_faults 200 Scenario.order_id Scenario.A Scenario.start))
      = t :: transactions Scenario.start /\
    sum_deltas t = 0.
Proof.
  assert (Hnd : NoDup (uo_user <$> userOrders Scenario.tenders)).
  { apply (bool_decide_unpack _). vm_compute. exact I. }
  assert (Hin : Scenario.A ∈ uo_user <$> userOrders Scenario.tenders).
  { apply (bool_decide_unpack _). vm_compute. exact I. }
  split;
    [split; [reflexivity | split; [exact Hnd | split; [exact Hin | split;
       [exact (scenario_settlement_is_safe Scenario.A) | reflexivity]]]]|].
  exact (proj1 settlement_conserves_coins no_faults 200 Scenario.order_id Scenario.A
           Scenario.start
           (fst (logOrder no_faults 200 Scenario.order_id Scenario.A Scenario.start))
           (snd (logOrder no_faults 200 Scenario.order_id Scenario.A Scenario.start))
           Scenario.tenders eq_refl Hnd Hin (scenario_settlement_is_safe Scenario.A)
           eq_refl eq_refl).
Defined.

(** C2 as stated fails: with the purchaser D, an existing user who is not
    among the participants A, B, C of the closed order, the settlement
    succeeds and its ledger entry nets [-5], the order's cost. *)
Lemma outside_purchaser_loses_coins :
  let r := logOrder no_faults 200 Scenario.order_id Scenario.D Scenario.start in
  order_state Scenario.start Scenario.order_id = Some Closed /\
  is_Some (users Scenario.start !! Scenario.D) /\
  (Scenario.D ∉ uo_user <$> userOrders Scenario.tenders) /\
  flashed success (snd r) = true /\
  exists t, transactions (fst r) = t :: transactions Scenario.start /\
            sum_deltas t = -5 /\ sum_deltas t <> 0.
Proof.
  simpl. split; [reflexivity|]. split; [vm_compute; eauto|].
  split; [apply (bool_decide_unpack _); vm_compute; exact I|].
  split; [reflexivity|].
  eexists. split; [vm_compute; reflexivity|]. split; [reflexivity | discriminate].
Qed.

(** Beyond the safe integers the entry of a settlement among participants
    need not net zero: when the purchaser A holds [2^53] coins and the other
    participant B holds 10, the settlement of an order of cost 5 records the
    deltas +4 and -5. *)
Remark large_settlement_does_not_conserve :
  let o := mkOrder 0 1000 "nuggets" "chicken nuggets" 5 Closed
             (userOrders Rounding.nuggets) None in
  let d := {| users := list_to_map [(Scenario.A, mkUser 9007199254740992 true);
                                    (Scenario.B, mkUser 10 true)];
              orders := {[ Rounding.order_id := o ]};
              transactions := []; audits := [] |} in
  let r := logOrder no_faults 200 Rounding.order_id Scenario.A d in
  flashed success (snd r) = true /\
  (fun t => delta <$> entries t) <$> transactions (fst r) = [[4; -5]].
Proof. vm_compute. auto. Qed.

(** ** Atomicity of a settlement *)

Lemma logOrder_rejects f now id p d :
  settlement_fails_early f id p d ->
  logOrder f now id p d = (d, [(error, "Failed to log order")]).
Proof.
  intros Hcause. unfold logOrder.
  destruct (logOrder_chain f now id p d) as [w [t|err]] eqn:Hc; [|reflexivity].
  exfalso.
  destruct (logOrder_chain_conditions _ _ _ _ _ _ _ Hc)
    as (o & u & Ho & Hst & Hu & _ & Hf).
  destruct Hcause as [Hns | [Hnp | (o' & c & Ho' & Hin & Hfc)]].
  - apply Hns. unfold order_state. rewrite Ho. simpl. congruence.
  - congruence.
  - rewrite Ho in Ho'. inversion Ho'; subst o'.
    rewrite Forall_forall in Hf. rewrite (Hf c Hin) in Hfc. discriminate Hfc.
Qed.

(** C3. A settlement that fails before its commit leaves no trace: if the
    order does not resolve as [Closed], or the purchaser does not resolve,
    or an enclosed storage call throws, [logOrder] reports the failure and
    the database (balances, orders, ledger, audit log) is the one it started
    from; and whenever [logOrder] does not report success the database is
    unchanged. *)
Theorem failed_settlement_leaves_no_trace f now id p d :
  (settlement_fails_early f id p d ->
   logOrder f now id p d = (d, [(error, "Failed to log order")])) /\
  (forall d' fl,
     logOrder f now id p d = (d', fl) ->
     flashed success fl = false ->
     d' = d /\
     (forall uid, balance d' uid = balance d uid) /\
     transactions d' = transactions d /\
     audits d' = audits d /\
     (forall oid, order_state d' oid = order_state d oid)).
Proof.
  split.
  - apply logOrder_rejects.
  - intros d' fl Hlog Hfl.
    destruct (logOrder_failure _ _ _ _ _ _ _ Hlog Hfl) as [-> _]. auto.
Qed.

Lemma failed_settlement_leaves_no_trace_witness :
  settlement_fails_early Scenario.ledger_write_fails
    Scenario.order_id Scenario.A Scenario.start /\
  logOrder Scenario.ledger_write_fails 200
    Scenario.order_id Scenario.A Scenario.start
  = (Scenario.start, [(error, "Failed to log order")]).
Proof.
  assert (H : settlement_fails_early Scenario.ledger_write_fails
                Scenario.order_id Scenario.A Scenario.start).
  { right. right. exists Scenario.tenders, CallCreateTransaction.
    split; [reflexivity|]. split; [|reflexivity].
    unfold settlement_calls. apply elem_of_app. right. apply elem_of_app. right.
    apply elem_of_cons. right. apply elem_of_cons. right. apply elem_of_cons. left.
    reflexivity. }
  split; [exact H|].
  exact (proj1 (failed_settlement_leaves_no_trace _ 200 Scenario.order_id Scenario.A
                  Scenario.start) H).
Defined.

(** In that run the session's copy had already credited the purchaser,
    debited B and C, archived the order and written the audit when the
    creation of the ledger entry threw; none of it is in the database. *)
Remark aborted_settlement_had_partial_writes :
  let f := Scenario.ledger_write_fails in
  let w := fst (logOrder_chain f 200 Scenario.order_id Scenario.A Scenario.start) in
  balance w Scenario.A = Some 10 /\ balance w Scenario.B = Some 2 /\
  order_state w Scenario.order_id = Some Archived /\ length (audits w) = 1%nat /\
  fst (logOrder f 200 Scenario.order_id Scenario.A Scenario.start) = Scenario.start.
Proof. vm_compute. auto. Qed.

(** ** A purchaser from outside the order *)

(** C10, as amended. The purchaser need not be a participant: for a [Closed]
    order with [n] (distinct) participants who all still resolve to users,
    and a purchaser who exists and is not one of them, the settlement
    succeeds, archives the order and records one ledger entry with [n + 1]
    entries; when the credit and the balances are safe integers it credits
    the purchaser [cost * (n - 1)] and debits each of the [n] participants
    [cost]. *)
Theorem outside_purchaser_settles now id p d o u :
  orders d !! id = Some o ->
  state o = Closed ->
  users d !! p = Some u ->
  (p ∉ uo_user <$> userOrders o) ->
  participants_resolve d o ->
  NoDup (uo_user <$> userOrders o) ->
  exists d' t,
    logOrder no_faults now id p d = (d', [(success, "Successfully logged order")]) /\
    order_state d' id = Some Archived /\
    transactions d' = t :: transactions d /\
    length (entries t) = S (length (userOrders o)) /\
    (safe_settlement d p o ->
     balance d' p = Some (coins u + cost o * (Z.of_nat (length (userOrders o)) - 1)) /\
     (forall uid, uid ∈ uo_user <$> userOrders o ->
        exists b, balance d uid = Some b /\ balance d' uid = Some (b - cost o))).
Proof.
  intros Ho Hst Hu Hout HR Hnd.
  exists (settled now id p o u d), (settlement_transaction now d p u o).
  split; [|split; [|split; [|split]]].
  - unfold logOrder.
    rewrite (logOrder_chain_ok no_faults now id p d o u Ho Hst Hu HR).
    + reflexivity.
    + apply Forall_forall. reflexivity.
  - unfold order_state, settled. simpl. rewrite lookup_insert_eq. reflexivity.
  - reflexivity.
  - unfold settlement_transaction. simpl.
    rewrite length_fmap, (debtors_of_stranger p _ Hout), length_fmap. reflexivity.
  - intros Hsafe. split.
    + unfold balance. rewrite settled_purchaser. simpl. f_equal.
      rewrite (settlement_credit_safe d p o Hsafe).
      destruct Hsafe as (_ & Hp & _).
      destruct (Hp (coins u)) as [_ Hsum]; [unfold balance; rewrite Hu; reflexivity|].
      apply to_double_safe, Hsum.
    + intros uid Hin.
      pose proof HR as HR'. unfold participants_resolve in HR'.
      rewrite Forall_forall in HR'. destruct (HR' uid Hin) as [u' Hu'].
      exists (coins u'). unfold balance. rewrite Hu'.
      rewrite (settled_debtor now id p o u d uid u' Hnd HR);
        [| apply elem_of_debtors; split; [exact Hin | intros ->; contradiction]
         | exact Hu'].
      simpl. split; [reflexivity|]. f_equal.
      destruct Hsafe as (_ & _ & Hd).
      destruct (Hd uid (coins u') Hin) as [_ Hdiff];
        [intros ->; contradiction | unfold balance; rewrite Hu'; reflexivity|].
      apply to_double_safe, Hdiff.
Qed.

Lemma outside_purchaser_settles_witness :
  (orders Scenario.start !! Scenario.order_id = Some Scenario.tenders /\
   state Scenario.tenders = Closed /\
   users Scenario.start !! Scenario.D = Some (mkUser 1 true) /\
   (Scenario.D ∉ uo_user <$> userOrders Scenario.tenders) /\
   participants_resolve Scenario.start Scenario.tenders /\
   NoDup (uo_user <$> userOrders Scenario.tenders) /\
   safe_settlement Scenario.start Scenario.D Scenario.tenders) /\
  exists d',
    fst (logOrder no_faults 200 Scenario.order_id Scenario.D Scenario.start) = d' /\
    flashed success
      (snd (logOrder no_faults 200 Scenario.order_id Scenario.D Scenario.start)) = true /\
    balance d' Scenario.D = Some (1 + 5 * (3 - 1)) /\
    (forall uid, uid ∈ uo_user <$> userOrders Scenario.tenders ->
       exists b, balance Scenario.start uid = Some b /\ balance d' uid = Some (b - 5)) /\
    order_state d' Scenario.order_id = Some Archived.
Proof.
  assert (Hnd : NoDup (uo_user <$> userOrders Scenario.tenders)).
  { apply (bool_decide_unpack _). vm_compute. exact I. }
  assert (Hout : Scenario.D ∉ uo_user <$> userOrders Scenario.tenders).
  { apply (bool_decide_unpack _). vm_compute. exact I. }
  assert (HR : participants_resolve Scenario.start Scenario.tenders).
  { unfold participants_resolve. apply (bool_decide_unpack _). vm_compute. exact I. }
  split.
  - repeat (split; [first [reflexivity | assumption]|]).
    exact (scenario_settlement_is_safe Scenario.D).
  - destruct (outside_purchaser_settles 200 Scenario.order_id Scenario.D Scenario.start
                Scenario.tenders (mkUser 1 true) eq_refl eq_refl eq_refl Hout HR Hnd)
      as (d' & t & Hlog & Harch & _ & _ & Hcoins).
    destruct (Hcoins (scenario_settlement_is_safe Scenario.D)) as [Hp Hd].
    exists d'. rewrite Hlog. split; [reflexivity|]. split; [reflexivity|].
    split; [exact Hp|]. split; [exact Hd | exact Harch].
Defined.

(** C10 as stated fails when a participant no longer resolves to a user,
    which [deleteUser] brings about without looking at the orders: once B
    has been disabled and deleted, the settlement of the closed order of A,
    B and C with the purchaser D, an existing user outside the order, fails
    and leaves the database as it is, the order still [Closed] and no
    ledger entry written. *)
Lemma outside_purchaser_fails_after_deletion :
  let d0 := fst (set_user_enabled false Scenario.B Scenario.start) in
  let d := fst (deleteUser Scenario.B d0) in
  let r := logOrder no_faults 200 Scenario.order_id Scenario.D d in
  order_state d Scenario.order_id = Some Closed /\
  participants d Scenario.order_id = Some [Scenario.A; Scenario.B; Scenario.C] /\
  is_Some (users d !! Scenario.D) /\
  (Scenario.D ∉ uo_user <$> userOrders Scenario.tenders) /\
  users d !! Scenario.B = None /\
  r = (d, [(error, "Failed to log order")]) /\
  order_state (fst r) Scenario.order_id = Some Closed /\
  transactions (fst r) = [].
Proof.
  cbv zeta. split; [reflexivity|]. split; [reflexivity|].
  split; [vm_compute; eauto|].
  split; [apply (bool_decide_unpack _); vm_compute; exact I|].
  split; [reflexivity|]. split; [vm_compute; reflexivity|].
  split; [reflexivity | reflexivity].
Qed.

(** ** Closing an order *)

Lemma closeOrderById_open now id d o :
  orders d !! id = Some o ->
  state o = Open \/ state o = Closing ->
  closeOrderById now id d =
    (set_orders
       (<[id := set_closeDate now
                  (set_state (if (0 <? length (userOrders o))%nat then Closed else Cancelled) o)]>
          (orders d)) d,
     Resolved
       (set_closeDate now
          (set_state (if (0 <? length (userOrders o))%nat then Closed else Cancelled) o))).
Proof.
  intros Ho Hst. unfold closeOrderById. rewrite Ho.
  destruct Hst as [-> | ->]; reflexivity.
Qed.

(** C6. When the close transition runs on an order in state [Open] or
    [Closing], from the manual route or from the scheduled job, the order
    becomes [Closed] if it has participants and [Cancelled], in the same
    single write, if it has none; its [closeDate] becomes the time of the
    transition and nothing else of the order changes. *)
Theorem close_transition cfg now id s o due :
  orders (db s) !! id = Some o ->
  state o = Open \/ state o = Closing ->
  let closed :=
    set_closeDate now
      (set_state (match userOrders o with [] => Cancelled | _ :: _ => Closed end) o) in
  (userOrders o <> [] -> state closed = Closed) /\
  (userOrders o = [] -> state closed = Cancelled) /\
  closeDate closed = now /\
  userOrders closed = userOrders o /\
  orders (db (fst (closeOrder_route now id s))) !! id = Some closed /\
  flashed success (snd (closeOrder_route now id s)) = true /\
  (mkJob closeOrder id due ∈ jobs s -> due <= now ->
   orders (db (run_job cfg now (mkJob closeOrder id due) s)) !! id = Some closed).
Proof.
  intros Ho Hst closed.
  assert (Hc : closeOrderById now id (db s) =
               (set_orders (<[id := closed]> (orders (db s))) (db s), Resolved closed)).
  { rewrite (closeOrderById_open now id (db s) o Ho Hst). subst closed.
    destruct (userOrders o); reflexivity. }
  split; [|split; [|split; [|split; [|split; [|split]]]]].
  - subst closed. destruct (userOrders o); [congruence | reflexivity].
  - subst closed. intros ->. reflexivity.
  - reflexivity.
  - reflexivity.
  - unfold closeOrder_route. rewrite Hc. simpl. apply lookup_insert_eq.
  - unfold closeOrder_route. rewrite Hc. reflexivity.
  - intros Hin Hdue. unfold run_job.
    rewrite bool_decide_eq_true_2 by exact Hin.
    simpl. rewrite (proj2 (Z.leb_le due now) Hdue). simpl.
    unfold closeOrder_job. simpl. rewrite Hc. simpl. apply lookup_insert_eq.
Qed.

Lemma close_transition_witness :
  let o := set_state Open (set_userOrders [] Scenario.tenders) in
  let s := {| db := set_orders {[ Scenario.order_id := o ]} Scenario.start;
              jobs := [mkJob closeOrder Scenario.order_id 1000] |} in
  (orders (db s) !! Scenario.order_id = Some o /\
   (state o = Open \/ state o = Closing) /\ userOrders o = []) /\
  order_state (db (fst (closeOrder_route 900 Scenario.order_id s))) Scenario.order_id
    = Some Cancelled.
Proof.
  simpl. split; [split; [reflexivity | split; [left; reflexivity | reflexivity]]|].
  pose proof (close_transition Scenario.cfg 900 Scenario.order_id
                {| db := set_orders
                           {[ Scenario.order_id :=
                                set_state Open (set_userOrders [] Scenario.tenders) ]}
                           Scenario.start;
                   jobs := [mkJob closeOrder Scenario.order_id 1000] |}
                (set_state Open (set_userOrders [] Scenario.tenders)) 1000
                eq_refl (or_introl eq_refl)) as H.
  simpl in H. destruct H as (_ & _ & _ & _ & H & _).
  unfold order_state. rewrite H. reflexivity.
Defined.

(** ** Cancelling an order *)

(** C9, evaluated: cancelling an order that is [Archived], so outside the
    filter [Open, Closing, Closed] of [cancelOrder], changes nothing in the
    database and flashes the success message. *)
Lemma cancel_of_archived_order_reports_success :
  let archived := set_state Archived Scenario.tenders in
  let s := {| db := set_orders {[ Scenario.order_id := archived ]} Scenario.start;
              jobs := [] |} in
  cancelOrder 2000 Scenario.order_id s =
    (s, [(success, "Order successfully canceled")]).
Proof. reflexivity. Qed.

(** The same holds of every order outside the filter, and of an id that
    names no order: the database is untouched and success is flashed. *)
Lemma cancelOrder_unresolved now id s :
  order_state (db s) id <> Some Open ->
  order_state (db s) id <> Some Closing ->
  order_state (db s) id <> Some Closed ->
  cancelOrder now id s =
    ({| db := db s; jobs := cancel_jobs id (jobs s) |},
     [(success, "Order successfully canceled")]).
Proof.
  unfold order_state, cancelOrder. intros Ho Hc Hd.
  destruct (orders (db s) !! id) as [o|]; [|reflexivity].
  simpl in Ho, Hc, Hd.
  destruct (state o); try reflexivity; congruence.
Qed.

(** The sibling operations do surface the same condition: when the order
    does not resolve under their state filter they flash an error. *)
Lemma siblings_report_unresolved_order cfg f now u id p body d :
  order_state d id <> Some Open -> order_state d id <> Some Closing ->
  leaveOrder u id d = (d, [(error, "Failed to leave order; it may already be closed")]) /\
  joinOrder cfg u id body d =
    (d, [(error, "Failed to join order; it may already be closed")]) /\
  closeOrderById now id d = (d, Rejected "Order is null") /\
  (order_state d id <> Some Closed ->
   logOrder f now id p d = (d, [(error, "Failed to log order")])).
Proof.
  intros Hno Hnc. unfold order_state in *.
  unfold leaveOrder, joinOrder, closeOrderById.
  destruct (orders d !! id) as [o|] eqn:Ho.
  - simpl in Hno, Hnc.
    assert (Hin : in_states [Open; Closing] (state o) = false).
    { destruct (state o); try reflexivity; congruence. }
    rewrite Hin. simpl. repeat split.
    intros Hncl.
    apply logOrder_rejects.
    left. unfold order_state. rewrite Ho. exact Hncl.
  - repeat split. intros Hncl.
    apply logOrder_rejects.
    left. unfold order_state. rewrite Ho. exact Hncl.
Qed.

(** ** Scheduling *)

Lemma closingOrder_job_open cfg t id s o :
  orders (db s) !! id = Some o ->
  state o = Open ->
  participants_resolve (db s) o ->
  closingOrder_job cfg t id s =
    {| db := set_orders (<[id := set_state Closing o]> (orders (db s))) (db s);
       jobs := jobs s ++ [mkJob closeOrder id (t + orderCloseTimeout cfg)] |}.
Proof.
  intros Ho Hst HR. unfold closingOrder_job. rewrite Ho, Hst.
  rewrite bool_decide_eq_true_2 by reflexivity.
  assert (Hall : forallb (fun pu => bool_decide (is_Some (pu_user pu)))
                   (populate (db s) <$> userOrders o) = true).
  { apply forallb_forall. intros pu Hin. apply list_elem_of_In in Hin.
    apply list_elem_of_fmap in Hin as (uo & -> & Hin).
    unfold participants_resolve in HR. rewrite Forall_forall in HR.
    destruct (HR (uo_user uo)) as [u Hu].
    - apply list_elem_of_fmap. exists uo. auto.
    - rewrite (populate_resolved _ _ _ Hu). apply bool_decide_eq_true_2. eauto. }
  rewrite Hall. reflexivity.
Qed.

Lemma closingOrder_job_not_open cfg t id s :
  order_state (db s) id <> Some Open ->
  closingOrder_job cfg t id s = s.
Proof.
  unfold order_state, closingOrder_job. intros H.
  destruct (orders (db s) !! id) as [o|]; [|reflexivity].
  rewrite bool_decide_eq_false_2; [reflexivity|].
  intros Hst. apply H. simpl. congruence.
Qed.

(** [createOrder], case by case: the document passes the validation of the
    schema, is stored and its job queued, or nothing happens. *)
Lemma createOrder_cases cfg now type close s :
  (exists t,
     find_orderType (orderTypes cfg) type = Some t /\
     type <> "" /\ type_description t <> "" /\
     createOrder cfg now type close s =
       ({| db := set_orders
                   (<[fresh (dom (orders (db s))) :=
                        mkOrder now close type (type_description t) (type_cost t) Open [] None]>
                      (orders (db s))) (db s);
           jobs := schedule (Z.max (close - orderCloseTimeout cfg) now) closingOrder
                     (fresh (dom (orders (db s)))) (jobs s) |},
        [(success, "Created new order")])) \/
  ((find_orderType (orderTypes cfg) type = None \/ type = "" \/
    exists t, find_orderType (orderTypes cfg) type = Some t /\ type_description t = "") /\
   createOrder cfg now type close s = (s, [(error, "Failed to create new order")])).
Proof.
  unfold createOrder, order_valid. cbn [location description].
  destruct (find_orderType (orderTypes cfg) type) as [t|] eqn:Ht.
  - destruct (decide (type = "")) as [->|Hty].
    + right. split; [auto|]. reflexivity.
    + rewrite (bool_decide_eq_false_2 _ Hty).
      destruct (decide (type_description t = "")) as [Hd|Hd].
      * right. split; [eauto|]. rewrite (bool_decide_eq_true_2 _ Hd). reflexivity.
      * left. exists t. rewrite (bool_decide_eq_false_2 _ Hd). cbn [negb andb].
        repeat (split; [solve [auto]|]). do 4 f_equal.
        destruct (Z.ltb_spec (close - orderCloseTimeout cfg) now); lia.
  - right. split; [auto|].
    rewrite (bool_decide_eq_true_2 ("" = "") eq_refl). rewrite andb_false_r. reflexivity.
Qed.

(** C5, as amended. Creating an order queues one job: the move to [Closing],
    due at [closeDate - orderCloseTimeout], or now if that is already past.
    The job that moves the order to [Closed] is queued by the [Closing] job,
    only when that job finds the order [Open] (and its participants
    resolve), and is due [orderCloseTimeout] after the [Closing] job ran;
    when the [Closing] job does not find the order [Open], it queues
    nothing. For a [Closing] job that runs at its due time without having
    been clamped, that due time is [closeDate]. A request that creates no
    order, its document failing the validation of the schema, queues
    nothing. *)
Theorem jobs_of_an_order cfg now type close s :
  let id := fresh (dom (orders (db s))) in
  let s1 := fst (createOrder cfg now type close s) in
  (flashed success (snd (createOrder cfg now type close s)) = true ->
   jobs s1 =
     jobs s ++ [mkJob closingOrder id (Z.max (close - orderCloseTimeout cfg) now)] /\
   (exists o, orders (db s1) !! id = Some o /\ state o = Open /\ closeDate o = close)) /\
  (flashed success (snd (createOrder cfg now type close s)) = false -> s1 = s) /\
  (forall t s2 j o,
     j ∈ jobs s2 -> job_name j = closingOrder -> nextRunAt j <= t ->
     orders (db s2) !! job_data j = Some o ->
     (state o = Open -> participants_resolve (db s2) o ->
      order_state (db (run_job cfg t j s2)) (job_data j) = Some Closing /\
      jobs (run_job cfg t j s2) =
        remove_job j (jobs s2) ++
        [mkJob closeOrder (job_data j) (t + orderCloseTimeout cfg)]) /\
     (state o <> Open ->
      run_job cfg t j s2 = {| db := db s2; jobs := remove_job j (jobs s2) |})) /\
  (now <= close - orderCloseTimeout cfg ->
   Z.max (close - orderCloseTimeout cfg) now + orderCloseTimeout cfg = close).
Proof.
  intros id s1. split; [|split; [|split]].
  - subst s1 id. intros Hfl.
    destruct (createOrder_cases cfg now type close s)
      as [(ty & _ & _ & _ & Hc) | [_ Hc]]; rewrite Hc in *; [|discriminate Hfl].
    cbn [fst db jobs]. split; [reflexivity|].
    eexists. split; [apply lookup_insert_eq|]. split; reflexivity.
  - subst s1. intros Hfl.
    destruct (createOrder_cases cfg now type close s)
      as [(ty & _ & _ & _ & Hc) | [_ Hc]]; rewrite Hc in *;
      [discriminate Hfl | reflexivity].
  - intros t s2 j o Hin Hname Hdue Ho.
    assert (Hrun : run_job cfg t j s2 =
                   closingOrder_job cfg t (job_data j)
                     {| db := db s2; jobs := remove_job j (jobs s2) |}).
    { unfold run_job. rewrite bool_decide_eq_true_2 by exact Hin.
      rewrite (proj2 (Z.leb_le _ _) Hdue). simpl. rewrite Hname. reflexivity. }
    rewrite Hrun. split.
    + intros Hst HR.
      rewrite (closingOrder_job_open cfg t (job_data j)
                 {| db := db s2; jobs := remove_job j (jobs s2) |} o Ho Hst HR). simpl.
      split; [|reflexivity].
      unfold order_state. simpl. rewrite lookup_insert_eq. reflexivity.
    + intros Hst. apply closingOrder_job_not_open.
      unfold order_state. simpl. rewrite Ho. simpl. congruence.
  - intros H. lia.
Qed.

Lemma jobs_of_an_order_witness :
  let s1 := fst (createOrder Scenario.cfg 0 "tenders" 9000 Scenario.empty) in
  let j := mkJob closingOrder 0%nat 4000 in
  (j ∈ jobs s1 /\ job_name j = closingOrder /\ nextRunAt j <= 4000 /\
   0 <= 9000 - orderCloseTimeout Scenario.cfg) /\
  jobs (run_job Scenario.cfg 4000 j s1) = [mkJob closeOrder 0%nat 9000].
Proof.
  simpl.
  split.
  - split; [apply (bool_decide_unpack _); vm_compute; exact I|].
    split; [reflexivity|]. split; vm_compute; discriminate.
  - pose proof (jobs_of_an_order Scenario.cfg 0 "tenders" 9000 Scenario.empty) as H.
    simpl in H. destruct H as (_ & _ & H & _).
    specialize (H 4000 (fst (createOrder Scenario.cfg 0 "tenders" 9000 Scenario.empty))
                  (mkJob closingOrder 0%nat 4000)
                  (mkOrder 0 9000 "tenders" "chicken tenders" 5 Open [] None)).
    destruct H as [H _].
    + apply (bool_decide_unpack _). vm_compute. exact I.
    + reflexivity.
    + simpl. lia.
    + reflexivity.
    + destruct H as [_ H]; [reflexivity | apply Forall_nil; exact I |].
      exact (eq_trans H eq_refl).
Defined.

(** C5 as stated fails. With [orderCloseTimeout = 5000], an order created at
    time 0 to close at 1000 gets one job, the [Closing] transition clamped
    to time 0, and no [Closed] job; when the [Closing] job has run at time 0
    the [Closed] job it queued is due at 5000, not at the order's
    [closeDate] 1000. *)
Lemma close_job_is_not_due_at_closeDate :
  let s1 := fst (createOrder Scenario.cfg 0 "tenders" 1000 Scenario.empty) in
  let s2 := run_job Scenario.cfg 0 (mkJob closingOrder 0%nat 0) s1 in
  jobs s1 = [mkJob closingOrder 0%nat 0] /\
  (closeDate <$> orders (db s1) !! 0%nat) = Some 1000 /\
  jobs s2 = [mkJob closeOrder 0%nat 5000] /\
  (closeDate <$> orders (db s2) !! 0%nat) = Some 1000 /\
  ~ (exists j, j ∈ jobs s1 /\ job_name j = closeOrder) /\
  ~ (exists j, j ∈ jobs s2 /\ job_name j = closeOrder /\ nextRunAt j = 1000).
Proof.
  simpl. split; [reflexivity|]. split; [reflexivity|].
  split; [reflexivity|]. split; [reflexivity|]. split.
  - intros (j & Hin & Hname). vm_compute in Hin.
    apply list_elem_of_singleton in Hin. subst j. discriminate Hname.
  - intros (j & Hin & _ & Hdue). vm_compute in Hin.
    apply list_elem_of_singleton in Hin. subst j. discriminate Hdue.
Qed.

(** ** Coin transfer *)

Lemma transferCoins_chain_resolved f now s r a d w t :
  transferCoins_chain f now s r a d = (w, Resolved t) ->
  exists ur us,
    users d !! r = Some ur /\
    <[r := set_coins (num_add (coins ur) (toNumber a)) ur]> (users d) !! s = Some us /\
    w = transferred now s r a us ur d /\
    t = transfer_transaction now s r a us ur.
Proof.
  unfold transferCoins_chain. intros H.
  chain_inv H as Ht. unfold User_findByIdAndUpdate_inc in Ht.
  chain_inv Ht as Hs1. apply storage_resolved in Hs1 as [_ ->].
  destruct (users d !! r) as [ur|] eqn:Er; [|inversion Ht; subst; discriminate H].
  inversion Ht; subst; clear Ht.
  chain_inv H as Hsrc. unfold User_findByIdAndUpdate_inc in Hsrc.
  chain_inv Hsrc as Hs2. apply storage_resolved in Hs2 as [_ ->].
  simpl in Hsrc.
  destruct (<[r := set_coins (num_add (coins ur) (toNumber a)) ur]> (users d) !! s)
    as [us|] eqn:Es;
    [|inversion Hsrc; subst; discriminate H].
  inversion Hsrc; subst; clear Hsrc.
  chain_inv H as Ha. unfold audit in Ha. chain_inv Ha as Hs3.
  apply storage_resolved in Hs3 as [_ ->]. inversion Ha; subst; clear Ha.
  chain_inv H as Hc. unfold Transaction_create in Hc. chain_inv Hc as Hs4.
  apply storage_resolved in Hs4 as [_ ->]. inversion Hc; subst; clear Hc.
  chain_inv H as Hcm. unfold commitTransaction in Hcm.
  apply storage_resolved in Hcm as [_ ->].
  apply resolve_resolved in H as [-> ->].
  exists ur, us. repeat split; auto.
Qed.

(** What [post_transfer] answers, case by case. *)
Lemma post_transfer_cases f now s r body d d' fl :
  post_transfer f now s r body d = (d', fl) ->
  (d' = d /\ flashed success fl = false /\
   (fl = [] \/ fl = validation_error \/
    fl = [(error, "Can transfer at most coins")])) \/
  (exists a u ur us,
     body = Some a /\ users d !! s = Some u /\ enabled u = true /\
     1 <= toNumber a /\ toNumber a <= coins u /\
     users d !! r = Some ur /\
     <[r := set_coins (num_add (coins ur) (toNumber a)) ur]> (users d) !! s = Some us /\
     d' = transferred now s r a us ur d /\
     fl = [(success, "Transferred coins")]).
Proof.
  unfold post_transfer, authenticated.
  destruct (users d !! s) as [u|] eqn:Eu; [|intros H; inversion H; left; auto].
  destruct (enabled u) eqn:Een; [|intros H; inversion H; left; auto].
  destruct body as [a|]; [|intros H; inversion H; left; auto 6].
  destruct (Z.leb_spec 1 (toNumber a)) as [Hmin|Hmin];
    [|intros H; inversion H; left; auto 6].
  unfold transferCoins. simpl.
  destruct (Z.gtb_spec (toNumber a) (coins u)) as [Hmax|Hmax];
    [intros H; inversion H; left; auto 6|].
  destruct (transferCoins_chain f now s r a d) as [w [t|err]] eqn:Hc;
    intros H; inversion H; subst; [|left; auto].
  right.
  destruct (transferCoins_chain_resolved _ _ _ _ _ _ _ _ Hc) as (ur & us & Hr & Hs & -> & _).
  exists a, u, ur, us. auto 10.
Qed.

(** C8, as amended. A transfer of the amount [a] from the sender [s] to the
    recipient [r] succeeds only when [1 <= a] and the number [a] stands for
    is at most [s.coins]; a request outside these bounds is rejected by the
    validator or by the balance check, before the transaction starts, and
    whenever success is not flashed the database is unchanged (no balance
    change, no ledger entry). On success exactly one ledger entry is
    recorded, with the two entries of [r] and [s]; when the sender's balance
    and the recipient's new balance are safe integers, [a <= s.coins], the
    deltas are [+a] and [-a] and, when [s] and [r] are different users,
    [s.coins] has decreased by [a] and [r.coins] has increased by [a]. *)
Theorem coin_transfer f now s r body d d' fl :
  post_transfer f now s r body d = (d', fl) ->
  (flashed success fl = false -> d' = d) /\
  (forall a u, body = Some a -> users d !! s = Some u -> enabled u = true ->
     a < 1 \/ coins u < toNumber a ->
     d' = d /\
     (fl = validation_error \/ fl = [(error, "Can transfer at most coins")])) /\
  (flashed success fl = true ->
   exists a u ur,
     body = Some a /\ users d !! s = Some u /\ users d !! r = Some ur /\
     1 <= a /\ toNumber a <= coins u /\
     (exists t, transactions d' = t :: transactions d /\
                entry_user <$> entries t = [r; s]) /\
     (safe (coins u) -> safe (coins ur + a) ->
      a <= coins u /\
      (exists t, transactions d' = t :: transactions d /\
                 delta <$> entries t = [a; - a]) /\
      (s <> r ->
       balance d' s = Some (coins u - a) /\ balance d' r = Some (coins ur + a)))).
Proof.
  intros H. split; [|split].
  - intros Hfl.
    destruct (post_transfer_cases _ _ _ _ _ _ _ _ H)
      as [(-> & _) | (a & u & ur & us & _ & _ & _ & _ & _ & _ & _ & _ & ->)];
      [reflexivity | discriminate Hfl].
  - intros a u -> Hu Hen Hbad.
    unfold post_transfer, authenticated in H. rewrite Hu, Hen in H.
    destruct (Z.leb_spec 1 (toNumber a)) as [Hmin|Hmin].
    + unfold transferCoins in H. simpl in H.
      destruct (Z.gtb_spec (toNumber a) (coins u)) as [Hmax|Hmax].
      * inversion H. auto.
      * exfalso. unfold toNumber in *.
        apply (proj1 (to_double_positive a)) in Hmin. lia.
    + inversion H. auto.
  - intros Hfl.
    destruct (post_transfer_cases _ _ _ _ _ _ _ _ H)
      as [(_ & Hno & _) | (a & u & ur & us & -> & Hu & _ & Hmin & Hmax & Hr & Hs & -> & _)];
      [congruence|].
    exists a, u, ur. repeat (split; [solve [auto]|]).
    split; [apply (proj1 (to_double_positive a)); exact Hmin|].
    split; [exact Hmax|].
    split; [eexists; split; reflexivity|].
    intros Hsu Hsr.
    assert (Ha : toNumber a = a).
    { apply to_double_safe_inv. unfold safe in *. unfold toNumber in *. lia. }
    rewrite Ha in *.
    assert (Hpos : 1 <= a) by lia.
    assert (Hcredit : num_add (coins ur) a = coins ur + a) by apply to_double_safe, Hsr.
    assert (Hdebit : num_add (coins u) (num_mul (-1) a) = coins u - a).
    { unfold num_add, num_mul. replace (-1 * a) with (- a) by lia.
      rewrite (to_double_safe (- a)) by (unfold safe in *; lia).
      apply to_double_safe. unfold safe in *. lia. }
    split; [exact Hmax|]. split.
    + eexists. split; [reflexivity|].
      unfold transfer_transaction, delta. cbn [entries fmap list_fmap newValue previousValue].
      rewrite Ha, Hcredit. f_equal; [lia|]. f_equal.
      destruct (decide (s = r)) as [->|Hne].
      * rewrite lookup_insert_eq in Hs. inversion Hs; subst us. cbn [coins set_coins].
        rewrite Hr in Hu. inversion Hu; subst u.
        rewrite Hcredit. unfold num_sub.
        replace (coins ur + a - a) with (coins ur) by lia.
        rewrite (to_double_safe _ Hsu). lia.
      * rewrite lookup_insert_ne in Hs by congruence.
        rewrite Hu in Hs. inversion Hs; subst us.
        unfold num_sub. rewrite to_double_safe by (unfold safe in *; lia). lia.
    + intros Hne. rewrite lookup_insert_ne in Hs by congruence.
      rewrite Hu in Hs. inversion Hs; subst us.
      unfold balance, transferred, transfer_users. simpl.
      rewrite lookup_insert_eq.
      rewrite lookup_insert_ne by congruence. rewrite lookup_insert_eq.
      simpl. rewrite Ha, Hcredit, Hdebit. split; reflexivity.
Qed.

Lemma coin_transfer_witness :
  let r := post_transfer no_faults 200 Scenario.B Scenario.A (Some 5) Scenario.start in
  flashed success (snd r) = true /\
  safe 7 /\ safe (0 + 5) /\
  balance (fst r) Scenario.B = Some (7 - 5) /\
  balance (fst r) Scenario.A = Some (0 + 5).
Proof.
  cbv zeta.
  pose proof (coin_transfer no_faults 200 Scenario.B Scenario.A (Some 5) Scenario.start
                (fst (post_transfer no_faults 200 Scenario.B Scenario.A (Some 5)
                        Scenario.start))
                (snd (post_transfer no_faults 200 Scenario.B Scenario.A (Some 5)
                        Scenario.start))
                eq_refl) as (_ & _ & H).
  assert (H7 : safe 7) by (unfold safe, MAX_SAFE_INTEGER; lia).
  assert (H5 : safe (0 + 5)) by (unfold safe, MAX_SAFE_INTEGER; lia).
  destruct (H eq_refl) as (a & u & ur & Ha & Hu & Hur & _ & _ & _ & Hbal).
  inversion Ha; subst a. inversion Hu; subst u. inversion Hur; subst ur.
  split; [reflexivity|]. split; [exact H7|]. split; [exact H5|].
  destruct (Hbal H7 H5) as (_ & _ & Hmoved). apply Hmoved. discriminate.
Defined.

(** Beyond the safe integers the amount that moves is the double the
    literal stands for: when B holds [2^53] coins, a transfer of the
    literal [2^53 + 1] to A passes the balance check and moves [2^53]
    coins. *)
Remark transfer_of_a_rounded_amount :
  let d := fst (post_setCoins no_faults 100 Scenario.A Scenario.B
                  (Some 9007199254740992) Scenario.start) in
  let r := post_transfer no_faults 200 Scenario.B Scenario.A
             (Some 9007199254740993) d in
  balance d Scenario.B = Some 9007199254740992 /\
  flashed success (snd r) = true /\
  balance (fst r) Scenario.B = Some 0 /\
  balance (fst r) Scenario.A = Some 9007199254740992.
Proof. vm_compute. auto. Qed.

(** C8 as stated fails when the sender is the recipient: B, holding 7 coins,
    transfers 5 coins to B; the transfer succeeds and records its two-entry
    ledger entry, and B's balance has neither decreased nor increased. *)
Lemma transfer_to_oneself_moves_nothing :
  let r := post_transfer no_faults 200 Scenario.B Scenario.B (Some 5) Scenario.start in
  balance Scenario.start Scenario.B = Some 7 /\
  flashed success (snd r) = true /\
  balance (fst r) Scenario.B = Some 7 /\
  balance (fst r) Scenario.B <> Some (7 - 5) /\
  balance (fst r) Scenario.B <> Some (7 + 5) /\
  (fun t => delta <$> entries t) <$> transactions (fst r) = [[5; -5]].
Proof.
  simpl. split; [reflexivity|]. split; [reflexivity|]. split; [reflexivity|].
  split; [discriminate|]. split; [discriminate | reflexivity].
Qed.

(** ** Every write to an order *)

Lemma logOrder_cases f now id p d d' fl :
  logOrder f now id p d = (d', fl) ->
  (d' = d /\ flashed success fl = false) \/
  (exists o u, orders d !! id = Some o /\ state o = Closed /\ users d !! p = Some u /\
               d' = settled now id p o u d /\ flashed success fl = true).
Proof.
  intros H. destruct (flashed success fl) eqn:Hfl.
  - right. destruct (logOrder_success _ _ _ _ _ _ _ H Hfl) as [t Hc].
    destruct (logOrder_chain_resolved _ _ _ _ _ _ _ Hc)
      as (o & u & Ho & Hst & Hu & _ & -> & _).
    exists o, u. auto.
  - left. destruct (logOrder_failure _ _ _ _ _ _ _ H Hfl) as [-> _]. auto.
Qed.

Lemma setCoins_orders f now admin id v d :
  orders (fst (setCoins f now admin id v d)) = orders d.
Proof.
  destruct (setCoins f now admin id v d) as [d' fl] eqn:H. simpl.
  destruct (flashed error fl) eqn:Hfl.
  - unfold setCoins in H.
    destruct (setCoins_chain f now admin id v d) as [w [t|err]].
    + inversion H; subst. discriminate Hfl.
    + destruct (negb (f (CallUpdateUser id)) && bool_decide (is_Some (users d !! id)));
        inversion H; reflexivity.
  - destruct (setCoins_committed _ _ _ _ _ _ _ _ H Hfl) as (u & _ & ->). reflexivity.
Qed.

Lemma post_setCoins_orders f now admin id body d :
  orders (fst (post_setCoins f now admin id body d)) = orders d.
Proof.
  unfold post_setCoins. destruct (authenticated d admin); [|reflexivity].
  destruct body; [apply setCoins_orders | reflexivity].
Qed.

Lemma post_transfer_orders f now s r body d :
  orders (fst (post_transfer f now s r body d)) = orders d.
Proof.
  destruct (post_transfer f now s r body d) as [d' fl] eqn:H. simpl.
  destruct (post_transfer_cases _ _ _ _ _ _ _ _ H)
    as [(-> & _) | (a & u & ur & us & _ & _ & _ & _ & _ & _ & _ & -> & _)];
    reflexivity.
Qed.

Lemma fresh_order_id (m : gmap nat Order) id o :
  m !! id = Some o -> fresh (dom m) <> id.
Proof.
  intros H Heq. apply (is_fresh (dom m)). rewrite Heq.
  apply elem_of_dom. eauto.
Qed.

Lemma closeOrderById_change now op fl id0 d id o :
  op = OpCloseOrder id0 \/ (exists due, op = OpRunJob (mkJob closeOrder id0 due)) ->
  orders d !! id = Some o ->
  exists o', orders (fst (closeOrderById now id0 d)) !! id = Some o' /\
             OrderChange now op fl id o o'.
Proof.
  intros Hop Ho. unfold closeOrderById.
  destruct (orders d !! id0) as [o0|] eqn:Ho0; [|exists o; split; [exact Ho|constructor]].
  destruct (in_states [Open; Closing] (state o0)) eqn:Hst;
    [|exists o; split; [exact Ho|constructor]].
  simpl. destruct (decide (id0 = id)) as [->|Hne].
  - rewrite Ho in Ho0. inversion Ho0; subst o0.
    eexists. split; [apply lookup_insert_eq|].
    apply WasClosed; assumption.
  - exists o. rewrite lookup_insert_ne by exact Hne. split; [exact Ho|constructor].
Qed.

Lemma participates_true u o : participates u o = true <-> u ∈ uo_user <$> userOrders o.
Proof. unfold participates. apply bool_decide_eq_true. Qed.

Lemma participates_false u o : participates u o = false <-> u ∉ uo_user <$> userOrders o.
Proof. unfold participates. apply bool_decide_eq_false. Qed.

Lemma joinOrder_change cfg now u id0 body d fl id o :
  orders d !! id = Some o ->
  exists o', orders (fst (joinOrder cfg u id0 body d)) !! id = Some o' /\
             OrderChange now (OpJoinOrder u id0 body) fl id o o'.
Proof.
  intros Ho. unfold joinOrder.
  destruct (orders d !! id0) as [o0|] eqn:Ho0; [|exists o; split; [exact Ho|constructor]].
  destruct (in_states [Open; Closing] (state o0)) eqn:Hst;
    [|exists o; split; [exact Ho|constructor]].
  destruct (participates u o0) eqn:Hp; [exists o; split; [exact Ho|constructor]|].
  simpl.
  destruct (find_orderType (orderTypes cfg) (location o0)) as [ty|];
    [|exists o; split; [exact Ho|constructor]].
  destruct (join_details body (fields ty)) as [ds|err];
    [|exists o; split; [exact Ho|constructor]].
  simpl. destruct (decide (id0 = id)) as [->|Hne].
  - rewrite Ho in Ho0. inversion Ho0; subst o0.
    eexists. split; [apply lookup_insert_eq|].
    apply (Joined _ _ _ _ _ u body ds); [reflexivity | exact Hst |].
    apply participates_false. exact Hp.
  - exists o. rewrite lookup_insert_ne by exact Hne. split; [exact Ho|constructor].
Qed.

Lemma leaveOrder_change now u id0 d fl id o :
  orders d !! id = Some o ->
  exists o', orders (fst (leaveOrder u id0 d)) !! id = Some o' /\
             OrderChange now (OpLeaveOrder u id0) fl id o o'.
Proof.
  intros Ho. unfold leaveOrder.
  destruct (orders d !! id0) as [o0|] eqn:Ho0; [|exists o; split; [exact Ho|constructor]].
  destruct (in_states [Open; Closing] (state o0)) eqn:Hst;
    [|exists o; split; [exact Ho|constructor]].
  destruct (participates u o0) eqn:Hp; [|exists o; split; [exact Ho|constructor]].
  simpl. destruct (decide (id0 = id)) as [->|Hne].
  - rewrite Ho in Ho0. inversion Ho0; subst o0.
    eexists. split; [apply lookup_insert_eq|].
    apply (Left _ _ _ _ _ u); [reflexivity | exact Hst |].
    apply participates_true. exact Hp.
  - exists o. rewrite lookup_insert_ne by exact Hne. split; [exact Ho|constructor].
Qed.

#[local] Arguments createOrder : simpl never.

(** Whatever the operation, an existing order stays in the collection and
    changes only in one of the ways of [OrderChange]. *)
Lemma step_order_change cfg now op s id o :
  orders (db s) !! id = Some o ->
  exists o',
    orders (db (fst (step cfg now op s))) !! id = Some o' /\
    OrderChange now op (snd (step cfg now op s)) id o o'.
Proof.
  intros Ho. destruct op as [type close | u id0 body | u id0 | id0 | id0 | f id0 p | j
                            | f u t c | f a id0 c | id0 | id0 | id0]; simpl.
  - exists o. split; [|constructor].
    destruct (createOrder_cases cfg now type close s)
      as [(ty & _ & _ & _ & Hc) | [_ Hc]]; rewrite Hc; [|exact Ho].
    cbn [fst db orders set_orders].
    rewrite lookup_insert_ne by (apply (fresh_order_id _ _ _ Ho)). exact Ho.
  - unfold as_user. destruct (authenticated (db s) u); simpl.
    + apply joinOrder_change. exact Ho.
    + exists o. split; [exact Ho|constructor].
  - unfold as_user. destruct (authenticated (db s) u); simpl.
    + apply leaveOrder_change. exact Ho.
    + exists o. split; [exact Ho|constructor].
  - destruct (closeOrderById_change now (OpCloseOrder id0)
                (snd (closeOrder_route now id0 s)) id0 (db s) id o) as (o' & Ho' & Hch);
      [left; reflexivity | exact Ho |].
    exists o'. split; [|exact Hch].
    unfold closeOrder_route.
    destruct (closeOrderById now id0 (db s)) as [d' [x|err]]; exact Ho'.
  - unfold cancelOrder. simpl.
    destruct (orders (db s) !! id0) as [o0|] eqn:Ho0;
      [|exists o; split; [exact Ho|constructor]].
    destruct (in_states [Open; Closing; Closed] (state o0)) eqn:Hst;
      [|exists o; split; [exact Ho|constructor]].
    simpl. destruct (decide (id0 = id)) as [->|Hne].
    + rewrite Ho in Ho0. inversion Ho0; subst o0.
      eexists. split; [apply lookup_insert_eq|].
      apply WasCancelled; [reflexivity | exact Hst].
    + exists o. rewrite lookup_insert_ne by exact Hne. split; [exact Ho|constructor].
  - destruct (logOrder f now id0 p (db s)) as [d' fl] eqn:Hlog. simpl.
    destruct (logOrder_cases _ _ _ _ _ _ _ Hlog)
      as [(-> & _) | (o0 & u0 & Ho0 & Hst & _ & -> & Hfl)].
    + exists o. split; [exact Ho|constructor].
    + simpl. destruct (decide (id0 = id)) as [->|Hne].
      * rewrite Ho in Ho0. inversion Ho0; subst o0.
        eexists. split; [apply lookup_insert_eq|].
        apply (WasArchived _ _ _ _ _ f p); auto.
      * exists o. rewrite lookup_insert_ne by exact Hne. split; [exact Ho|constructor].
  - unfold run_job.
    destruct (bool_decide (j ∈ jobs s) && (nextRunAt j <=? now));
      [|exists o; split; [exact Ho|constructor]].
    destruct j as [name id0 due]. simpl. destruct name.
    + unfold closingOrder_job. simpl.
      destruct (orders (db s) !! id0) as [o0|] eqn:Ho0;
        [|exists o; split; [exact Ho|constructor]].
      destruct (bool_decide (state o0 = Open)) eqn:Hst;
        [|exists o; split; [exact Ho|constructor]].
      apply bool_decide_eq_true_1 in Hst.
      assert (Hgoal : exists o',
                <[id0 := set_state Closing o0]> (orders (db s)) !! id = Some o' /\
                OrderChange now (OpRunJob (mkJob closingOrder id0 due)) [] id o o').
      { destruct (decide (id0 = id)) as [->|Hne].
        - rewrite Ho in Ho0. inversion Ho0; subst o0.
          eexists. split; [apply lookup_insert_eq|].
          apply (MovedToClosing _ _ _ _ _ due); [reflexivity | exact Hst].
        - exists o. rewrite lookup_insert_ne by exact Hne. split; [exact Ho|constructor]. }
      destruct (forallb _ _); exact Hgoal.
    + unfold closeOrder_job. simpl.
      apply closeOrderById_change; [right; eexists; reflexivity | exact Ho].
  - rewrite post_transfer_orders. exists o. split; [exact Ho|constructor].
  - rewrite post_setCoins_orders. exists o. split; [exact Ho|constructor].
  - unfold set_user_enabled. destruct (users (db s) !! id0);
      exists o; (split; [exact Ho|constructor]).
  - unfold set_user_enabled. destruct (users (db s) !! id0);
      exists o; (split; [exact Ho|constructor]).
  - unfold deleteUser. destruct (users (db s) !! id0) as [u0|];
      [destruct (enabled u0)|]; exists o; (split; [exact Ho|constructor]).
Qed.

(** ** Participants are distinct *)

Lemma change_keeps_participants_unique now op fl id o o' :
  OrderChange now op fl id o o' ->
  NoDup (uo_user <$> userOrders o) -> NoDup (uo_user <$> userOrders o').
Proof.
  intros Hch Hnd. destruct Hch; simpl; try exact Hnd.
  - rewrite fmap_app. apply NoDup_app. split; [exact Hnd|]. split.
    + intros x Hx Hx'. simpl in Hx'. apply list_elem_of_singleton in Hx'. subst x.
      contradiction.
    + simpl. apply NoDup_singleton.
  - clear -Hnd. induction (userOrders o) as [|uo l IH]; [constructor|].
    simpl in Hnd. apply NoDup_cons in Hnd as [Hnotin Hnd].
    rewrite filter_cons. destruct (decide (uo_user uo <> u)).
    + rewrite fmap_cons. apply NoDup_cons. split; [|apply IH; exact Hnd].
      intros Hin. apply Hnotin. apply list_elem_of_fmap in Hin as (x & Hx & Hin).
      apply list_elem_of_filter in Hin as [_ Hin].
      apply list_elem_of_fmap. exists x. auto.
    + apply IH. exact Hnd.
  - constructor.
Qed.

(** Only [createOrder] adds an order to the collection: it adds it [Open]
    and without participants. *)
Lemma step_new_order cfg now op s id o' :
  orders (db s) !! id = None ->
  orders (db (fst (step cfg now op s))) !! id = Some o' ->
  state o' = Open /\ userOrders o' = [].
Proof.
  intros Ho Ho'.
  destruct op as [type close | u id0 body | u id0 | id0 | id0 | f id0 p | j
                 | f u t c | f a id0 c | id0 | id0 | id0]; simpl in Ho'.
  - destruct (createOrder_cases cfg now type close s)
      as [(ty & _ & _ & _ & Hc) | [_ Hc]]; rewrite Hc in Ho'; [|simpl in Ho'; congruence].
    cbn [fst db orders set_orders] in Ho'.
    destruct (decide (fresh (dom (orders (db s))) = id)) as [Heq|Hne].
    + rewrite Heq, lookup_insert_eq in Ho'. inversion Ho'; subst o'. auto.
    + rewrite lookup_insert_ne in Ho' by exact Hne. congruence.
  - exfalso. unfold as_user in Ho'.
    destruct (authenticated (db s) u); simpl in Ho'; [|congruence].
    unfold joinOrder in Ho'.
    destruct (orders (db s) !! id0) as [o0|] eqn:Ho0; [|simpl in Ho'; congruence].
    destruct (in_states [Open; Closing] (state o0) && negb (participates u o0));
      [|simpl in Ho'; congruence].
    destruct (find_orderType (orderTypes cfg) (location o0)) as [ty|];
      [|simpl in Ho'; congruence].
    destruct (join_details body (fields ty)); simpl in Ho'; [|congruence].
    destruct (decide (id0 = id)) as [->|Hne]; [congruence|].
    rewrite lookup_insert_ne in Ho' by exact Hne. congruence.
  - exfalso. unfold as_user in Ho'.
    destruct (authenticated (db s) u); simpl in Ho'; [|congruence].
    unfold leaveOrder in Ho'.
    destruct (orders (db s) !! id0) as [o0|] eqn:Ho0; [|simpl in Ho'; congruence].
    destruct (in_states [Open; Closing] (state o0) && participates u o0);
      simpl in Ho'; [|congruence].
    destruct (decide (id0 = id)) as [->|Hne]; [congruence|].
    rewrite lookup_insert_ne in Ho' by exact Hne. congruence.
  - exfalso. unfold closeOrder_route, closeOrderById in Ho'.
    destruct (orders (db s) !! id0) as [o0|] eqn:Ho0; [|simpl in Ho'; congruence].
    destruct (in_states [Open; Closing] (state o0)); simpl in Ho'; [|congruence].
    destruct (decide (id0 = id)) as [->|Hne]; [congruence|].
    rewrite lookup_insert_ne in Ho' by exact Hne. congruence.
  - exfalso. unfold cancelOrder in Ho'. simpl in Ho'.
    destruct (orders (db s) !! id0) as [o0|] eqn:Ho0; [|congruence].
    destruct (in_states [Open; Closing; Closed] (state o0)); simpl in Ho'; [|congruence].
    destruct (decide (id0 = id)) as [->|Hne]; [congruence|].
    rewrite lookup_insert_ne in Ho' by exact Hne. congruence.
  - exfalso. destruct (logOrder f now id0 p (db s)) as [d' fl] eqn:Hlog. simpl in Ho'.
    destruct (logOrder_cases _ _ _ _ _ _ _ Hlog)
      as [(-> & _) | (o0 & u0 & Ho0 & Hst & _ & -> & Hfl)]; [congruence|].
    simpl in Ho'. destruct (decide (id0 = id)) as [->|Hne]; [congruence|].
    rewrite lookup_insert_ne in Ho' by exact Hne. congruence.
  - exfalso. unfold run_job in Ho'.
    destruct (bool_decide (j ∈ jobs s) && (nextRunAt j <=? now)); [|congruence].
    destruct j as [name id0 due]. simpl in Ho'. destruct name.
    + unfold closingOrder_job in Ho'. simpl in Ho'.
      destruct (orders (db s) !! id0) as [o0|] eqn:Ho0; [|simpl in Ho'; congruence].
      destruct (bool_decide (state o0 = Open)); [|simpl in Ho'; congruence].
      assert (Hl : <[id0 := set_state Closing o0]> (orders (db s)) !! id = Some o').
      { destruct (forallb _ _); exact Ho'. }
      destruct (decide (id0 = id)) as [->|Hne]; [congruence|].
      rewrite lookup_insert_ne in Hl by exact Hne. congruence.
    + unfold closeOrder_job, closeOrderById in Ho'. simpl in Ho'.
      destruct (orders (db s) !! id0) as [o0|] eqn:Ho0; [|simpl in Ho'; congruence].
      destruct (in_states [Open; Closing] (state o0)); simpl in Ho'; [|congruence].
      destruct (decide (id0 = id)) as [->|Hne]; [congruence|].
      rewrite lookup_insert_ne in Ho' by exact Hne. congruence.
  - exfalso. rewrite post_transfer_orders in Ho'. congruence.
  - exfalso. rewrite post_setCoins_orders in Ho'. congruence.
  - exfalso. unfold set_user_enabled in Ho'.
    destruct (users (db s) !! id0); simpl in Ho'; congruence.
  - exfalso. unfold set_user_enabled in Ho'.
    destruct (users (db s) !! id0); simpl in Ho'; congruence.
  - exfalso. unfold deleteUser in Ho'.
    destruct (users (db s) !! id0) as [u0|]; [destruct (enabled u0)|];
      simpl in Ho'; congruence.
Qed.

(** Orders are created without participants and no operation makes a user
    participate twice: in every state reached from one with distinct
    participants, participants are distinct. *)
Lemma step_keeps_participants_unique cfg now op s :
  unique_participants (db s) ->
  unique_participants (db (fst (step cfg now op s))).
Proof.
  intros Hu id o' Ho'.
  destruct (orders (db s) !! id) as [o|] eqn:Ho.
  - destruct (step_order_change cfg now op s id o Ho) as (o'' & Ho'' & Hch).
    rewrite Ho' in Ho''. inversion Ho''; subst o''.
    apply (change_keeps_participants_unique _ _ _ _ _ _ Hch). apply (Hu id o Ho).
  - destruct (step_new_order cfg now op s id o' Ho Ho') as [_ ->]. constructor.
Qed.

Lemma run_keeps_participants_unique cfg ops : forall s,
  unique_participants (db s) -> unique_participants (db (run cfg ops s)).
Proof.
  induction ops as [|[now op] ops IH]; intros s Hu; [exact Hu|].
  simpl. apply IH, step_keeps_participants_unique, Hu.
Qed.

(** ** At most one settlement *)

Lemma archived_is_final now op fl id o o' :
  OrderChange now op fl id o o' -> state o = Archived -> o' = o.
Proof.
  intros Hch Hst.
  destruct Hch as [ | ? ? ? ? H | ? ? H | ? ? H | ? H | ? H | ? ? ? ? H];
    try reflexivity; rewrite Hst in H; discriminate H.
Qed.

Lemma step_keeps_archived cfg now op s id :
  order_state (db s) id = Some Archived ->
  order_state (db (fst (step cfg now op s))) id = Some Archived.
Proof.
  unfold order_state. intros H.
  destruct (orders (db s) !! id) as [o|] eqn:Ho; [|discriminate H].
  simpl in H. inversion H as [Hst].
  destruct (step_order_change cfg now op s id o Ho) as (o' & Ho' & Hch).
  rewrite Ho'. rewrite (archived_is_final _ _ _ _ _ _ Hch Hst). simpl. congruence.
Qed.

Lemma run_keeps_archived cfg ops id : forall s,
  order_state (db s) id = Some Archived ->
  order_state (db (run cfg ops s)) id = Some Archived.
Proof.
  induction ops as [|[now op] ops IH]; intros s H; [exact H|].
  simpl. apply IH, step_keeps_archived, H.
Qed.

Lemma archived_by_settlement cfg now op s id :
  order_state (db s) id <> Some Archived ->
  order_state (db (fst (step cfg now op s))) id = Some Archived ->
  order_state (db s) id = Some Closed /\
  exists f p, op = OpLogOrder f id p /\
              flashed success (snd (step cfg now op s)) = true.
Proof.
  unfold order_state. intros Hbefore Hafter.
  destruct (orders (db s) !! id) as [o|] eqn:Ho.
  - destruct (step_order_change cfg now op s id o Ho) as (o' & Ho' & Hch).
    rewrite Ho' in Hafter. simpl in Hafter, Hbefore. inversion Hafter as [Hst'].
    destruct Hch as [ | ? ? ? _ _ _ | ? _ _ _ | ? _ _ | _ _ | _ _ | f p Hop Hfl Hst];
      simpl in Hst'; try congruence.
    + destruct (0 <? length (userOrders o))%nat; discriminate Hst'.
    + split; [simpl; congruence|]. exists f, p. auto.
  - destruct (orders (db (fst (step cfg now op s))) !! id) as [o'|] eqn:Ho';
      [|discriminate Hafter].
    destruct (step_new_order cfg now op s id o' Ho Ho') as [Hst _].
    simpl in Hafter. congruence.
Qed.

(** C4. An order is settled at most once. A settlement happens only on an
    order that resolves as [Closed] and leaves it [Archived]; whatever
    operations follow, the order stays [Archived] and a further settlement
    of it fails and changes nothing (no balance is touched again). And in
    any state, an order that becomes [Archived] by an operation was [Closed]
    and the operation was a settlement of that order that succeeded. *)
Theorem settled_at_most_once cfg f now id p s :
  flashed success (snd (step cfg now (OpLogOrder f id p) s)) = true ->
  order_state (db s) id = Some Closed /\
  order_state (db (fst (step cfg now (OpLogOrder f id p) s))) id = Some Archived /\
  (forall ops f' now' p',
     order_state (db (run cfg ops (fst (step cfg now (OpLogOrder f id p) s)))) id
       = Some Archived /\
     logOrder f' now' id p'
       (db (run cfg ops (fst (step cfg now (OpLogOrder f id p) s))))
     = (db (run cfg ops (fst (step cfg now (OpLogOrder f id p) s))),
        [(error, "Failed to log order")])) /\
  (forall s0 now0 op id0,
     order_state (db s0) id0 <> Some Archived ->
     order_state (db (fst (step cfg now0 op s0))) id0 = Some Archived ->
     order_state (db s0) id0 = Some Closed /\
     exists f0 p0, op = OpLogOrder f0 id0 p0 /\
                   flashed success (snd (step cfg now0 op s0)) = true).
Proof.
  intros Hfl. simpl in *.
  destruct (logOrder f now id p (db s)) as [d' fl] eqn:Hlog. simpl in *.
  destruct (logOrder_cases _ _ _ _ _ _ _ Hlog)
    as [(_ & Hno) | (o & u & Ho & Hst & _ & -> & _)]; [congruence|].
  assert (Harch : order_state (settled now id p o u (db s)) id = Some Archived).
  { unfold order_state, settled. simpl. rewrite lookup_insert_eq. reflexivity. }
  split; [unfold order_state; rewrite Ho; simpl; congruence|].
  split; [exact Harch|]. split.
  - intros ops f' now' p'.
    pose proof (run_keeps_archived cfg ops id
                  {| db := settled now id p o u (db s); jobs := jobs s |} Harch) as Hkeep.
    split; [exact Hkeep|].
    apply logOrder_rejects. left. rewrite Hkeep. discriminate.
  - intros s0 now0 op id0. apply archived_by_settlement.
Qed.

Lemma settled_at_most_once_witness :
  let s := {| db := Scenario.start; jobs := [] |} in
  let s1 := fst (step Scenario.cfg 200
                   (OpLogOrder no_faults Scenario.order_id Scenario.A) s) in
  flashed success
    (snd (step Scenario.cfg 200 (OpLogOrder no_faults Scenario.order_id Scenario.A) s))
    = true /\
  logOrder no_faults 300 Scenario.order_id Scenario.B
    (db (run Scenario.cfg [(250, OpCancelOrder Scenario.order_id)] s1))
  = (db (run Scenario.cfg [(250, OpCancelOrder Scenario.order_id)] s1),
     [(error, "Failed to log order")]).
Proof.
  simpl. split; [reflexivity|].
  pose proof (settled_at_most_once Scenario.cfg no_faults 200 Scenario.order_id
                Scenario.A {| db := Scenario.start; jobs := [] |} eq_refl)
    as (_ & _ & H & _).
  exact (proj2 (H [(250, OpCancelOrder Scenario.order_id)] no_faults 300 Scenario.B)).
Defined.

(** ** Joining and leaving *)

Lemma joinOrder_rejected cfg u id body d o :
  orders d !! id = Some o ->
  in_states [Open; Closing] (state o) = false \/ u ∈ uo_user <$> userOrders o ->
  joinOrder cfg u id body d =
    (d, [(error, "Failed to join order; it may already be closed")]).
Proof.
  intros Ho H. unfold joinOrder. rewrite Ho.
  destruct H as [-> | Hin]; [reflexivity|].
  rewrite (proj2 (participates_true u o) Hin).
  rewrite andb_false_r. reflexivity.
Qed.

Lemma leaveOrder_rejected u id d o :
  orders d !! id = Some o ->
  in_states [Open; Closing] (state o) = false \/ u ∉ uo_user <$> userOrders o ->
  leaveOrder u id d =
    (d, [(error, "Failed to leave order; it may already be closed")]).
Proof.
  intros Ho H. unfold leaveOrder. rewrite Ho.
  destruct H as [-> | Hin]; [reflexivity|].
  rewrite (proj2 (participates_false u o) Hin).
  rewrite andb_false_r. reflexivity.
Qed.

(** C7, as amended. Joining and leaving change the participants of an order
    only while it is [Open] or [Closing]: a join by a user already in the
    list, a leave by a user not in the list, and any join or leave against
    an order that is [Closed], [Archived] or [Cancelled] is rejected and
    leaves the database unchanged. Over all operations, the participants of
    an order change only while it is [Open] or [Closing], with one
    exception: cancelling a [Closed] order empties its list. *)
Theorem participants_change_only_while_open cfg u id body d o :
  orders d !! id = Some o ->
  (u ∈ uo_user <$> userOrders o ->
   joinOrder cfg u id body d =
     (d, [(error, "Failed to join order; it may already be closed")])) /\
  (u ∉ uo_user <$> userOrders o ->
   leaveOrder u id d =
     (d, [(error, "Failed to leave order; it may already be closed")])) /\
  (state o = Closed \/ state o = Archived \/ state o = Cancelled ->
   joinOrder cfg u id body d =
     (d, [(error, "Failed to join order; it may already be closed")]) /\
   leaveOrder u id d =
     (d, [(error, "Failed to leave order; it may already be closed")])) /\
  (forall now op s l l',
     participants (db s) id = Some l ->
     participants (db (fst (step cfg now op s))) id = Some l' ->
     l' <> l ->
     order_state (db s) id = Some Open \/ order_state (db s) id = Some Closing \/
     (order_state (db s) id = Some Closed /\ op = OpCancelOrder id /\ l' = [])).
Proof.
  intros Ho. split; [|split; [|split]].
  - intros Hin. apply (joinOrder_rejected cfg u id body d o Ho). right. exact Hin.
  - intros Hout. apply (leaveOrder_rejected u id d o Ho). right. exact Hout.
  - intros Hst.
    assert (Hno : in_states [Open; Closing] (state o) = false).
    { destruct Hst as [-> | [-> | ->]]; reflexivity. }
    split.
    + apply (joinOrder_rejected cfg u id body d o Ho). left. exact Hno.
    + apply (leaveOrder_rejected u id d o Ho). left. exact Hno.
  - clear. intros now op s l l'. unfold participants, order_state.
    destruct (orders (db s) !! id) as [o|] eqn:Ho; [|discriminate].
    destruct (step_order_change cfg now op s id o Ho) as (o' & Ho' & Hch).
    rewrite Ho'. simpl. intros Hl Hl' Hne.
    inversion Hl; subst l. inversion Hl'; subst l'. clear Hl Hl'.
    assert (Hopen : forall st, in_states [Open; Closing] st = true ->
                      st = Open \/ st = Closing).
    { intros st H. destruct st; try discriminate H; auto. }
    destruct Hch as [ | ? ? ? _ H _ | ? _ H _ | ? _ H | _ H | Hop H | ? ? _ _ H];
      simpl in Hne; try contradiction.
    + destruct (Hopen _ H) as [-> | ->]; auto.
    + destruct (Hopen _ H) as [-> | ->]; auto.
    + destruct (state o) eqn:Hst; try discriminate H; auto 6.
Qed.

Lemma participants_change_only_while_open_witness :
  (orders Scenario.start !! Scenario.order_id = Some Scenario.tenders /\
   (state Scenario.tenders = Closed \/ state Scenario.tenders = Archived \/
    state Scenario.tenders = Cancelled)) /\
  joinOrder Scenario.cfg Scenario.D Scenario.order_id ∅ Scenario.start =
    (Scenario.start, [(error, "Failed to join order; it may already be closed")]) /\
  leaveOrder Scenario.A Scenario.order_id Scenario.start =
    (Scenario.start, [(error, "Failed to leave order; it may already be closed")]).
Proof.
  split; [split; [reflexivity | left; reflexivity]|].
  split.
  - exact (proj1 (proj1 (proj2 (proj2
      (participants_change_only_while_open Scenario.cfg Scenario.D Scenario.order_id ∅
         Scenario.start Scenario.tenders eq_refl))) (or_introl eq_refl))).
  - exact (proj2 (proj1 (proj2 (proj2
      (participants_change_only_while_open Scenario.cfg Scenario.A Scenario.order_id ∅
         Scenario.start Scenario.tenders eq_refl))) (or_introl eq_refl))).
Defined.

(** C7 as stated fails: cancelling the order of the scenario, which is
    [Closed] and has the participants A, B, C, leaves it without
    participants. *)
Lemma cancel_empties_a_closed_order :
  let s := {| db := Scenario.start; jobs := [] |} in
  let s' := fst (step Scenario.cfg 2000 (OpCancelOrder Scenario.order_id) s) in
  order_state (db s) Scenario.order_id = Some Closed /\
  participants (db s) Scenario.order_id = Some [Scenario.A; Scenario.B; Scenario.C] /\
  participants (db s') Scenario.order_id = Some [] /\
  participants (db s') Scenario.order_id <> participants (db s) Scenario.order_id.
Proof.
  simpl. split; [reflexivity|]. split; [reflexivity|]. split; [reflexivity|].
  discriminate.
Qed.

(** * Further properties of the routers *)

(** ** The order state machine *)

Lemma change_follows_machine now op fl id o o' :
  OrderChange now op fl id o o' ->
  state o' = state o \/ transition (state o) (state o') = true.
Proof.
  intros Hch.
  destruct Hch as [ | ? ? ? _ _ _ | ? _ _ _ | ? _ Hst | _ Hst | _ Hst | ? ? _ _ Hst];
    simpl; auto.
  - right. rewrite Hst. reflexivity.
  - right. destruct (state o); try discriminate Hst;
      destruct (0 <? length (userOrders o))%nat; reflexivity.
  - destruct (state o); try discriminate Hst; auto.
  - right. rewrite Hst. reflexivity.
Qed.

Lemma terminal_is_final now op fl id o o' :
  OrderChange now op fl id o o' -> terminal (state o) = true -> o' = o.
Proof.
  intros Hch Hst.
  destruct Hch as [ | ? ? ? ? H | ? ? H | ? ? H | ? H | ? H | ? ? ? ? H];
    try reflexivity; destruct (state o); try discriminate Hst; discriminate H.
Qed.

(** X1. Whatever request or job runs, an existing order stays in the
    collection and its state either stays or moves along one edge of the
    machine Open -> Closing -> Closed -> Archived, with Cancelled reachable
    from Open, Closing and Closed; an order that is Archived or Cancelled is
    never written again. *)
Theorem order_moves_along_the_machine cfg now op s id o :
  orders (db s) !! id = Some o ->
  exists o',
    orders (db (fst (step cfg now op s))) !! id = Some o' /\
    (state o' = state o \/ transition (state o) (state o') = true) /\
    (terminal (state o) = true -> o' = o).
Proof.
  intros Ho.
  destruct (step_order_change cfg now op s id o Ho) as (o' & Ho' & Hch).
  exists o'. split; [exact Ho'|]. split.
  - apply (change_follows_machine _ _ _ _ _ _ Hch).
  - apply (terminal_is_final _ _ _ _ _ _ Hch).
Qed.

Lemma order_moves_along_the_machine_witness :
  orders Scenario.start !! Scenario.order_id = Some Scenario.tenders /\
  exists o',
    orders (db (fst (step Scenario.cfg 2000 (OpCancelOrder Scenario.order_id)
                       {| db := Scenario.start; jobs := [] |}))) !! Scenario.order_id
      = Some o' /\
    (state o' = Closed \/ transition Closed (state o') = true).
Proof.
  split; [reflexivity|].
  destruct (order_moves_along_the_machine Scenario.cfg 2000
              (OpCancelOrder Scenario.order_id)
              {| db := Scenario.start; jobs := [] |} Scenario.order_id
              Scenario.tenders eq_refl) as (o' & Ho' & Hst & _).
  exists o'. split; [exact Ho' | exact Hst].
Defined.

Lemma change_keeps_identity now op fl id o o' :
  OrderChange now op fl id o o' ->
  openDate o' = openDate o /\ location o' = location o /\
  description o' = description o /\ cost o' = cost o.
Proof. intros Hch. destruct Hch; simpl; auto. Qed.

Lemma run_order_exists cfg ops id : forall s o,
  orders (db s) !! id = Some o ->
  exists o', orders (db (run cfg ops s)) !! id = Some o'.
Proof.
  induction ops as [|[now op] ops IH]; intros s o Ho; [eauto|].
  simpl. destruct (step_order_change cfg now op s id o Ho) as (o1 & Ho1 & _).
  apply (IH _ o1 Ho1).
Qed.

(** X2. The terms of an order are fixed at its creation: over any history of
    requests and jobs, its opening date, location, description and
    per-participant cost stay what they were. *)
Theorem order_terms_are_fixed cfg ops : forall s id o,
  orders (db s) !! id = Some o ->
  exists o',
    orders (db (run cfg ops s)) !! id = Some o' /\
    openDate o' = openDate o /\ location o' = location o /\
    description o' = description o /\ cost o' = cost o.
Proof.
  induction ops as [|[now op] ops IH]; intros s id o Ho.
  - exists o. auto.
  - simpl. destruct (step_order_change cfg now op s id o Ho) as (o1 & Ho1 & Hch).
    destruct (change_keeps_identity _ _ _ _ _ _ Hch) as (H1 & H2 & H3 & H4).
    destruct (IH _ id o1 Ho1) as (o' & Ho' & K1 & K2 & K3 & K4).
    exists o'. split; [exact Ho'|]. repeat split; congruence.
Qed.

Lemma order_terms_are_fixed_witness :
  orders Scenario.start !! Scenario.order_id = Some Scenario.tenders /\
  exists o',
    orders (db (run Scenario.cfg
                  [(200, OpLogOrder no_faults Scenario.order_id Scenario.A);
                   (300, OpCancelOrder Scenario.order_id)]
                  {| db := Scenario.start; jobs := [] |})) !! Scenario.order_id
      = Some o' /\
    cost o' = 5.
Proof.
  split; [reflexivity|].
  destruct (order_terms_are_fixed Scenario.cfg
              [(200, OpLogOrder no_faults Scenario.order_id Scenario.A);
               (300, OpCancelOrder Scenario.order_id)]
              {| db := Scenario.start; jobs := [] |} Scenario.order_id
              Scenario.tenders eq_refl) as (o' & Ho' & _ & _ & _ & Hc).
  exists o'. split; [exact Ho' | exact Hc].
Defined.

Lemma change_keeps_purchaser_iff_archived now op fl id o o' :
  OrderChange now op fl id o o' ->
  (state o = Archived <-> is_Some (purchaser o)) ->
  (state o' = Archived <-> is_Some (purchaser o')).
Proof.
  intros Hch Hinv.
  destruct Hch as [ | ? ? ? _ _ _ | ? _ _ _ | ? _ Hst | _ Hst | _ Hst | ? ? _ _ Hst];
    simpl; try exact Hinv.
  - split; [discriminate|]. intros Hp. apply Hinv in Hp. congruence.
  - split.
    + destruct (0 <? length (userOrders o))%nat; discriminate.
    + intros Hp. apply Hinv in Hp. rewrite Hp in Hst. discriminate Hst.
  - split; [discriminate|]. intros Hp. apply Hinv in Hp. rewrite Hp in Hst.
    discriminate Hst.
  - split; eauto.
Qed.

(** An order that appears in the collection was created by [createOrder],
    with the fields [createOrder] gives it. *)
Lemma step_created_order cfg now op s id o' :
  orders (db s) !! id = None ->
  orders (db (fst (step cfg now op s))) !! id = Some o' ->
  exists type close,
    op = OpCreateOrder type close /\
    o' = {| openDate := now; closeDate := close; location := type;
            description :=
              match find_orderType (orderTypes cfg) type with
              | Some t => type_description t | None => "" end;
            cost :=
              match find_orderType (orderTypes cfg) type with
              | Some t => type_cost t | None => 1 end;
            state := Open; userOrders := []; purchaser := None |}.
Proof.
  intros Ho Ho'.
  destruct op as [type close | u id0 body | u id0 | id0 | id0 | f id0 p | j
                 | f u t c | f a id0 c | id0 | id0 | id0]; simpl in Ho'.
  - destruct (createOrder_cases cfg now type close s)
      as [(ty & Hty & _ & _ & Hc) | [_ Hc]]; rewrite Hc in Ho'; [|simpl in Ho'; congruence].
    cbn [fst db orders set_orders] in Ho'.
    destruct (decide (fresh (dom (orders (db s))) = id)) as [Heq|Hne].
    + rewrite Heq, lookup_insert_eq in Ho'. inversion Ho'; subst o'.
      exists type, close. rewrite Hty. split; reflexivity.
    + rewrite lookup_insert_ne in Ho' by exact Hne. congruence.
  - exfalso. unfold as_user in Ho'.
    destruct (authenticated (db s) u); simpl in Ho'; [|congruence].
    unfold joinOrder in Ho'.
    destruct (orders (db s) !! id0) as [o0|] eqn:Ho0; [|simpl in Ho'; congruence].
    destruct (in_states [Open; Closing] (state o0) && negb (participates u o0));
      [|simpl in Ho'; congruence].
    destruct (find_orderType (orderTypes cfg) (location o0)) as [ty|];
      [|simpl in Ho'; congruence].
    destruct (join_details body (fields ty)); simpl in Ho'; [|congruence].
    destruct (decide (id0 = id)) as [->|Hne]; [congruence|].
    rewrite lookup_insert_ne in Ho' by exact Hne. congruence.
  - exfalso. unfold as_user in Ho'.
    destruct (authenticated (db s) u); simpl in Ho'; [|congruence].
    unfold leaveOrder in Ho'.
    destruct (orders (db s) !! id0) as [o0|] eqn:Ho0; [|simpl in Ho'; congruence].
    destruct (in_states [Open; Closing] (state o0) && participates u o0);
      simpl in Ho'; [|congruence].
    destruct (decide (id0 = id)) as [->|Hne]; [congruence|].
    rewrite lookup_insert_ne in Ho' by exact Hne. congruence.
  - exfalso. unfold closeOrder_route, closeOrderById in Ho'.
    destruct (orders (db s) !! id0) as [o0|] eqn:Ho0; [|simpl in Ho'; congruence].
    destruct (in_states [Open; Closing] (state o0)); simpl in Ho'; [|congruence].
    destruct (decide (id0 = id)) as [->|Hne]; [congruence|].
    rewrite lookup_insert_ne in Ho' by exact Hne. congruence.
  - exfalso. unfold cancelOrder in Ho'. simpl in Ho'.
    destruct (orders (db s) !! id0) as [o0|] eqn:Ho0; [|congruence].
    destruct (in_states [Open; Closing; Closed] (state o0)); simpl in Ho'; [|congruence].
    destruct (decide (id0 = id)) as [->|Hne]; [congruence|].
    rewrite lookup_insert_ne in Ho' by exact Hne. congruence.
  - exfalso. destruct (logOrder f now id0 p (db s)) as [d' fl] eqn:Hlog. simpl in Ho'.
    destruct (logOrder_cases _ _ _ _ _ _ _ Hlog)
      as [(-> & _) | (o0 & u0 & Ho0 & Hst & _ & -> & Hfl)]; [congruence|].
    simpl in Ho'. destruct (decide (id0 = id)) as [->|Hne]; [congruence|].
    rewrite lookup_insert_ne in Ho' by exact Hne. congruence.
  - exfalso. unfold run_job in Ho'.
    destruct (bool_decide (j ∈ jobs s) && (nextRunAt j <=? now)); [|congruence].
    destruct j as [name id0 due]. simpl in Ho'. destruct name.
    + unfold closingOrder_job in Ho'. simpl in Ho'.
      destruct (orders (db s) !! id0) as [o0|] eqn:Ho0; [|simpl in Ho'; congruence].
      destruct (bool_decide (state o0 = Open)); [|simpl in Ho'; congruence].
      assert (Hl : <[id0 := set_state Closing o0]> (orders (db s)) !! id = Some o').
      { destruct (forallb _ _); exact Ho'. }
      destruct (decide (id0 = id)) as [->|Hne]; [congruence|].
      rewrite lookup_insert_ne in Hl by exact Hne. congruence.
    + unfold closeOrder_job, closeOrderById in Ho'. simpl in Ho'.
      destruct (orders (db s) !! id0) as [o0|] eqn:Ho0; [|simpl in Ho'; congruence].
      destruct (in_states [Open; Closing] (state o0)); simpl in Ho'; [|congruence].
      destruct (decide (id0 = id)) as [->|Hne]; [congruence|].
      rewrite lookup_insert_ne in Ho' by exact Hne. congruence.
  - exfalso. rewrite post_transfer_orders in Ho'. congruence.
  - exfalso. rewrite post_setCoins_orders in Ho'. congruence.
  - exfalso. unfold set_user_enabled in Ho'.
    destruct (users (db s) !! id0); simpl in Ho'; congruence.
  - exfalso. unfold set_user_enabled in Ho'.
    destruct (users (db s) !! id0); simpl in Ho'; congruence.
  - exfalso. unfold deleteUser in Ho'.
    destruct (users (db s) !! id0) as [u0|]; [destruct (enabled u0)|];
      simpl in Ho'; congruence.
Qed.

Lemma step_keeps_purchaser_iff_archived cfg now op s :
  purchaser_iff_archived (db s) ->
  purchaser_iff_archived (db (fst (step cfg now op s))).
Proof.
  intros Hinv id o' Ho'.
  destruct (orders (db s) !! id) as [o|] eqn:Ho.
  - destruct (step_order_change cfg now op s id o Ho) as (o'' & Ho'' & Hch).
    rewrite Ho' in Ho''. inversion Ho''; subst o''.
    apply (change_keeps_purchaser_iff_archived _ _ _ _ _ _ Hch), (Hinv id o Ho).
  - destruct (step_created_order cfg now op s id o' Ho Ho') as (type & close & _ & ->).
    simpl. split; [discriminate|]. intros [x Hx]. discriminate Hx.
Qed.

(** X3. An order has a purchaser exactly when it is Archived: the property
    holds of a new order and every request and job keeps it, so it holds in
    every state reached from one in which it holds. *)
Theorem purchaser_exactly_when_archived cfg ops : forall s,
  purchaser_iff_archived (db s) ->
  purchaser_iff_archived (db (run cfg ops s)).
Proof.
  induction ops as [|[now op] ops IH]; intros s H; [exact H|].
  simpl. apply IH, step_keeps_purchaser_iff_archived, H.
Qed.

Lemma purchaser_exactly_when_archived_witness :
  let s := {| db := Scenario.start; jobs := [] |} in
  let ops := [(100, OpCreateOrder "tenders" 9000);
              (200, OpLogOrder no_faults Scenario.order_id Scenario.A);
              (300, OpCancelOrder Scenario.order_id)] in
  purchaser_iff_archived (db s) /\
  (state <$> orders (db s) !! Scenario.order_id) = Some Closed /\
  (purchaser <$> orders (db s) !! Scenario.order_id) = Some None /\
  (state <$> orders (db (run Scenario.cfg ops s)) !! Scenario.order_id) = Some Archived /\
  (purchaser <$> orders (db (run Scenario.cfg ops s)) !! Scenario.order_id)
    = Some (Some Scenario.A) /\
  purchaser_iff_archived (db (run Scenario.cfg ops s)).
Proof.
  cbv zeta.
  assert (H : purchaser_iff_archived Scenario.start).
  { intros id o Ho. simpl in Ho.
    destruct (decide (id = Scenario.order_id)) as [->|Hne].
    - rewrite lookup_singleton_eq in Ho. inversion Ho; subst o. simpl.
      split; [discriminate | intros [x Hx]; discriminate Hx].
    - rewrite lookup_singleton_ne in Ho by congruence. discriminate Ho. }
  split; [exact H|]. split; [reflexivity|]. split; [reflexivity|].
  split; [vm_compute; reflexivity|]. split; [vm_compute; reflexivity|].
  exact (purchaser_exactly_when_archived Scenario.cfg
           [(100, OpCreateOrder "tenders" 9000);
            (200, OpLogOrder no_faults Scenario.order_id Scenario.A);
            (300, OpCancelOrder Scenario.order_id)]
           {| db := Scenario.start; jobs := [] |} H).
Defined.

(** ** Jobs of an order that has left [Open] *)

Lemma cancel_jobs_none id q : no_jobs_for id (cancel_jobs id q).
Proof.
  intros j Hin. unfold cancel_jobs in Hin.
  apply list_elem_of_filter in Hin as [Hne _]. exact Hne.
Qed.

Lemma cancel_jobs_others id q j :
  job_data j <> id -> (j ∈ cancel_jobs id q <-> j ∈ q).
Proof.
  intros Hne. unfold cancel_jobs. rewrite list_elem_of_filter. tauto.
Qed.

Lemma remove_job_subset j q j' : j' ∈ remove_job j q -> j' ∈ q.
Proof.
  induction q as [|j0 q IH]; simpl; [auto|].
  destruct (decide (j0 = j)).
  - intros H. right. exact H.
  - intros H. apply elem_of_cons in H as [->|H]; [left | right; auto].
Qed.

Lemma transition_never_reopens s : transition s Open = false.
Proof. destruct s; reflexivity. Qed.

Lemma change_never_reopens now op fl id o o' :
  OrderChange now op fl id o o' -> state o <> Open -> state o' <> Open.
Proof.
  intros Hch Hne Hopen.
  destruct (change_follows_machine _ _ _ _ _ _ Hch) as [Heq | Htr].
  - congruence.
  - rewrite Hopen, transition_never_reopens in Htr. discriminate Htr.
Qed.

(** No job is queued for an order that is not [Open]. *)
Lemma step_no_new_jobs cfg now op s id o j :
  orders (db s) !! id = Some o -> state o <> Open ->
  j ∈ jobs (fst (step cfg now op s)) -> job_data j = id ->
  j ∈ jobs s.
Proof.
  intros Ho Hst Hin Hdata.
  destruct op as [type close | u id0 body | u id0 | id0 | id0 | f id0 p | j0
                 | f u t c | f a id0 c | id0 | id0 | id0]; simpl in Hin;
    try exact Hin.
  - destruct (createOrder_cases cfg now type close s)
      as [(ty & _ & _ & _ & Hc) | [_ Hc]]; rewrite Hc in Hin; [|exact Hin].
    cbn [fst jobs] in Hin.
    unfold schedule in Hin. apply elem_of_app in Hin as [Hin|Hin]; [exact Hin|].
    apply list_elem_of_singleton in Hin. subst j. simpl in Hdata.
    exfalso. apply (fresh_order_id _ _ _ Ho). exact Hdata.
  - unfold as_user in Hin. destruct (authenticated (db s) u); exact Hin.
  - unfold as_user in Hin. destruct (authenticated (db s) u); exact Hin.
  - unfold closeOrder_route in Hin.
    destruct (closeOrderById now id0 (db s)) as [d' [x|err]]; simpl in Hin;
      [|exact Hin].
    unfold cancel_jobs in Hin. apply list_elem_of_filter in Hin as [_ Hin]. exact Hin.
  - unfold cancel_jobs in Hin. apply list_elem_of_filter in Hin as [_ Hin]. exact Hin.
  - unfold run_job in Hin.
    destruct (bool_decide (j0 ∈ jobs s) && (nextRunAt j0 <=? now)); [|exact Hin].
    destruct j0 as [name id0 due]. simpl in Hin. destruct name.
    + unfold closingOrder_job in Hin. simpl in Hin.
      destruct (orders (db s) !! id0) as [o0|] eqn:Ho0;
        [|simpl in Hin; apply (remove_job_subset _ _ _ Hin)].
      destruct (bool_decide (state o0 = Open)) eqn:Hopen;
        [|simpl in Hin; apply (remove_job_subset _ _ _ Hin)].
      apply bool_decide_eq_true_1 in Hopen.
      destruct (forallb _ _); simpl in Hin;
        [|apply (remove_job_subset _ _ _ Hin)].
      unfold schedule in Hin. apply elem_of_app in Hin as [Hin|Hin];
        [apply (remove_job_subset _ _ _ Hin)|].
      apply list_elem_of_singleton in Hin. subst j. simpl in Hdata. subst id0.
      rewrite Ho in Ho0. inversion Ho0; subst o0. contradiction.
    + unfold closeOrder_job in Hin. simpl in Hin. apply (remove_job_subset _ _ _ Hin).
Qed.

Lemma run_keeps_terminal cfg ops id : forall s o,
  orders (db s) !! id = Some o -> terminal (state o) = true ->
  orders (db (run cfg ops s)) !! id = Some o.
Proof.
  induction ops as [|[now op] ops IH]; intros s o Ho Hst; [exact Ho|].
  simpl. apply IH; [|exact Hst].
  destruct (step_order_change cfg now op s id o Ho) as (o' & Ho' & Hch).
  rewrite Ho'. f_equal. apply (terminal_is_final _ _ _ _ _ _ Hch Hst).
Qed.

Lemma run_no_jobs_for cfg ops id : forall s o,
  orders (db s) !! id = Some o -> state o <> Open ->
  no_jobs_for id (jobs s) ->
  no_jobs_for id (jobs (run cfg ops s)).
Proof.
  induction ops as [|[now op] ops IH]; intros s o Ho Hst Hno; [exact Hno|].
  simpl. destruct (step_order_change cfg now op s id o Ho) as (o' & Ho' & Hch).
  apply (IH _ o' Ho').
  - apply (change_never_reopens _ _ _ _ _ _ Hch Hst).
  - intros j Hin Hdata.
    apply (Hno j); [|exact Hdata].
    apply (step_no_new_jobs cfg now op s id o j Ho Hst Hin Hdata).
Qed.

(** X4. Cancelling an order that is Open, Closing or Closed moves no coin
    and writes no ledger entry; it leaves the order Cancelled, without
    participants and closed at the time of the cancellation. Whatever
    requests and jobs follow, the order stays exactly so, no job for it is
    ever queued again, and every attempt to settle it fails and changes
    nothing. *)
Theorem cancelled_order_is_dead cfg now id s o :
  orders (db s) !! id = Some o ->
  in_states [Open; Closing; Closed] (state o) = true ->
  users (db (fst (cancelOrder now id s))) = users (db s) /\
  transactions (db (fst (cancelOrder now id s))) = transactions (db s) /\
  forall ops,
    orders (db (run cfg ops (fst (cancelOrder now id s)))) !! id =
      Some (set_closeDate now (set_userOrders [] (set_state Cancelled o))) /\
    no_jobs_for id (jobs (run cfg ops (fst (cancelOrder now id s)))) /\
    forall f now' p,
      logOrder f now' id p (db (run cfg ops (fst (cancelOrder now id s)))) =
        (db (run cfg ops (fst (cancelOrder now id s))),
         [(error, "Failed to log order")]).
Proof.
  intros Ho Hst.
  assert (Hc : fst (cancelOrder now id s) =
               {| db := set_orders
                          (<[id := set_closeDate now
                                     (set_userOrders [] (set_state Cancelled o))]>
                             (orders (db s))) (db s);
                  jobs := cancel_jobs id (jobs s) |}).
  { unfold cancelOrder. rewrite Ho, Hst. reflexivity. }
  rewrite Hc. split; [reflexivity|]. split; [reflexivity|].
  intros ops.
  assert (Hdead : orders (db (run cfg ops
                    {| db := set_orders
                               (<[id := set_closeDate now
                                          (set_userOrders [] (set_state Cancelled o))]>
                                  (orders (db s))) (db s);
                       jobs := cancel_jobs id (jobs s) |})) !! id =
                  Some (set_closeDate now (set_userOrders [] (set_state Cancelled o)))).
  { apply run_keeps_terminal; [apply lookup_insert_eq | reflexivity]. }
  split; [exact Hdead|]. split.
  - eapply run_no_jobs_for.
    + simpl. apply lookup_insert_eq.
    + discriminate.
    + apply cancel_jobs_none.
  - intros f now' p. apply logOrder_rejects. left.
    unfold order_state. rewrite Hdead. discriminate.
Qed.

Lemma cancelled_order_is_dead_witness :
  let s := {| db := Scenario.start;
              jobs := [mkJob closeOrder Scenario.order_id 1000] |} in
  (orders (db s) !! Scenario.order_id = Some Scenario.tenders /\
   in_states [Open; Closing; Closed] (state Scenario.tenders) = true) /\
  logOrder no_faults 300 Scenario.order_id Scenario.A
    (db (run Scenario.cfg [(250, OpRunJob (mkJob closeOrder Scenario.order_id 1000))]
           (fst (cancelOrder 200 Scenario.order_id s)))) =
  (db (run Scenario.cfg [(250, OpRunJob (mkJob closeOrder Scenario.order_id 1000))]
         (fst (cancelOrder 200 Scenario.order_id s))),
   [(error, "Failed to log order")]).
Proof.
  simpl. split; [split; reflexivity|].
  pose proof (cancelled_order_is_dead Scenario.cfg 200 Scenario.order_id
                {| db := Scenario.start;
                   jobs := [mkJob closeOrder Scenario.order_id 1000] |}
                Scenario.tenders eq_refl eq_refl) as (_ & _ & H).
  destruct (H [(250, OpRunJob (mkJob closeOrder Scenario.order_id 1000))])
    as (_ & _ & Hlog).
  exact (Hlog no_faults 300 Scenario.A).
Defined.

(** X5. A manual close that succeeds removes every pending job of the order
    and leaves the jobs of the other orders in the queue; whatever follows,
    no job for the closed order is queued again. *)
Theorem manual_close_clears_the_jobs cfg now id s o :
  orders (db s) !! id = Some o ->
  state o = Open \/ state o = Closing ->
  (forall j, job_data j <> id ->
     (j ∈ jobs (fst (closeOrder_route now id s)) <-> j ∈ jobs s)) /\
  forall ops, no_jobs_for id (jobs (run cfg ops (fst (closeOrder_route now id s)))).
Proof.
  intros Ho Hst.
  assert (Hc : fst (closeOrder_route now id s) =
               {| db := fst (closeOrderById now id (db s));
                  jobs := cancel_jobs id (jobs s) |}).
  { unfold closeOrder_route. rewrite (closeOrderById_open now id (db s) o Ho Hst).
    reflexivity. }
  rewrite Hc. split.
  - intros j Hne. simpl. apply cancel_jobs_others. exact Hne.
  - intros ops. rewrite (closeOrderById_open now id (db s) o Ho Hst). simpl.
    eapply run_no_jobs_for.
    + simpl. apply lookup_insert_eq.
    + simpl. destruct (0 <? length (userOrders o))%nat; discriminate.
    + apply cancel_jobs_none.
Qed.

Lemma manual_close_clears_the_jobs_witness :
  let o := set_state Open Scenario.tenders in
  let s := {| db := set_orders {[ Scenario.order_id := o ]} Scenario.start;
              jobs := [mkJob closingOrder Scenario.order_id 1000;
                       mkJob closingOrder 8%nat 1000] |} in
  (orders (db s) !! Scenario.order_id = Some o /\
   (state o = Open \/ state o = Closing)) /\
  no_jobs_for Scenario.order_id (jobs (fst (closeOrder_route 500 Scenario.order_id s))).
Proof.
  simpl. split; [split; [reflexivity | left; reflexivity]|].
  exact (proj2 (manual_close_clears_the_jobs Scenario.cfg 500 Scenario.order_id
                  {| db := set_orders
                             {[ Scenario.order_id := set_state Open Scenario.tenders ]}
                             Scenario.start;
                     jobs := [mkJob closingOrder Scenario.order_id 1000;
                              mkJob closingOrder 8%nat 1000] |}
                  (set_state Open Scenario.tenders) eq_refl (or_introl eq_refl)) []).
Defined.

(** X6. A job that fires late is harmless: when a due ['closingOrder'] job
    finds its order not Open, or a due ['closeOrder'] job finds its order
    neither Open nor Closing (closed, cancelled or archived meanwhile, or
    absent), the job only leaves the queue; the database is untouched and
    nothing is scheduled. *)
Theorem late_job_is_harmless cfg now j s :
  j ∈ jobs s -> nextRunAt j <= now ->
  order_state (db s) (job_data j) <> Some Open ->
  (job_name j = closeOrder -> order_state (db s) (job_data j) <> Some Closing) ->
  run_job cfg now j s = {| db := db s; jobs := remove_job j (jobs s) |}.
Proof.
  intros Hin Hdue Hno Hnc. unfold run_job.
  rewrite bool_decide_eq_true_2 by exact Hin.
  rewrite (proj2 (Z.leb_le _ _) Hdue). simpl.
  destruct (job_name j) eqn:Hname.
  - apply closingOrder_job_not_open. exact Hno.
  - unfold closeOrder_job, closeOrderById, order_state in *. simpl.
    specialize (Hnc eq_refl).
    destruct (orders (db s) !! job_data j) as [o|]; [|reflexivity].
    simpl in Hno, Hnc.
    destruct (state o); try reflexivity; congruence.
Qed.

Lemma late_job_is_harmless_witness :
  let j := mkJob closeOrder Scenario.order_id 1000 in
  let s := {| db := Scenario.start; jobs := [j] |} in
  (j ∈ jobs s /\ nextRunAt j <= 1500) /\
  run_job Scenario.cfg 1500 j s = {| db := Scenario.start; jobs := [] |}.
Proof.
  simpl.
  assert (Hin : mkJob closeOrder Scenario.order_id 1000 ∈
                [mkJob closeOrder Scenario.order_id 1000]) by (left).
  assert (Hdue : 1000 <= 1500) by lia.
  split; [split; [exact Hin | exact Hdue]|].
  apply (late_job_is_harmless Scenario.cfg 1500 (mkJob closeOrder Scenario.order_id 1000)
           {| db := Scenario.start;
              jobs := [mkJob closeOrder Scenario.order_id 1000] |} Hin Hdue);
    [discriminate | intros _; discriminate].
Defined.

(** X7. The move to Closing happens once: after a ['closingOrder'] job has
    run on an Open order, running its body again at any time changes
    nothing; the order is not moved again and no second ['closeOrder'] job
    is queued. *)
Theorem closing_job_fires_once cfg t j s o :
  j ∈ jobs s -> job_name j = closingOrder -> nextRunAt j <= t ->
  orders (db s) !! job_data j = Some o -> state o = Open ->
  participants_resolve (db s) o ->
  forall t',
    closingOrder_job cfg t' (job_data j) (run_job cfg t j s) = run_job cfg t j s.
Proof.
  intros Hin Hname Hdue Ho Hst HR t'.
  assert (Hrun : run_job cfg t j s =
                 closingOrder_job cfg t (job_data j)
                   {| db := db s; jobs := remove_job j (jobs s) |}).
  { unfold run_job. rewrite bool_decide_eq_true_2 by exact Hin.
    rewrite (proj2 (Z.leb_le _ _) Hdue). simpl. rewrite Hname. reflexivity. }
  rewrite Hrun.
  rewrite (closingOrder_job_open cfg t (job_data j)
             {| db := db s; jobs := remove_job j (jobs s) |} o Ho Hst HR).
  apply closingOrder_job_not_open.
  unfold order_state. simpl. rewrite lookup_insert_eq. discriminate.
Qed.

Lemma closing_job_fires_once_witness :
  let s1 := fst (createOrder Scenario.cfg 0 "tenders" 9000 Scenario.empty) in
  let j := mkJob closingOrder 0%nat 4000 in
  (j ∈ jobs s1 /\ nextRunAt j <= 4000) /\
  closingOrder_job Scenario.cfg 4001 0%nat (run_job Scenario.cfg 4000 j s1)
    = run_job Scenario.cfg 4000 j s1.
Proof.
  simpl.
  assert (Hin : mkJob closingOrder 0%nat 4000 ∈
                jobs (fst (createOrder Scenario.cfg 0 "tenders" 9000 Scenario.empty))).
  { apply (bool_decide_unpack _). vm_compute. exact I. }
  assert (Hdue : 4000 <= 4000) by lia.
  split; [split; [exact Hin | exact Hdue]|].
  apply (closing_job_fires_once Scenario.cfg 4000 (mkJob closingOrder 0%nat 4000)
           (fst (createOrder Scenario.cfg 0 "tenders" 9000 Scenario.empty))
           (mkOrder 0 9000 "tenders" "chicken tenders" 5 Open [] None)
           Hin eq_refl Hdue eq_refl eq_refl).
  apply Forall_nil. exact I.
Defined.

(** ** Participants whose user was deleted *)

Lemma unresolved_participant_blocks_settlement f now id p d o uid :
  orders d !! id = Some o ->
  uid ∈ uo_user <$> userOrders o ->
  users d !! uid = None ->
  logOrder f now id p d = (d, [(error, "Failed to log order")]).
Proof.
  intros Ho Hin Hnone. unfold logOrder.
  destruct (logOrder_chain f now id p d) as [w [t|err]] eqn:Hc; [|reflexivity].
  exfalso.
  destruct (logOrder_chain_conditions _ _ _ _ _ _ _ Hc)
    as (o' & u & Ho' & _ & _ & HR & _).
  rewrite Ho in Ho'. inversion Ho'; subst o'.
  unfold participants_resolve in HR. rewrite Forall_forall in HR.
  destruct (HR uid Hin) as [x Hx]. congruence.
Qed.

(** X8. Deleting a user makes the orders he participates in impossible to
    settle: [deleteUser] removes a disabled user without looking at the
    orders, and [logOrder] then fails on every order that still lists him,
    for every purchaser, leaving the database as it is. *)
Theorem deleted_participant_blocks_settlement f now id p d o uid u :
  orders d !! id = Some o ->
  uid ∈ uo_user <$> userOrders o ->
  users d !! uid = Some u ->
  enabled u = false ->
  flashed success (snd (deleteUser uid d)) = true /\
  logOrder f now id p (fst (deleteUser uid d)) =
    (fst (deleteUser uid d), [(error, "Failed to log order")]).
Proof.
  intros Ho Hin Hu Hen. unfold deleteUser. rewrite Hu, Hen. simpl.
  split; [reflexivity|].
  apply (unresolved_participant_blocks_settlement f now id p _ o uid).
  - exact Ho.
  - exact Hin.
  - simpl. apply lookup_delete_eq.
Qed.

Lemma deleted_participant_blocks_settlement_witness :
  let d := fst (set_user_enabled false Scenario.C Scenario.start) in
  (orders d !! Scenario.order_id = Some Scenario.tenders /\
   Scenario.C ∈ uo_user <$> userOrders Scenario.tenders /\
   users d !! Scenario.C = Some (mkUser (-2) false)) /\
  logOrder no_faults 200 Scenario.order_id Scenario.A (fst (deleteUser Scenario.C d)) =
    (fst (deleteUser Scenario.C d), [(error, "Failed to log order")]).
Proof.
  simpl.
  assert (Hin : Scenario.C ∈ uo_user <$> userOrders Scenario.tenders).
  { apply (bool_decide_unpack _). vm_compute. exact I. }
  split; [split; [reflexivity | split; [exact Hin | reflexivity]]|].
  exact (proj2 (deleted_participant_blocks_settlement no_faults 200 Scenario.order_id
                  Scenario.A
                  (fst (set_user_enabled false Scenario.C Scenario.start))
                  Scenario.tenders Scenario.C (mkUser (-2) false)
                  eq_refl Hin eq_refl eq_refl)).
Defined.



(** ** Coins and the ledger *)

Lemma closeOrderById_coins now id d :
  users (fst (closeOrderById now id d)) = users d /\
  transactions (fst (closeOrderById now id d)) = transactions d /\
  audits (fst (closeOrderById now id d)) = audits d.
Proof.
  unfold closeOrderById. destruct (orders d !! id) as [o|]; [|auto].
  destruct (in_states [Open; Closing] (state o)); auto.
Qed.

(** Every operation changes users, ledger and audit log in one of the ways
    of [CoinChange]. *)
Lemma step_coin_change cfg now op s :
  CoinChange now op (db s) (db (fst (step cfg now op s))).
Proof.
  destruct op as [type close | u id0 body | u id0 | id0 | id0 | f id0 p | j
                 | f u t c | f a id0 c | id0 | id0 | id0]; simpl.
  - destruct (createOrder_cases cfg now type close s)
      as [(ty & _ & _ & _ & Hc) | [_ Hc]]; rewrite Hc;
      apply NoCoinChange; reflexivity.
  - unfold as_user. destruct (authenticated (db s) u); simpl;
      [|apply NoCoinChange; reflexivity].
    unfold joinOrder. destruct (orders (db s) !! id0) as [o|];
      [|apply NoCoinChange; reflexivity].
    destruct (in_states [Open; Closing] (state o) && negb (participates u o));
      [|apply NoCoinChange; reflexivity].
    destruct (find_orderType (orderTypes cfg) (location o)) as [ty|];
      [|apply NoCoinChange; reflexivity].
    destruct (join_details body (fields ty)); apply NoCoinChange; reflexivity.
  - unfold as_user. destruct (authenticated (db s) u); simpl;
      [|apply NoCoinChange; reflexivity].
    unfold leaveOrder. destruct (orders (db s) !! id0) as [o|];
      [|apply NoCoinChange; reflexivity].
    destruct (in_states [Open; Closing] (state o) && participates u o);
      apply NoCoinChange; reflexivity.
  - destruct (closeOrderById_coins now id0 (db s)) as (Hu & Ht & Ha).
    unfold closeOrder_route.
    destruct (closeOrderById now id0 (db s)) as [d' [x|err]]; simpl in *;
      apply NoCoinChange; assumption.
  - unfold cancelOrder. simpl. destruct (orders (db s) !! id0) as [o|];
      [|apply NoCoinChange; reflexivity].
    destruct (in_states [Open; Closing; Closed] (state o));
      apply NoCoinChange; reflexivity.
  - destruct (logOrder f now id0 p (db s)) as [d' fl] eqn:Hlog. simpl.
    destruct (flashed success fl) eqn:Hfl.
    + destruct (logOrder_success _ _ _ _ _ _ _ Hlog Hfl) as [t Hc].
      destruct (logOrder_chain_resolved _ _ _ _ _ _ _ Hc)
        as (o & u & Ho & _ & Hu & HR & -> & _).
      apply (CoinsSettled _ _ _ id0 p o u Ho Hu HR).
    + destruct (logOrder_failure _ _ _ _ _ _ _ Hlog Hfl) as [-> _].
      apply NoCoinChange; reflexivity.
  - unfold run_job.
    destruct (bool_decide (j ∈ jobs s) && (nextRunAt j <=? now));
      [|apply NoCoinChange; reflexivity].
    destruct (job_name j).
    + unfold closingOrder_job. simpl.
      destruct (orders (db s) !! job_data j) as [o|];
        [|apply NoCoinChange; reflexivity].
      destruct (bool_decide (state o = Open)); [|apply NoCoinChange; reflexivity].
      destruct (forallb _ _); apply NoCoinChange; reflexivity.
    + unfold closeOrder_job. simpl.
      destruct (closeOrderById_coins now (job_data j) (db s)) as (Hu & Ht & Ha).
      apply NoCoinChange; assumption.
  - destruct (post_transfer f now u t c (db s)) as [d' fl] eqn:H. simpl.
    destruct (post_transfer_cases _ _ _ _ _ _ _ _ H)
      as [(-> & _) | (a & u0 & ur & us & -> & _ & _ & _ & _ & Hr & Hs & -> & _)].
    + apply NoCoinChange; reflexivity.
    + apply (CoinsTransferred _ _ _ f u t a us ur eq_refl Hr Hs).
  - unfold post_setCoins. destruct (authenticated (db s) a);
      [|apply NoCoinChange; reflexivity].
    destruct c as [v|]; [|apply NoCoinChange; reflexivity].
    destruct (setCoins f now a id0 v (db s)) as [d' fl] eqn:H. simpl.
    destruct (flashed error fl) eqn:Hfl.
    + unfold setCoins in H.
      destruct (setCoins_chain f now a id0 v (db s)) as [w [t|err]].
      * inversion H; subst. discriminate Hfl.
      * destruct (negb (f (CallUpdateUser id0)) &&
                  bool_decide (is_Some (users (db s) !! id0)));
          inversion H; apply NoCoinChange; reflexivity.
    + destruct (setCoins_committed _ _ _ _ _ _ _ _ H Hfl) as (u0 & Hu0 & ->).
      apply (CoinsSet _ _ _ a id0 v u0 Hu0).
  - unfold set_user_enabled. destruct (users (db s) !! id0) as [u|] eqn:Hu; simpl.
    + apply (UserFlagged _ _ _ id0 u true Hu).
    + apply NoCoinChange; reflexivity.
  - unfold set_user_enabled. destruct (users (db s) !! id0) as [u|] eqn:Hu; simpl.
    + apply (UserFlagged _ _ _ id0 u false Hu).
    + apply NoCoinChange; reflexivity.
  - unfold deleteUser. destruct (users (db s) !! id0) as [u|] eqn:Hu; simpl;
      [|apply NoCoinChange; reflexivity].
    destruct (enabled u) eqn:Hen; simpl.
    + apply NoCoinChange; reflexivity.
    + apply (UserDeleted _ _ _ id0 u eq_refl Hu Hen).
Qed.

Lemma coin_change_ledger now op d d' :
  CoinChange now op d d' ->
  (transactions d' = transactions d /\ audits d' = audits d) \/
  (exists t a, transactions d' = t :: transactions d /\ audits d' = a :: audits d /\
               tx_date t = now /\ audit_date a = now).
Proof.
  intros H. destruct H; simpl; eauto 10.
Qed.

(** X10. The ledger and the audit log only grow: over any history of
    requests and jobs the transactions and audits already stored stay in
    place, unchanged, below the new ones, and exactly as many ledger entries
    as audit entries are added. *)
Theorem ledger_is_append_only cfg ops : forall s,
  exists newt newa,
    transactions (db (run cfg ops s)) = newt ++ transactions (db s) /\
    audits (db (run cfg ops s)) = newa ++ audits (db s) /\
    length newt = length newa.
Proof.
  induction ops as [|[now op] ops IH]; intros s.
  - exists [], []. auto.
  - simpl. destruct (IH (fst (step cfg now op s))) as (nt & na & Ht & Ha & Hl).
    destruct (coin_change_ledger _ _ _ _ (step_coin_change cfg now op s))
      as [[Et Ea] | (t & a & Et & Ea & _)].
    + exists nt, na. rewrite Ht, Ha, Et, Ea. auto.
    + exists (nt ++ [t]), (na ++ [a]). rewrite Ht, Ha, Et, Ea.
      rewrite <- !app_assoc. simpl. split; [reflexivity|]. split; [reflexivity|].
      rewrite !length_app. simpl. lia.
Qed.

(** X11. Every change of a balance is recorded: when an operation changes
    the balance of a user from [b] to [b'], both safe integers, it adds
    exactly one ledger entry and that entry lists the user with previous
    value [b] and new value [b']; only for a transfer to oneself does the
    entry list the user on two lines, the first starting at [b] and the
    second ending at [b']. (Participants are distinct, as the routers keep
    them.) *)
Theorem balance_changes_are_recorded cfg now op s uid b b' :
  unique_participants (db s) ->
  balance (db s) uid = Some b ->
  balance (db (fst (step cfg now op s))) uid = Some b' ->
  b' <> b -> safe b -> safe b' ->
  exists t,
    transactions (db (fst (step cfg now op s))) = t :: transactions (db s) /\
    (mkEntry uid b b' ∈ entries t \/
     exists f a m, op = OpTransfer f uid uid (Some a) /\
                   entries t = [mkEntry uid b m; mkEntry uid m b']).
Proof.
  intros Huniq Hb Hb' Hne Hsb Hsb'. unfold balance in *.
  destruct (step_coin_change cfg now op s)
    as [d' Hu _ _ | id p o u Ho Hu HR | f sd r a us ur Hop Hr Hs | admin id v u Hu
        | id u fl Hu | id u _ Hu _].
  - rewrite Hu, Hb in Hb'. congruence.
  - pose proof (Huniq id o Ho) as Hnd.
    eexists. split; [reflexivity|]. left. simpl.
    destruct (decide (uid = p)) as [->|Hnp].
    + rewrite settled_purchaser in Hb'. rewrite Hu in Hb. simpl in Hb, Hb'.
      inversion Hb; inversion Hb'; subst. left.
    + destruct (decide (uid ∈ uo_user <$> userOrders o)) as [Hin|Hout].
      * destruct (users (db s) !! uid) as [u'|] eqn:Hu'; [|discriminate Hb].
        rewrite (settled_debtor now id p o u (db s) uid u' Hnd HR) in Hb';
          [|apply elem_of_debtors; auto|exact Hu'].
        simpl in Hb, Hb'. inversion Hb; inversion Hb'; subst.
        right. apply list_elem_of_fmap. exists uid. split.
        -- unfold debtor_entry, balance. rewrite Hu'. simpl. f_equal.
           unfold num_sub in *. rewrite (to_double_safe_inv _ Hsb').
           unfold num_add. replace (coins u' - cost o + cost o) with (coins u') by lia.
           symmetry. apply to_double_safe, Hsb.
        -- apply elem_of_debtors. auto.
      * rewrite (settled_bystander now id p o u (db s) uid Hnp Hout) in Hb'.
        rewrite Hb in Hb'. congruence.
  - eexists. split; [reflexivity|]. simpl in *. unfold transfer_users in Hb'.
    destruct (decide (uid = sd)) as [->|Hns].
    + rewrite lookup_insert_eq in Hb'. simpl in Hb'.
      rewrite num_add_opp_double in Hb'.
      destruct (decide (sd = r)) as [->|Hsr].
      * rewrite lookup_insert_eq in Hs. inversion Hs; subst us.
        rewrite Hr in Hb. simpl in Hb, Hb'. inversion Hb; inversion Hb'; subst.
        right. exists f, a, (num_add (coins ur) (toNumber a)).
        split; [reflexivity|]. reflexivity.
      * rewrite lookup_insert_ne in Hs by congruence. rewrite Hs in Hb.
        simpl in Hb. inversion Hb; inversion Hb'; subst.
        left. right. left.
    + rewrite lookup_insert_ne in Hb' by congruence.
      destruct (decide (uid = r)) as [->|Hnr].
      * rewrite lookup_insert_eq in Hb'. rewrite Hr in Hb. simpl in Hb, Hb'.
        inversion Hb; inversion Hb'; subst. left. left.
      * rewrite lookup_insert_ne in Hb' by congruence.
        rewrite Hb in Hb'. congruence.
  - eexists. split; [reflexivity|]. left. simpl in *.
    destruct (decide (uid = id)) as [->|Hnid].
    + rewrite lookup_insert_eq in Hb'. rewrite Hu in Hb. simpl in Hb, Hb'.
      inversion Hb; inversion Hb'; subst. left.
    + rewrite lookup_insert_ne in Hb' by congruence. rewrite Hb in Hb'. congruence.
  - exfalso. simpl in Hb'. destruct (decide (uid = id)) as [->|Hnid].
    + rewrite lookup_insert_eq in Hb'. rewrite Hu in Hb. simpl in Hb, Hb'. congruence.
    + rewrite lookup_insert_ne in Hb' by congruence. rewrite Hb in Hb'. congruence.
  - exfalso. simpl in Hb'. destruct (decide (uid = id)) as [->|Hnid].
    + rewrite lookup_delete_eq in Hb'. discriminate Hb'.
    + rewrite lookup_delete_ne in Hb' by congruence. rewrite Hb in Hb'. congruence.
Qed.

Lemma scenario_participants_unique : unique_participants Scenario.start.
Proof.
  intros id o Ho. simpl in Ho.
  destruct (decide (id = Scenario.order_id)) as [->|Hne].
  - rewrite lookup_singleton_eq in Ho. inversion Ho; subst o.
    apply (bool_decide_unpack _). vm_compute. exact I.
  - rewrite lookup_singleton_ne in Ho by congruence. discriminate Ho.
Qed.

Lemma balance_changes_are_recorded_witness :
  let s := {| db := Scenario.start; jobs := [] |} in
  let s' := fst (step Scenario.cfg 200
                   (OpLogOrder no_faults Scenario.order_id Scenario.A) s) in
  (unique_participants (db s) /\ balance (db s) Scenario.B = Some 7 /\
   balance (db s') Scenario.B = Some 2 /\ 2 <> 7 /\ safe 7 /\ safe 2) /\
  exists t, transactions (db s') = t :: transactions (db s) /\
            (mkEntry Scenario.B 7 2 ∈ entries t \/
             exists f a m,
               OpLogOrder no_faults Scenario.order_id Scenario.A
                 = OpTransfer f Scenario.B Scenario.B (Some a) /\
               entries t = [mkEntry Scenario.B 7 m; mkEntry Scenario.B m 2]).
Proof.
  cbv zeta.
  assert (Hne : 2 <> 7) by discriminate.
  assert (H7 : safe 7) by (unfold safe, MAX_SAFE_INTEGER; lia).
  assert (H2 : safe 2) by (unfold safe, MAX_SAFE_INTEGER; lia).
  split; [split; [exact scenario_participants_unique
                 | split; [reflexivity | split; [reflexivity | auto]]]|].
  exact (balance_changes_are_recorded Scenario.cfg 200
           (OpLogOrder no_faults Scenario.order_id Scenario.A)
           {| db := Scenario.start; jobs := [] |} Scenario.B 7 2
           scenario_participants_unique eq_refl eq_refl Hne H7 H2).
Defined.

(** ** The coin supply *)

Lemma total_coins_comm (j1 j2 : nat) (z1 z2 : User) (y : Z) :
  coins z1 + (coins z2 + y) = coins z2 + (coins z1 + y).
Proof. lia. Qed.

Lemma total_coins_delete (m : gmap nat User) i u :
  m !! i = Some u -> total_coins m = coins u + total_coins (delete i m).
Proof.
  intros H. unfold total_coins.
  apply (map_fold_delete_L (fun _ u acc => coins u + acc)); [|exact H].
  intros. apply total_coins_comm; assumption.
Qed.

Lemma total_coins_insert (m : gmap nat User) i u v :
  m !! i = Some u ->
  total_coins (<[i := v]> m) = total_coins m - coins u + coins v.
Proof.
  intros H.
  rewrite (total_coins_delete (<[i := v]> m) i v) by apply lookup_insert_eq.
  rewrite delete_insert_eq.
  rewrite (total_coins_delete m i u H). lia.
Qed.

Lemma total_coins_alter (m : gmap nat User) i u g :
  m !! i = Some u ->
  total_coins (alter g i m) = total_coins m - coins u + coins (g u).
Proof.
  intros H. rewrite <- (total_coins_insert m i u (g u) H). f_equal.
  apply map_eq. intros k. rewrite lookup_alter. case_decide.
  - subst k. rewrite lookup_insert_eq, H. reflexivity.
  - rewrite lookup_insert_ne by congruence. reflexivity.
Qed.

(** The debits lower the supply by the cost, once for every debtor, when
    every debit is exact. *)
Lemma total_coins_debit d p u c uos : forall (m : gmap nat User),
  NoDup (uo_user <$> uos) ->
  Forall (fun uid => exists u', users d !! uid = Some u' /\
                       (uid <> p -> num_sub (coins u') c = coins u' - c))
         (uo_user <$> uos) ->
  (forall uid, uid ∈ debtors p uos -> m !! uid = users d !! uid) ->
  total_coins (debit_users (mkUserDoc p u) c (populate d <$> uos) m) =
    total_coins m - Z.of_nat (length (debtors p uos)) * c.
Proof.
  induction uos as [|uo rest IH]; intros m Hnd HR Hm.
  - simpl. lia.
  - rewrite fmap_cons in Hnd, HR. apply NoDup_cons in Hnd as [Hnotin Hnd].
    apply Forall_cons in HR as [(u' & Hu' & Hexact) HR].
    rewrite fmap_cons. simpl debit_users.
    rewrite (not_purchaser_populated _ _ _ _ _ Hu'). rewrite debtors_cons.
    destruct (decide (uo_user uo <> p)) as [Hne|Heq].
    + rewrite bool_decide_eq_true_2 by exact Hne.
      simpl. rewrite Hu'. simpl.
      assert (Hmu : m !! uo_user uo = Some u').
      { rewrite Hm; [exact Hu'|]. rewrite debtors_cons.
        rewrite bool_decide_eq_true_2 by exact Hne. left. }
      rewrite IH; [|exact Hnd|exact HR|].
      * rewrite (total_coins_alter m _ u' _ Hmu). simpl length.
        rewrite Nat2Z.inj_succ. simpl. rewrite (Hexact Hne). lia.
      * intros uid Hin. rewrite lookup_alter_ne.
        -- apply Hm. rewrite debtors_cons.
           rewrite bool_decide_eq_true_2 by exact Hne. right. exact Hin.
        -- intros Heq. apply Hnotin. rewrite Heq.
           apply elem_of_debtors in Hin as [Hin _]. exact Hin.
    + rewrite bool_decide_eq_false_2 by exact Heq.
      apply IH; [exact Hnd|exact HR|].
      intros uid Hin. apply Hm. rewrite debtors_cons.
      rewrite bool_decide_eq_false_2 by exact Heq. exact Hin.
Qed.

Lemma coin_change_supply now op d d' :
  CoinChange now op d d' ->
  unique_participants d ->
  (forall id, op <> OpDeleteUser id) ->
  safe_balances d -> safe_balances d' ->
  total_coins (users d') - ledger_net (transactions d') =
    total_coins (users d) - ledger_net (transactions d).
Proof.
  intros Hch Huniq Hnodel Hsafe Hsafe'.
  destruct Hch as [d' Hu Ht _ | id p o u Ho Hu HR | f sd r a us ur _ Hr Hs
                   | admin id v u Hu | id u fl Hu | id u Hop Hu _].
  - rewrite Hu, Ht. reflexivity.
  - pose proof (Huniq id o Ho) as Hnd.
    assert (Hexact : forall uid u', uid ∈ uo_user <$> userOrders o -> uid <> p ->
              users d !! uid = Some u' ->
              safe (coins u') /\ num_sub (coins u') (cost o) = coins u' - cost o /\
              safe (coins u' - cost o)).
    { intros uid u' Hin Hne Hu'.
      pose proof (settled_debtor now id p o u d uid u' Hnd HR) as Hd.
      rewrite elem_of_debtors in Hd. specialize (Hd (conj Hin Hne) Hu').
      pose proof (Hsafe' uid _ Hd) as Hs'. simpl in Hs'.
      pose proof (to_double_safe_inv _ Hs') as Heq. unfold num_sub in *.
      split; [exact (Hsafe uid u' Hu')|]. split; [exact Heq|].
      rewrite <- Heq. exact Hs'. }
    unfold settled. simpl users. simpl transactions.
    unfold ledger_net. rewrite fmap_cons. simpl foldr.
    unfold sum_deltas, settlement_transaction. cbn [entries]. rewrite fmap_cons.
    rewrite (deltas_debtors d (cost o) (debtors p (userOrders o))).
    2:{ apply Forall_forall. intros uid Hin.
        apply elem_of_debtors in Hin as [Hin Hne].
        unfold participants_resolve in HR. rewrite Forall_forall in HR.
        destruct (HR uid Hin) as [u' Hu'].
        destruct (Hexact uid u' Hin Hne Hu') as (H1 & _ & H3).
        exists (coins u'). unfold balance. rewrite Hu'. auto. }
    rewrite (total_coins_debit d p u (cost o) (userOrders o)).
    + rewrite (total_coins_insert _ p u _ Hu). simpl foldr.
      rewrite sum_deltas_replicate. unfold delta. simpl. lia.
    + exact Hnd.
    + apply Forall_forall. intros uid Hin.
      unfold participants_resolve in HR. rewrite Forall_forall in HR.
      destruct (HR uid Hin) as [u' Hu']. exists u'. split; [exact Hu'|].
      intros Hne. apply (Hexact uid u' Hin Hne Hu').
    + intros uid Hin. apply elem_of_debtors in Hin as [_ Hne].
      apply lookup_insert_ne. congruence.
  - unfold transferred, transfer_users. simpl users. simpl transactions.
    unfold ledger_net. rewrite fmap_cons. simpl foldr.
    rewrite (total_coins_insert _ sd us _ Hs).
    rewrite (total_coins_insert _ r ur _ Hr).
    unfold sum_deltas, delta. simpl. rewrite num_add_opp_double. lia.
  - simpl users. simpl transactions.
    unfold ledger_net. rewrite fmap_cons. simpl foldr.
    rewrite (total_coins_insert _ id u _ Hu).
    unfold sum_deltas, delta. simpl. lia.
  - simpl. rewrite (total_coins_insert _ id u _ Hu). simpl. lia.
  - exfalso. apply (Hnodel id). exact Hop.
Qed.

Lemma run_supply cfg ops : forall s,
  unique_participants (db s) ->
  deletes_no_user ops ->
  balances_stay_safe cfg ops s ->
  total_coins (users (db (run cfg ops s)))
    - ledger_net (transactions (db (run cfg ops s))) =
  total_coins (users (db s)) - ledger_net (transactions (db s)).
Proof.
  induction ops as [|[now op] ops IH]; intros s Huniq Hnd Hsafe; [reflexivity|].
  apply Forall_cons in Hnd as [Hop Hnd]. simpl in Hop.
  destruct Hsafe as [Hs Hrest]. simpl.
  rewrite IH; [|apply step_keeps_participants_unique; exact Huniq|exact Hnd|exact Hrest].
  apply (coin_change_supply now op);
    [apply step_coin_change | exact Huniq | exact Hop | exact Hs |].
  destruct ops as [|[now' op'] ops']; apply Hrest.
Qed.

(** A transfer between two users that leaves safe balances leaves the
    supply as it is. *)
Lemma transfer_keeps_supply f now sd r body d :
  sd <> r ->
  safe_balances (fst (post_transfer f now sd r body d)) ->
  total_coins (users (fst (post_transfer f now sd r body d))) = total_coins (users d).
Proof.
  intros Hne. destruct (post_transfer f now sd r body d) as [d' fl] eqn:H. simpl.
  intros Hsafe.
  destruct (post_transfer_cases _ _ _ _ _ _ _ _ H)
    as [(-> & _) | (a & u & ur & us & _ & Hu & _ & _ & _ & Hr & Hs & -> & _)];
    [reflexivity|].
  rewrite lookup_insert_ne in Hs by congruence.
  unfold transferred, transfer_users in *. simpl in *.
  assert (Hs' : <[r := set_coins (num_add (coins ur) (toNumber a)) ur]> (users d) !! sd
                = Some us) by (rewrite lookup_insert_ne by congruence; exact Hs).
  rewrite (total_coins_insert _ sd us _ Hs').
  rewrite (total_coins_insert _ r ur _ Hr). simpl.
  pose proof (Hsafe sd _ (lookup_insert_eq _ _ _)) as H1. simpl in H1.
  assert (Hlr : <[sd := set_coins (num_add (coins us) (num_mul (-1) (toNumber a))) us]>
                  (<[r := set_coins (num_add (coins ur) (toNumber a)) ur]> (users d)) !! r
                = Some (set_coins (num_add (coins ur) (toNumber a)) ur)).
  { rewrite lookup_insert_ne by congruence. apply lookup_insert_eq. }
  pose proof (Hsafe r _ Hlr) as H2. simpl in H2.
  rewrite num_add_opp_double in *.
  unfold num_add, num_sub in *.
  rewrite (to_double_safe_inv _ H1), (to_double_safe_inv _ H2). lia.
Qed.

(** X12. The coin supply follows the ledger: over any history that deletes
    no user and in which the balances stay safe integers, the coins held by
    all users together change by exactly the net of the deltas of the ledger
    entries written meanwhile; and a transfer between two users that leaves
    safe balances leaves the supply as it is. *)
Theorem supply_follows_ledger cfg ops s :
  unique_participants (db s) ->
  deletes_no_user ops ->
  balances_stay_safe cfg ops s ->
  total_coins (users (db (run cfg ops s)))
    - ledger_net (transactions (db (run cfg ops s))) =
    total_coins (users (db s)) - ledger_net (transactions (db s)) /\
  (forall f now sd r body,
     sd <> r ->
     safe_balances (db (fst (step cfg now (OpTransfer f sd r body) s))) ->
     total_coins (users (db (fst (step cfg now (OpTransfer f sd r body) s))))
       = total_coins (users (db s))).
Proof.
  intros Huniq Hnd Hsafe. split.
  - apply run_supply; assumption.
  - intros f now sd r body Hne. simpl. apply transfer_keeps_supply. exact Hne.
Qed.

Lemma supply_follows_ledger_witness :
  let s := {| db := Scenario.start; jobs := [] |} in
  let ops := [(200, OpLogOrder no_faults Scenario.order_id Scenario.D);
              (300, OpTransfer no_faults Scenario.B Scenario.A (Some 2))] in
  (unique_participants (db s) /\ deletes_no_user ops /\
   balances_stay_safe Scenario.cfg ops s) /\
  total_coins (users (db (run Scenario.cfg ops s)))
    - ledger_net (transactions (db (run Scenario.cfg ops s))) =
  total_coins (users (db s)) - ledger_net (transactions (db s)).
Proof.
  cbv zeta.
  assert (Hnd : deletes_no_user
                  [(200, OpLogOrder no_faults Scenario.order_id Scenario.D);
                   (300, OpTransfer no_faults Scenario.B Scenario.A (Some 2))]).
  { repeat constructor; simpl; discriminate. }
  assert (Hsafe : balances_stay_safe Scenario.cfg
                    [(200, OpLogOrder no_faults Scenario.order_id Scenario.D);
                     (300, OpTransfer no_faults Scenario.B Scenario.A (Some 2))]
                    {| db := Scenario.start; jobs := [] |}).
  { cbn [balances_stay_safe]. unfold safe_balances.
    split; [apply (bool_decide_unpack _); vm_compute; exact I|].
    split; [apply (bool_decide_unpack _); vm_compute; exact I|].
    split; [apply (bool_decide_unpack _); vm_compute; exact I | exact I]. }
  split; [split; [exact scenario_participants_unique | split; [exact Hnd | exact Hsafe]]|].
  exact (proj1 (supply_follows_ledger Scenario.cfg _ {| db := Scenario.start; jobs := [] |}
                  scenario_participants_unique Hnd Hsafe)).
Defined.

(** X13. [deleteUser] removes only a disabled user, and bypasses the ledger:
    the user's coins leave the supply, while no ledger entry and no audit
    entry is written and no order is touched; an enabled or unknown user is
    refused and nothing changes. *)
Theorem deleteUser_bypasses_the_ledger id d :
  (forall u, users d !! id = Some u -> enabled u = false ->
     flashed success (snd (deleteUser id d)) = true /\
     users (fst (deleteUser id d)) !! id = None /\
     (forall uid, uid <> id ->
        users (fst (deleteUser id d)) !! uid = users d !! uid) /\
     total_coins (users (fst (deleteUser id d))) = total_coins (users d) - coins u /\
     transactions (fst (deleteUser id d)) = transactions d /\
     audits (fst (deleteUser id d)) = audits d /\
     orders (fst (deleteUser id d)) = orders d) /\
  ((forall u, users d !! id = Some u -> enabled u = true) ->
   deleteUser id d = (d, [(error, "Failed to delete user")])).
Proof.
  split.
  - intros u Hu Hen. unfold deleteUser. rewrite Hu, Hen. simpl.
    split; [reflexivity|]. split; [apply lookup_delete_eq|].
    split; [intros uid Hne; apply lookup_delete_ne; congruence|].
    split; [|auto]. rewrite (total_coins_delete (users d) id u Hu). lia.
  - intros H. unfold deleteUser. destruct (users d !! id) as [u|] eqn:Hu; [|reflexivity].
    rewrite (H u eq_refl). reflexivity.
Qed.

Lemma deleteUser_bypasses_the_ledger_witness :
  let d := fst (set_user_enabled false Scenario.B Scenario.start) in
  (users d !! Scenario.B = Some (mkUser 7 false)) /\
  total_coins (users (fst (deleteUser Scenario.B d))) = total_coins (users d) - 7 /\
  transactions (fst (deleteUser Scenario.B d)) = transactions d.
Proof.
  cbv zeta.
  assert (Hu : users (fst (set_user_enabled false Scenario.B Scenario.start))
                 !! Scenario.B = Some (mkUser 7 false)) by (vm_compute; reflexivity).
  split; [exact Hu|].
  destruct (proj1 (deleteUser_bypasses_the_ledger Scenario.B
                     (fst (set_user_enabled false Scenario.B Scenario.start)))
              (mkUser 7 false) Hu eq_refl) as (_ & _ & _ & Ht & Hl & _).
  split; [exact Ht | exact Hl].
Defined.

(** ** Closed orders have participants *)

Lemma change_keeps_closed_has_participants now op fl id o o' :
  OrderChange now op fl id o o' ->
  (state o = Closed \/ state o = Archived -> userOrders o <> []) ->
  (state o' = Closed \/ state o' = Archived -> userOrders o' <> []).
Proof.
  intros Hch Hinv.
  destruct Hch as [ | ? ? ? _ Hst _ | ? _ Hst _ | ? _ Hst | _ Hst | _ Hst | ? ? _ _ Hst];
    simpl; try exact Hinv.
  - intros H. exfalso. destruct (state o); try discriminate Hst;
      destruct H; discriminate.
  - intros H. exfalso. destruct (state o); try discriminate Hst;
      destruct H; discriminate.
  - intros [H|H]; discriminate H.
  - destruct (userOrders o) as [|uo l] eqn:Hl; simpl.
    + intros [H|H]; discriminate H.
    + intros _. discriminate.
  - intros [H|H]; discriminate H.
  - intros _. apply Hinv. left. exact Hst.
Qed.

Lemma step_keeps_closed_has_participants cfg now op s :
  closed_has_participants (db s) ->
  closed_has_participants (db (fst (step cfg now op s))).
Proof.
  intros Hinv id o' Ho'.
  destruct (orders (db s) !! id) as [o|] eqn:Ho.
  - destruct (step_order_change cfg now op s id o Ho) as (o'' & Ho'' & Hch).
    rewrite Ho' in Ho''. inversion Ho''; subst o''.
    apply (change_keeps_closed_has_participants _ _ _ _ _ _ Hch), (Hinv id o Ho).
  - destruct (step_new_order cfg now op s id o' Ho Ho') as [Hst _].
    rewrite Hst. intros [H|H]; discriminate H.
Qed.

(** X14. A settlement never meets an order without participants: an order
    becomes Closed only when it has participants, and nobody can leave a
    Closed order, so in every state reached from one where Closed and
    Archived orders have participants they still do; the credit
    [cost * (n - 1)] of a settlement is then computed with [n >= 1]. *)
Theorem closed_orders_have_participants cfg ops : forall s,
  closed_has_participants (db s) ->
  closed_has_participants (db (run cfg ops s)) /\
  forall f now id p d' fl o,
    orders (db (run cfg ops s)) !! id = Some o ->
    logOrder f now id p (db (run cfg ops s)) = (d', fl) ->
    flashed success fl = true ->
    (1 <= length (userOrders o))%nat.
Proof.
  induction ops as [|[now0 op] ops IH]; intros s Hinv.
  - simpl. split; [exact Hinv|].
    intros f now id p d' fl o Ho Hlog Hfl.
    destruct (logOrder_success _ _ _ _ _ _ _ Hlog Hfl) as [t Hc].
    destruct (logOrder_chain_conditions _ _ _ _ _ _ _ Hc)
      as (o' & u & Ho' & Hst & _).
    rewrite Ho in Ho'. inversion Ho'; subst o'.
    pose proof (Hinv id o Ho (or_introl Hst)) as Hne.
    destruct (userOrders o); [contradiction | simpl; lia].
  - simpl. apply IH, step_keeps_closed_has_participants, Hinv.
Qed.

Lemma closed_orders_have_participants_witness :
  let s := {| db := Scenario.start; jobs := [] |} in
  let ops := [(100, OpLeaveOrder Scenario.B Scenario.order_id);
              (200, OpLogOrder no_faults Scenario.order_id Scenario.A)] in
  closed_has_participants (db s) /\
  order_state (db s) Scenario.order_id = Some Closed /\
  order_state (db (run Scenario.cfg ops s)) Scenario.order_id = Some Archived /\
  participants (db (run Scenario.cfg ops s)) Scenario.order_id
    = Some [Scenario.A; Scenario.B; Scenario.C] /\
  closed_has_participants (db (run Scenario.cfg ops s)).
Proof.
  cbv zeta.
  assert (H : closed_has_participants Scenario.start).
  { intros id o Ho. simpl in Ho.
    destruct (decide (id = Scenario.order_id)) as [->|Hne].
    - rewrite lookup_singleton_eq in Ho. inversion Ho; subst o. discriminate.
    - rewrite lookup_singleton_ne in Ho by congruence. discriminate Ho. }
  split; [exact H|]. split; [reflexivity|].
  split; [vm_compute; reflexivity|]. split; [vm_compute; reflexivity|].
  exact (proj1 (closed_orders_have_participants Scenario.cfg
                  [(100, OpLeaveOrder Scenario.B Scenario.order_id);
                   (200, OpLogOrder no_faults Scenario.order_id Scenario.A)]
                  {| db := Scenario.start; jobs := [] |} H)).
Defined.

(** ** Joining and leaving, continued *)

Lemma join_details_resolved body fs :
  (exists ds, join_details body fs = Resolved ds) <-> fields_provided body fs.
Proof.
  unfold fields_provided. induction fs as [|fld rest IH]; simpl.
  - split; [intros _; constructor | eauto].
  - split.
    + intros [ds H].
      destruct (body !! field_name fld) as [v|] eqn:Hv; [|discriminate H].
      destruct (decide (v = "")) as [->|Hne].
      * rewrite bool_decide_eq_true_2 in H by reflexivity. discriminate H.
      * rewrite bool_decide_eq_false_2 in H by exact Hne.
        destruct (join_details body rest) as [ds'|err] eqn:Hrest; [|discriminate H].
        constructor; [eauto|]. apply IH. eauto.
    + intros H. apply Forall_cons in H as [(v & Hv & Hne) Hrest].
      rewrite Hv. rewrite bool_decide_eq_false_2 by exact Hne.
      apply IH in Hrest as [ds' Hds']. rewrite Hds'. eauto.
Qed.

Lemma join_details_length body fs ds :
  join_details body fs = Resolved ds -> length ds = length fs.
Proof.
  revert ds. induction fs as [|fld rest IH]; intros ds H; simpl in *.
  - inversion H. reflexivity.
  - destruct (body !! field_name fld) as [v|]; [|discriminate H].
    destruct (bool_decide (v = "")); [discriminate H|].
    destruct (join_details body rest) as [ds'|err]; [|discriminate H].
    inversion H. simpl. f_equal. apply IH. reflexivity.
Qed.

(** X15. [joinOrder] succeeds exactly when the order resolves as Open or
    Closing, the user is not yet a participant, the order's location names a
    configured order type, and the request body has a non-empty value for
    every field of that type; the value is not compared with the field's
    list of valid values. It then appends the user, with one detail line per
    field, to the participants; otherwise the database is unchanged. *)
Theorem joinOrder_succeeds_exactly_when cfg u id body d :
  (flashed success (snd (joinOrder cfg u id body d)) = true <->
   exists o ty,
     orders d !! id = Some o /\
     (state o = Open \/ state o = Closing) /\
     (u ∉ uo_user <$> userOrders o) /\
     find_orderType (orderTypes cfg) (location o) = Some ty /\
     fields_provided body (fields ty)) /\
  (flashed success (snd (joinOrder cfg u id body d)) = true ->
   exists o ty ds,
     orders d !! id = Some o /\
     find_orderType (orderTypes cfg) (location o) = Some ty /\
     length ds = length (fields ty) /\
     fst (joinOrder cfg u id body d) =
       set_orders
         (<[id := set_userOrders (userOrders o ++ [mkUserOrder u ds]) o]> (orders d)) d) /\
  (flashed success (snd (joinOrder cfg u id body d)) = false ->
   fst (joinOrder cfg u id body d) = d).
Proof.
  unfold joinOrder.
  destruct (orders d !! id) as [o|] eqn:Ho.
  2:{ simpl. split; [|split; [discriminate | reflexivity]].
      split; [discriminate|]. intros (o & ty & H & _). discriminate H. }
  destruct (in_states [Open; Closing] (state o)) eqn:Hst.
  2:{ simpl. split; [|split; [discriminate | reflexivity]].
      split; [discriminate|]. intros (o' & ty & H & [Hs|Hs] & _);
        inversion H; subst o'; rewrite Hs in Hst; discriminate Hst. }
  destruct (participates u o) eqn:Hp.
  { simpl. split; [|split; [discriminate | reflexivity]].
    split; [discriminate|]. intros (o' & ty & H & _ & Hout & _).
    inversion H; subst o'. apply participates_true in Hp. contradiction. }
  simpl. apply participates_false in Hp.
  destruct (find_orderType (orderTypes cfg) (location o)) as [ty|] eqn:Hty.
  2:{ simpl. split; [|split; [discriminate | reflexivity]].
      split; [discriminate|]. intros (o' & ty & H & _ & _ & Hty' & _).
      inversion H; subst o'. congruence. }
  destruct (join_details body (fields ty)) as [ds|err] eqn:Hds.
  - simpl. split; [|split; [|discriminate]].
    + split; [|reflexivity]. intros _. exists o, ty.
      split; [reflexivity|]. split.
      { destruct (state o); try discriminate Hst; auto. }
      split; [exact Hp|]. split; [exact Hty|].
      apply join_details_resolved. eauto.
    + intros _. exists o, ty, ds. split; [reflexivity|]. split; [exact Hty|].
      split; [apply (join_details_length _ _ _ Hds) | reflexivity].
  - simpl. split; [|split; [discriminate | reflexivity]].
    split; [discriminate|]. intros (o' & ty' & H & _ & _ & Hty' & Hf).
    inversion H; subst o'. rewrite Hty in Hty'. inversion Hty'; subst ty'.
    apply join_details_resolved in Hf as [ds Hds']. congruence.
Qed.

Lemma filter_leaves (u : ObjectId) (l : list UserOrder) ds :
  u ∉ uo_user <$> l ->
  filter (fun uo => uo_user uo <> u) (l ++ [mkUserOrder u ds]) = l.
Proof.
  intros Hout. rewrite filter_app. simpl.
  rewrite filter_cons_False by (simpl; intros H; apply H; reflexivity).
  rewrite filter_nil, app_nil_r.
  induction l as [|uo l IH]; [reflexivity|].
  rewrite fmap_cons in Hout. apply not_elem_of_cons in Hout as [Hne Hout].
  rewrite filter_cons_True by congruence. f_equal. apply IH. exact Hout.
Qed.

(** X16. Joining and then leaving is a round trip: when a user joins an
    order, he is a participant afterwards, a second join is rejected, and
    his leaving restores the database exactly as it was before he joined. *)
Theorem join_then_leave cfg u id body d :
  flashed success (snd (joinOrder cfg u id body d)) = true ->
  (exists l, participants d id = Some l /\ (u ∉ l) /\
             participants (fst (joinOrder cfg u id body d)) id = Some (l ++ [u])) /\
  (forall body',
     joinOrder cfg u id body' (fst (joinOrder cfg u id body d)) =
       (fst (joinOrder cfg u id body d),
        [(error, "Failed to join order; it may already be closed")])) /\
  leaveOrder u id (fst (joinOrder cfg u id body d)) =
    (d, [(success, "Successfully left order")]).
Proof.
  intros Hok.
  destruct (joinOrder_succeeds_exactly_when cfg u id body d) as (Hiff & Hdb & _).
  destruct (proj1 Hiff Hok) as (o & ty & Ho & Hst & Hout & _ & _).
  destruct (Hdb Hok) as (o' & ty' & ds & Ho' & _ & _ & ->).
  rewrite Ho in Ho'. inversion Ho'; subst o'. clear Ho' Hiff Hdb.
  assert (Hin : in_states [Open; Closing] (state o) = true).
  { destruct Hst as [-> | ->]; reflexivity. }
  split; [|split].
  - exists (uo_user <$> userOrders o). unfold participants. rewrite Ho. simpl.
    split; [reflexivity|]. split; [exact Hout|].
    rewrite lookup_insert_eq. simpl. rewrite fmap_app. reflexivity.
  - intros body'.
    eapply joinOrder_rejected; [simpl; apply lookup_insert_eq|].
    right. simpl. rewrite fmap_app. apply elem_of_app. right. left.
  - unfold leaveOrder. simpl. rewrite lookup_insert_eq. simpl. rewrite Hin.
    assert (Hp : participates u
                   (set_userOrders (userOrders o ++ [mkUserOrder u ds]) o) = true).
    { apply participates_true. simpl. rewrite fmap_app. apply elem_of_app. right. left. }
    rewrite Hp. simpl. f_equal.
    rewrite insert_insert_eq. rewrite (filter_leaves u (userOrders o) ds Hout).
    destruct d as [us os ts au]. unfold set_orders. simpl in *. f_equal.
    apply insert_id. rewrite Ho. f_equal. destruct o; reflexivity.
Qed.

Lemma join_then_leave_witness :
  let o := set_state Open Scenario.tenders in
  let d := set_orders {[ Scenario.order_id := o ]} Scenario.start in
  flashed success (snd (joinOrder Scenario.cfg Scenario.D Scenario.order_id ∅ d)) = true /\
  leaveOrder Scenario.D Scenario.order_id
    (fst (joinOrder Scenario.cfg Scenario.D Scenario.order_id ∅ d)) =
    (d, [(success, "Successfully left order")]).
Proof.
  cbv zeta. split; [reflexivity|].
  exact (proj2 (proj2 (join_then_leave Scenario.cfg Scenario.D Scenario.order_id ∅
                  (set_orders {[ Scenario.order_id := set_state Open Scenario.tenders ]}
                     Scenario.start) eq_refl))).
Defined.

Lemma joinOrder_succeeds_exactly_when_witness :
  let o := set_state Open Scenario.tenders in
  let d := set_orders {[ Scenario.order_id := o ]} Scenario.start in
  (exists o' ty,
     orders d !! Scenario.order_id = Some o' /\
     (state o' = Open \/ state o' = Closing) /\
     (Scenario.D ∉ uo_user <$> userOrders o') /\
     find_orderType (orderTypes Scenario.cfg) (location o') = Some ty /\
     fields_provided ∅ (fields ty)) /\
  flashed success (snd (joinOrder Scenario.cfg Scenario.D Scenario.order_id ∅ d)) = true.
Proof.
  cbv zeta.
  assert (H : exists o' ty,
     orders (set_orders {[ Scenario.order_id := set_state Open Scenario.tenders ]}
               Scenario.start) !! Scenario.order_id = Some o' /\
     (state o' = Open \/ state o' = Closing) /\
     (Scenario.D ∉ uo_user <$> userOrders o') /\
     find_orderType (orderTypes Scenario.cfg) (location o') = Some ty /\
     fields_provided ∅ (fields ty)).
  { exists (set_state Open Scenario.tenders),
           (mkOrderType "tenders" "chicken tenders" 5 []).
    split; [reflexivity|]. split; [left; reflexivity|].
    split; [apply (bool_decide_unpack _); vm_compute; exact I|].
    split; [reflexivity | constructor]. }
  split; [exact H|].
  exact (proj2 (proj1 (joinOrder_succeeds_exactly_when Scenario.cfg Scenario.D
                         Scenario.order_id ∅
                         (set_orders
                            {[ Scenario.order_id := set_state Open Scenario.tenders ]}
                            Scenario.start))) H).
Defined.

(** ** Creating an order *)

(** X17. [createOrder] adds one order or none. When a type of the requested
    name is configured and the name and the type's description are not
    empty, it stores one order under an id no stored order has: Open,
    without participants and purchaser, opening now, closing at the
    requested date, with the cost and the description of the type; it queues
    the order's ['closingOrder'] job and flashes success. When no type has
    that name, or the name or the description is empty, the schema refuses
    the document: nothing is stored or queued and the error is flashed.
    Either way every stored order, user, ledger entry, audit entry and
    queued job stays as it is. *)
Theorem createOrder_adds_one_order cfg now type close s :
  orders (db s) !! fresh (dom (orders (db s))) = None /\
  (forall t,
     find_orderType (orderTypes cfg) type = Some t ->
     type <> "" -> type_description t <> "" ->
     snd (createOrder cfg now type close s) = [(success, "Created new order")] /\
     orders (db (fst (createOrder cfg now type close s)))
       !! fresh (dom (orders (db s)))
       = Some (mkOrder now close type (type_description t) (type_cost t) Open [] None) /\
     type_name t = type /\
     jobs (fst (createOrder cfg now type close s)) =
       jobs s ++ [mkJob closingOrder (fresh (dom (orders (db s))))
                    (Z.max (close - orderCloseTimeout cfg) now)]) /\
  ((find_orderType (orderTypes cfg) type = None \/ type = "" \/
    exists t, find_orderType (orderTypes cfg) type = Some t /\ type_description t = "") ->
   createOrder cfg now type close s = (s, [(error, "Failed to create new order")])) /\
  (forall id, id <> fresh (dom (orders (db s))) ->
     orders (db (fst (createOrder cfg now type close s))) !! id = orders (db s) !! id) /\
  users (db (fst (createOrder cfg now type close s))) = users (db s) /\
  transactions (db (fst (createOrder cfg now type close s))) = transactions (db s) /\
  audits (db (fst (createOrder cfg now type close s))) = audits (db s) /\
  (forall j, j ∈ jobs s -> j ∈ jobs (fst (createOrder cfg now type close s))).
Proof.
  split; [apply not_elem_of_dom; apply is_fresh|].
  destruct (createOrder_cases cfg now type close s)
    as [(ty & Hty & Hname & Hdesc & Hc) | [Hcause Hc]]; rewrite Hc;
    cbn [fst snd db jobs orders users transactions audits set_orders].
  - split; [|split; [|split; [|split; [|split; [|split]]]]]; try reflexivity.
    + intros t Ht _ _. rewrite Hty in Ht. inversion Ht; subst t.
      split; [reflexivity|]. split; [apply lookup_insert_eq|]. split; [|reflexivity].
      unfold find_orderType in Hty. apply find_some in Hty as [_ Hty].
      apply bool_decide_eq_true_1 in Hty. exact Hty.
    + intros [Hnone | [Hempty | (t & Ht & Hd)]]; exfalso.
      * congruence.
      * contradiction.
      * rewrite Hty in Ht. inversion Ht; subst t. contradiction.
    + intros id Hne. apply lookup_insert_ne. congruence.
    + intros j Hin. unfold schedule. apply elem_of_app. left. exact Hin.
  - split; [|split; [|split; [|split; [|split; [|split]]]]]; try reflexivity.
    + intros t Ht Hname Hdesc. exfalso.
      destruct Hcause as [Hnone | [Hempty | (t' & Ht' & Hd)]].
      * congruence.
      * contradiction.
      * rewrite Ht in Ht'. inversion Ht'; subst t'. contradiction.
    + intros j Hin. exact Hin.
Qed.

Lemma createOrder_adds_one_order_witness :
  let r := createOrder Scenario.cfg 100 "tenders" 9000 Scenario.empty in
  (find_orderType (orderTypes Scenario.cfg) "tenders"
     = Some (mkOrderType "tenders" "chicken tenders" 5 []) /\
   "tenders" <> "" /\ "chicken tenders" <> "") /\
  snd r = [(success, "Created new order")] /\
  orders (db (fst r)) !! 0%nat
    = Some (mkOrder 100 9000 "tenders" "chicken tenders" 5 Open [] None) /\
  jobs (fst r) = [mkJob closingOrder 0%nat 4000] /\
  createOrder Scenario.cfg 100 "nuggets" 9000 Scenario.empty
    = (Scenario.empty, [(error, "Failed to create new order")]).
Proof.
  cbv zeta.
  assert (Hn : "tenders" <> "") by discriminate.
  assert (Hd : "chicken tenders" <> "") by discriminate.
  split; [split; [reflexivity | split; [exact Hn | exact Hd]]|].
  pose proof (createOrder_adds_one_order Scenario.cfg 100 "tenders" 9000 Scenario.empty)
    as (_ & Hok & _).
  destruct (Hok (mkOrderType "tenders" "chicken tenders" 5 []) eq_refl Hn Hd)
    as (Hfl & Ho & _ & Hj).
  split; [exact Hfl|]. split; [exact Ho|]. split; [exact Hj|].
  apply (proj1 (proj2 (proj2 (createOrder_adds_one_order Scenario.cfg 100 "nuggets" 9000
                                Scenario.empty)))).
  left. reflexivity.
Defined.

(** ** Forced adjustment, continued *)

(** X18. A forced adjustment is all or nothing, but its success message is
    not: when the user is found and a later write of the transaction (the
    audit, the ledger entry or the commit) throws, the database stays as it
    was and no ledger entry exists, yet the success message has been flashed
    before the error message. When the user does not resolve, only the error
    is flashed. *)
Theorem setCoins_flashes_success_early f now admin id v d :
  (forall u, users d !! id = Some u ->
     f (CallUpdateUser id) = false ->
     f CallAudit = true \/ f CallCreateTransaction = true \/ f CallCommit = true ->
     setCoins f now admin id v d =
       (d, [(success, "Set coins"); (error, "Failed to update coins")])) /\
  (users d !! id = None ->
   setCoins f now admin id v d = (d, [(error, "Failed to update coins")])).
Proof.
  split.
  - intros u Hu Hupd Hlater. unfold setCoins.
    destruct (setCoins_chain f now admin id v d) as [w [t|err]] eqn:Hc.
    + exfalso. unfold setCoins_chain in Hc.
      chain_inv Hc as Hx. unfold User_findByIdAndUpdate_set in Hx.
      chain_inv Hx as Hs1. apply storage_resolved in Hs1 as [_ ->].
      rewrite Hu in Hx. inversion Hx; subst; clear Hx.
      chain_inv Hc as Ha. unfold audit in Ha. chain_inv Ha as Hs2.
      apply storage_resolved in Hs2 as [Haud ->]. inversion Ha; subst; clear Ha.
      chain_inv Hc as Ht. unfold Transaction_create in Ht. chain_inv Ht as Hs3.
      apply storage_resolved in Hs3 as [Hcre ->]. inversion Ht; subst; clear Ht.
      chain_inv Hc as Hcm. unfold commitTransaction in Hcm.
      apply storage_resolved in Hcm as [Hcom _].
      destruct Hlater as [H | [H | H]]; congruence.
    + rewrite Hupd, Hu. reflexivity.
  - intros Hu. unfold setCoins.
    destruct (setCoins_chain f now admin id v d) as [w [t|err]] eqn:Hc.
    + exfalso. unfold setCoins_chain in Hc.
      chain_inv Hc as Hx. unfold User_findByIdAndUpdate_set in Hx.
      chain_inv Hx as Hs1. apply storage_resolved in Hs1 as [_ ->].
      rewrite Hu in Hx. inversion Hx; subst. discriminate Hc.
    + rewrite Hu. simpl. rewrite andb_false_r. reflexivity.
Qed.

Lemma setCoins_flashes_success_early_witness :
  (users Scenario.start !! Scenario.B = Some (mkUser 7 true) /\
   Scenario.ledger_write_fails (CallUpdateUser Scenario.B) = false /\
   Scenario.ledger_write_fails CallCreateTransaction = true) /\
  setCoins Scenario.ledger_write_fails 200 Scenario.A Scenario.B 100 Scenario.start =
    (Scenario.start, [(success, "Set coins"); (error, "Failed to update coins")]).
Proof.
  split; [split; [reflexivity | split; reflexivity]|].
  exact (proj1 (setCoins_flashes_success_early Scenario.ledger_write_fails 200
                  Scenario.A Scenario.B 100 Scenario.start)
           (mkUser 7 true) eq_refl eq_refl (or_intror (or_introl eq_refl))).
Defined.

(** ** Database upgrade *)

Section UpgradeProperties.

Context {Content : Type}.
Implicit Types (cfg : IUpgradeConfig Content) (c : Content) (st : Store Content).

Lemma upgrade_outcome fuel cfg : forall v c st r,
  upgrade fuel cfg v c = Some (st, r) ->
  match r with
  | Resolved _ => schemaVersion st = Some (targetVersion cfg)
  | Rejected _ =>
      exists v', schemaVersion st = Some v' /\ v' <> targetVersion cfg /\
        match List.find (fun step => step_from step =? v') (steps cfg) with
        | None => True
        | Some step => exists c0 c1 err, upgradeFunc step c0 = (c1, Rejected err)
        end
  end.
Proof.
  induction fuel as [|fuel IH]; intros v c st r H; simpl in H; [discriminate H|].
  destruct (Z.eqb_spec v (targetVersion cfg)) as [->|Hne].
  - inversion H; subst. reflexivity.
  - destruct (find (fun step => step_from step =? v) (steps cfg)) as [step|] eqn:Hfind.
    + destruct (upgradeFunc step c) as [c' [x|err]] eqn:Hfun.
      * apply (IH _ _ _ _ H).
      * inversion H; subst. exists v. simpl. split; [reflexivity|]. split; [exact Hne|].
        rewrite Hfind. eauto.
    + inversion H; subst. exists v. simpl. split; [reflexivity|]. split; [exact Hne|].
      rewrite Hfind. exact I.
Qed.

(** X19. An upgrade that resolves has brought the database to the target
    version, whatever the steps are; one that rejects has stopped at a
    version that is not the target, from which no step starts or whose step
    failed. *)
Theorem upgrade_ends_at_target fuel cfg st st' r :
  upgradeDatabase fuel cfg st = Some (st', r) ->
  match r with
  | Resolved _ => schemaVersion st' = Some (targetVersion cfg)
  | Rejected _ =>
      exists v', schemaVersion st' = Some v' /\ v' <> targetVersion cfg /\
        match List.find (fun step => step_from step =? v') (steps cfg) with
        | None => True
        | Some step => exists c0 c1 err, upgradeFunc step c0 = (c1, Rejected err)
        end
  end.
Proof.
  unfold upgradeDatabase. destruct (schemaVersion st); apply upgrade_outcome.
Qed.

Lemma filter_length_lt {A} (P Q : A -> Prop) `{forall x, Decision (P x)}
    `{forall x, Decision (Q x)} (l : list A) x :
  (forall y, Q y -> P y) -> x ∈ l -> P x -> ~ Q x ->
  (length (filter Q l) < length (filter P l))%nat.
Proof.
  intros Himp Hin HP HQ. induction l as [|y l IH]; [inversion Hin|].
  assert (Hle : (length (filter Q l) <= length (filter P l))%nat).
  { clear -Himp. induction l as [|z l IHl]; [simpl; lia|].
    rewrite !filter_cons. destruct (decide (Q z)) as [Hq|Hq].
    - rewrite decide_True by (apply Himp; exact Hq). simpl. lia.
    - destruct (decide (P z)); simpl; lia. }
  rewrite !filter_cons. apply elem_of_cons in Hin as [<-|Hin].
  - rewrite decide_False by exact HQ. rewrite decide_True by exact HP. simpl. lia.
  - specialize (IH Hin). destruct (decide (Q y)) as [Hq|Hq].
    + rewrite decide_True by (apply Himp; exact Hq). simpl. lia.
    + destruct (decide (P y)); simpl; lia.
Qed.

Lemma upgrade_has_fuel cfg :
  steps_increase cfg ->
  forall fuel v c,
    (length (steps_ahead cfg v) < fuel)%nat ->
    exists out, upgrade fuel cfg v c = Some out.
Proof.
  intros Hinc. induction fuel as [|fuel IH]; intros v c Hfuel; [lia|].
  simpl. destruct (v =? targetVersion cfg); [eauto|].
  destruct (find (fun step => step_from step =? v) (steps cfg)) as [step|] eqn:Hfind;
    [|eauto].
  destruct (upgradeFunc step c) as [c' [x|err]]; [|eauto].
  apply IH.
  apply find_some in Hfind as [Hin Hfrom]. apply Z.eqb_eq in Hfrom.
  unfold steps_increase in Hinc. rewrite Forall_forall in Hinc.
  apply list_elem_of_In in Hin. pose proof (Hinc step Hin) as Hlt.
  assert (Hm : (length (steps_ahead cfg (step_to step)) <
                length (steps_ahead cfg v))%nat).
  { unfold steps_ahead.
    apply (filter_length_lt (fun s => v <= step_from s)
             (fun s => step_to step <= step_from s) (steps cfg) step);
      [intros y Hy; lia | exact Hin | lia | lia]. }
  lia.
Qed.

(** X20. When every configured step leads to a later version, the upgrade
    always returns: its recursion ends within one call more than there are
    steps, whatever the stored version is and whatever the upgrade functions
    do. *)
Theorem upgrade_terminates cfg st :
  steps_increase cfg ->
  exists out, upgradeDatabase (S (length (steps cfg))) cfg st = Some out.
Proof.
  intros Hinc. unfold upgradeDatabase.
  assert (Hle : forall v, (length (steps_ahead cfg v) < S (length (steps cfg)))%nat).
  { intros v. unfold steps_ahead.
    pose proof (length_filter (fun step => v <= step_from step) (steps cfg)). lia. }
  destruct (schemaVersion st); apply (upgrade_has_fuel cfg Hinc); apply Hle.
Qed.

(** X21. Upgrading is idempotent: once an upgrade has resolved, upgrading
    again runs no step and leaves the database exactly as it is. *)
Theorem upgrade_again_changes_nothing fuel fuel' cfg st st' x :
  upgradeDatabase fuel cfg st = Some (st', Resolved x) ->
  (schemaVersion st = Some (targetVersion cfg) -> st' = st) /\
  upgradeDatabase (S fuel') cfg st' = Some (st', Resolved tt).
Proof.
  intros H. split.
  - intros Hv. unfold upgradeDatabase in H. rewrite Hv in H.
    destruct fuel as [|fuel]; [discriminate H|]. simpl in H.
    rewrite Z.eqb_refl in H. inversion H. destruct st. simpl in *. congruence.
  - pose proof (upgrade_ends_at_target _ _ _ _ _ H) as Hv. simpl in Hv.
    unfold upgradeDatabase. rewrite Hv. simpl. rewrite Z.eqb_refl.
    destruct st'. simpl in *. subst. reflexivity.
Qed.

End UpgradeProperties.

Lemma upgrade_ends_at_target_witness :
  let st := mkStore None ({[ 1%nat := false; 2%nat := true ]} : gmap nat bool) in
  exists st',
    upgradeDatabase 2 (dbMigration upgradeFrom1To2) st = Some (st', Resolved tt) /\
    schemaVersion st' = Some 2.
Proof.
  cbv zeta. eexists. split; [reflexivity|].
  exact (upgrade_ends_at_target 2 (dbMigration upgradeFrom1To2)
           (mkStore None ({[ 1%nat := false; 2%nat := true ]} : gmap nat bool))
           _ (Resolved tt) eq_refl).
Defined.

Lemma upgrade_terminates_witness :
  steps_increase (dbMigration upgradeFrom1To2) /\
  exists out,
    upgradeDatabase 2 (dbMigration upgradeFrom1To2)
      (mkStore (Some 7) (∅ : gmap nat bool)) = Some out.
Proof.
  assert (H : steps_increase (dbMigration upgradeFrom1To2)).
  { unfold steps_increase. simpl. repeat constructor. }
  split; [exact H|].
  exact (upgrade_terminates (dbMigration upgradeFrom1To2)
           (mkStore (Some 7) (∅ : gmap nat bool)) H).
Defined.

Lemma upgrade_again_changes_nothing_witness :
  let st := mkStore (Some 1) ({[ 1%nat := false ]} : gmap nat bool) in
  exists st',
    upgradeDatabase 2 (dbMigration upgradeFrom1To2) st = Some (st', Resolved tt) /\
    upgradeDatabase 1 (dbMigration upgradeFrom1To2) st' = Some (st', Resolved tt).
Proof.
  cbv zeta. eexists. split; [reflexivity|].
  exact (proj2 (upgrade_again_changes_nothing 2 0 (dbMigration upgradeFrom1To2)
                  (mkStore (Some 1) ({[ 1%nat := false ]} : gmap nat bool))
                  _ tt eq_refl)).
Defined.

(** X22. With the migration configured in [config/dbMigration.ts], a
    database without version document or at version 1 is brought to version
    2 with every user activated and no user added or removed; a database at
    version 2 is left as it is; at any other version the upgrade rejects, as
    no step starts there, and changes nothing but the version document it
    may have created. *)
Theorem configured_migration fuel (activated : gmap nat bool) :
  (2 <= fuel)%nat ->
  (forall v, v = None \/ v = Some 1 ->
     upgradeDatabase fuel (dbMigration upgradeFrom1To2) (mkStore v activated) =
       Some (mkStore (Some 2) ((fun _ => true) <$> activated), Resolved tt)) /\
  (forall k, ((fun _ : bool => true) <$> activated) !! k = None <-> activated !! k = None) /\
  (forall k b, ((fun _ : bool => true) <$> activated) !! k = Some b -> b = true) /\
  upgradeDatabase fuel (dbMigration upgradeFrom1To2) (mkStore (Some 2) activated) =
    Some (mkStore (Some 2) activated, Resolved tt) /\
  (forall v, v <> 1 -> v <> 2 ->
     upgradeDatabase fuel (dbMigration upgradeFrom1To2) (mkStore (Some v) activated) =
       Some (mkStore (Some v) activated, Rejected "No upgrade step")).
Proof.
  intros Hfuel. destruct fuel as [|[|fuel]]; try lia.
  split; [|split; [|split; [|split]]].
  - intros v [-> | ->]; reflexivity.
  - intros k. rewrite lookup_fmap. destruct (activated !! k); simpl; split; congruence.
  - intros k b. rewrite lookup_fmap. destruct (activated !! k); simpl; congruence.
  - reflexivity.
  - intros v H1 H2.
    assert (E2 : (v =? 2) = false) by (apply Z.eqb_neq; exact H2).
    assert (E1 : (1 =? v) = false) by (apply Z.eqb_neq; congruence).
    unfold upgradeDatabase.
    cbn [schemaVersion content upgrade dbMigration targetVersion steps find step_from].
    rewrite E2, E1. reflexivity.
Qed.

Lemma configured_migration_witness :
  (2 <= 3)%nat /\
  upgradeDatabase 3 (dbMigration upgradeFrom1To2)
    (mkStore None ({[ 5%nat := false ]} : gmap nat bool)) =
    Some (mkStore (Some 2) ((fun _ => true) <$> ({[ 5%nat := false ]} : gmap nat bool)),
          Resolved tt).
Proof.
  assert (H : (2 <= 3)%nat) by lia.
  split; [exact H|].
  exact (proj1 (configured_migration 3 {[ 5%nat := false ]} H) None (or_introl eq_refl)).
Defined.

(** ** Return locations *)

Lemma truthy_default v : truthy v = true -> default "/" v <> "".
Proof.
  destruct v as [s|]; simpl; [|discriminate].
  intros H Hs. subst s. discriminate H.
Qed.

(** X23. A redirect always has somewhere to go, and a stored location is
    used once: [redirectToLast] never redirects to the empty location, a
    non-empty [returnTo] of the query string is the target whatever the
    session and the referrer say, and after the call the session holds no
    usable return location. *)
Theorem redirect_has_a_target req :
  snd (redirectToLast req) <> "" /\
  (truthy (query_returnTo req) = true ->
   Some (snd (redirectToLast req)) = query_returnTo req) /\
  (forall s, req_session (fst (redirectToLast req)) = Some s ->
     truthy (returnTo s) = false).
Proof.
  unfold redirectToLast. split; [|split].
  - simpl. destruct (truthy (query_returnTo req)) eqn:Hq.
    + rewrite Hq. apply truthy_default. exact Hq.
    + destruct (req_session req) as [s|]; simpl.
      * destruct (truthy (returnTo s)) eqn:Hs; simpl.
        -- rewrite Hs. simpl. rewrite Hs. apply truthy_default. exact Hs.
        -- destruct (truthy (header_referrer req)) eqn:Hr;
             [apply truthy_default; exact Hr | discriminate].
      * destruct (truthy (header_referrer req)) eqn:Hr;
          [apply truthy_default; exact Hr | discriminate].
  - simpl. intros Hq. rewrite Hq, Hq.
    destruct (query_returnTo req); [reflexivity | discriminate Hq].
  - simpl. intros s. destruct (req_session req) as [s0|]; [|discriminate].
    destruct (truthy (returnTo s0)) eqn:Hs; simpl; intros H; inversion H; subst; auto.
Qed.

Lemma redirect_has_a_target_witness :
  let req := mkRequest (Some "/orders") (Some "/users")
               (Some (mkSession (Some "/audit"))) in
  truthy (query_returnTo req) = true /\
  Some (snd (redirectToLast req)) = query_returnTo req.
Proof.
  cbv zeta. split; [reflexivity|].
  exact (proj1 (proj2 (redirect_has_a_target
                         (mkRequest (Some "/orders") (Some "/users")
                            (Some (mkSession (Some "/audit")))))) eq_refl).
Defined.

(** X24. Storing and returning is a round trip, once: when [storeReturnTo]
    sees a request with a session and a non-empty referrer, a later request
    of that session without [returnTo] in its query string is redirected by
    [redirectToLast] to that referrer, whatever its own referrer is; the
    request after that one is redirected by its own referrer, or to ["/"]
    when it has none. *)
Theorem return_location_round_trip req later after r s :
  req_session req = Some s ->
  header_referrer req = Some r -> r <> "" ->
  req_session later = req_session (storeReturnTo req) ->
  truthy (query_returnTo later) = false ->
  req_session after = req_session (fst (redirectToLast later)) ->
  truthy (query_returnTo after) = false ->
  snd (redirectToLast later) = r /\
  snd (redirectToLast after) =
    (if truthy (header_referrer after) then default "/" (header_referrer after)
     else "/").
Proof.
  intros Hs Hr Hne Hlater Hq Hafter Hq'.
  assert (Ht : truthy (Some r) = true).
  { simpl. rewrite bool_decide_eq_false_2 by exact Hne. reflexivity. }
  assert (Hstored : req_session later = Some {| returnTo := Some r |}).
  { rewrite Hlater. unfold storeReturnTo. rewrite Hs, Hr, Ht. reflexivity. }
  assert (Hcleared : req_session after = Some {| returnTo := None |}).
  { rewrite Hafter. unfold redirectToLast. simpl. rewrite Hstored.
    cbn [returnTo]. rewrite Ht. reflexivity. }
  split.
  - unfold redirectToLast. rewrite Hstored, Hq. cbn [returnTo]. rewrite Ht.
    cbn [fst snd]. rewrite Ht. change (negb true) with false. cbv iota.
    rewrite Ht. reflexivity.
  - unfold redirectToLast. rewrite Hcleared, Hq'. simpl.
    destruct (truthy (header_referrer after)); reflexivity.
Qed.

Lemma return_location_round_trip_witness :
  let req := mkRequest (Some "/orders?page=2") None (Some (mkSession None)) in
  let later := mkRequest (Some "/orders/join?id=1") None
                 (req_session (storeReturnTo req)) in
  let after := mkRequest None None (req_session (fst (redirectToLast later))) in
  ("/orders?page=2" <> "") /\
  snd (redirectToLast later) = "/orders?page=2" /\
  snd (redirectToLast after) = "/".
Proof.
  cbv zeta.
  assert (Hne : "/orders?page=2" <> "") by discriminate.
  split; [exact Hne|].
  exact (return_location_round_trip
           (mkRequest (Some "/orders?page=2") None (Some (mkSession None)))
           (mkRequest (Some "/orders/join?id=1") None
              (req_session (storeReturnTo
                 (mkRequest (Some "/orders?page=2") None (Some (mkSession None))))))
           (mkRequest None None
              (req_session (fst (redirectToLast
                 (mkRequest (Some "/orders/join?id=1") None
                    (req_session (storeReturnTo
                       (mkRequest (Some "/orders?page=2") None
                          (Some (mkSession None))))))))))
           "/orders?page=2" (mkSession None)
           eq_refl eq_refl Hne eq_refl eq_refl eq_refl eq_refl).
Defined.

(** ** Identities *)

Lemma find_unique {A} (P : A -> bool) (l : list A) x :
  x ∈ l -> P x = true -> (forall y, y ∈ l -> P y = true -> y = x) ->
  List.find P l = Some x.
Proof.
  induction l as [|z l IH]; intros Hin HP Huniq; [inversion Hin|].
  simpl. destruct (P z) eqn:HPz.
  - f_equal. apply Huniq; [left | exact HPz].
  - apply IH.
    + apply elem_of_cons in Hin as [->|Hin]; [congruence | exact Hin].
    + exact HP.
    + intros y Hy. apply Huniq. right. exact Hy.
Qed.

Lemma find_none_elem {A} (P : A -> bool) (l : list A) :
  List.find P l = None -> forall y, y ∈ l -> P y = false.
Proof.
  intros H y Hy. apply (find_none P l H). apply list_elem_of_In. exact Hy.
Qed.

(** X25. A first login registers a locked account: when no stored user has
    the profile's id for that provider, [authenticateFromProfile] stores one
    new user after the others, under an id no user has, with that single
    OAuth id, no coins and not enabled, so that the gate of the routers
    refuses him until an administrator enables him; when the profile lacks a
    first name, a last name or an e-mail, the schema refuses the document
    and nothing is stored. *)
Theorem first_login_registers_locked_account providerName u (l : Accounts) :
  List.find (fun x => matches_profile providerName (profile_id u) (snd x)) l = None ->
  (required (profile_firstName u) && required (profile_lastName u)
     && required (profile_email u) = true ->
   exists k,
     authenticateFromProfile providerName u l =
       (l ++ [(k, new_account providerName u)], Resolved k) /\
     (k ∉ fst <$> l) /\
     oAuthIds (new_account providerName u) = [mkOAuthId (profile_id u) providerName] /\
     coins (account (new_account providerName u)) = 0 /\
     forall d, users d !! k = Some (account (new_account providerName u)) ->
               authenticated d k = None) /\
  (required (profile_firstName u) && required (profile_lastName u)
     && required (profile_email u) = false ->
   authenticateFromProfile providerName u l = (l, Rejected "User validation failed")).
Proof.
  intros Hnone. unfold authenticateFromProfile. rewrite Hnone. split.
  - intros ->. eexists. split; [reflexivity|]. split.
    + intros Hin. apply (is_fresh (list_to_set (fst <$> l) : gset nat)).
      apply elem_of_list_to_set. exact Hin.
    + split; [reflexivity|]. split; [reflexivity|].
      intros d Hd. unfold authenticated. rewrite Hd. reflexivity.
  - intros ->. reflexivity.
Qed.

Lemma first_login_registers_locked_account_witness :
  let u := mkOAuthUser "gh-1" "Ada" "Lovelace" "ada@example.org" in
  List.find (fun x => matches_profile "github" (profile_id u) (snd x))
    ([] : Accounts) = None /\
  required (profile_firstName u) && required (profile_lastName u)
    && required (profile_email u) = true /\
  exists k,
    authenticateFromProfile "github" u [] =
      ([] ++ [(k, new_account "github" u)], Resolved k) /\
    (k ∉ fst <$> ([] : Accounts)) /\
    oAuthIds (new_account "github" u) = [mkOAuthId (profile_id u) "github"] /\
    coins (account (new_account "github" u)) = 0 /\
    forall d, users d !! k = Some (account (new_account "github" u)) ->
              authenticated d k = None.
Proof.
  cbv zeta. split; [reflexivity|]. split; [reflexivity|].
  exact (proj1 (first_login_registers_locked_account "github"
                  (mkOAuthUser "gh-1" "Ada" "Lovelace" "ada@example.org") []
                  eq_refl) eq_refl).
Defined.

(** X26. Logging in again registers nothing: whenever a login resolves with
    a user, a second login with the same profile resolves with the same
    user and leaves the collection as the first login left it. *)
Theorem login_is_idempotent providerName u (l l' : Accounts) k :
  authenticateFromProfile providerName u l = (l', Resolved k) ->
  authenticateFromProfile providerName u l' = (l', Resolved k).
Proof.
  unfold authenticateFromProfile.
  destruct (find (fun x => matches_profile providerName (profile_id u) (snd x)) l)
    as [[k0 a0]|] eqn:Hfind.
  - intros H. inversion H; subst. rewrite Hfind. reflexivity.
  - destruct (required (profile_firstName u) && required (profile_lastName u)
              && required (profile_email u)); [|discriminate].
    intros H. inversion H; subst. clear H.
    rewrite (find_unique _ _
               (fresh (list_to_set (fst <$> l) : gset nat), new_account providerName u)).
    + reflexivity.
    + apply elem_of_app. right. left.
    + simpl. unfold matches_profile, new_account. simpl.
      apply bool_decide_eq_true_2. left.
    + intros y Hy Hmatch. apply elem_of_app in Hy as [Hy|Hy].
      * rewrite (find_none_elem _ _ Hfind y Hy) in Hmatch. discriminate Hmatch.
      * apply list_elem_of_singleton in Hy. exact Hy.
Qed.

Lemma login_is_idempotent_witness :
  let u := mkOAuthUser "gh-1" "Ada" "Lovelace" "ada@example.org" in
  authenticateFromProfile "github" u [] =
    ([(0%nat, new_account "github" u)], Resolved 0%nat) /\
  authenticateFromProfile "github" u [(0%nat, new_account "github" u)] =
    ([(0%nat, new_account "github" u)], Resolved 0%nat).
Proof.
  cbv zeta. split; [reflexivity|].
  exact (login_is_idempotent "github"
           (mkOAuthUser "gh-1" "Ada" "Lovelace" "ada@example.org") [] _ 0%nat eq_refl).
Defined.

(** *** [setOAuthProvider] *)

Lemma findOneAndUpdate_absent uid P g (l : Accounts) :
  uid ∉ fst <$> l -> findOneAndUpdate uid P g l = None.
Proof.
  induction l as [|[k b] l IH]; intros Hout; [reflexivity|].
  rewrite fmap_cons in Hout. apply not_elem_of_cons in Hout as [Hne Hout].
  simpl in *. rewrite bool_decide_eq_false_2 by congruence. simpl.
  rewrite (IH Hout). reflexivity.
Qed.

Lemma update_at_cons uid g k b (l : Accounts) :
  update_at uid g ((k, b) :: l) =
    (if bool_decide (k = uid) then (k, g b) else (k, b)) :: update_at uid g l.
Proof. reflexivity. Qed.

Lemma update_at_absent uid g (l : Accounts) :
  uid ∉ fst <$> l -> update_at uid g l = l.
Proof.
  induction l as [|[k b] l IH]; intros Hout; [reflexivity|].
  rewrite fmap_cons in Hout. apply not_elem_of_cons in Hout as [Hne Hout].
  simpl in Hne. rewrite update_at_cons.
  rewrite bool_decide_eq_false_2 by congruence. f_equal. apply IH. exact Hout.
Qed.

Lemma findOneAndUpdate_present uid P g (l : Accounts) a :
  NoDup (fst <$> l) -> (uid, a) ∈ l ->
  findOneAndUpdate uid P g l =
    if P a then Some (a, update_at uid g l) else None.
Proof.
  induction l as [|[k b] l IH]; intros Hnd Hin; [inversion Hin|].
  rewrite fmap_cons in Hnd. apply NoDup_cons in Hnd as [Hnotin Hnd]. simpl in Hnotin.
  rewrite update_at_cons.
  cbn [findOneAndUpdate]. destruct (decide (k = uid)) as [->|Hne].
  - assert (b = a) as ->.
    { apply elem_of_cons in Hin as [Heq|Hin]; [congruence|].
      exfalso. apply Hnotin. apply list_elem_of_fmap. exists (uid, a). auto. }
    rewrite bool_decide_eq_true_2 by reflexivity. cbn [andb].
    destruct (P a).
    + rewrite (update_at_absent uid g l Hnotin). reflexivity.
    + rewrite (findOneAndUpdate_absent uid P g l Hnotin). reflexivity.
  - rewrite bool_decide_eq_false_2 by exact Hne. cbn [andb].
    apply elem_of_cons in Hin as [Heq|Hin]; [congruence|].
    rewrite (IH Hnd Hin). destruct (P a); reflexivity.
Qed.

Lemma set_first_id_spec provider id ids :
  provider ∈ authType <$> ids ->
  List.find (fun x => bool_decide (authType x = provider)) (set_first_id provider id ids)
    = Some (mkOAuthId id provider) /\
  filter (fun x => authType x <> provider) (set_first_id provider id ids)
    = filter (fun x => authType x <> provider) ids /\
  length (set_first_id provider id ids) = length ids.
Proof.
  induction ids as [|x ids IH]; intros Hin; [inversion Hin|].
  simpl. destruct (decide (authType x = provider)) as [Heq|Hne].
  - rewrite bool_decide_eq_true_2 by exact Heq. simpl.
    rewrite bool_decide_eq_true_2 by exact Heq. rewrite Heq.
    split; [reflexivity|]. split; [|reflexivity].
    rewrite !filter_cons. rewrite decide_False by (simpl; tauto).
    rewrite decide_False by tauto. reflexivity.
  - rewrite bool_decide_eq_false_2 by exact Hne. simpl.
    rewrite bool_decide_eq_false_2 by exact Hne.
    rewrite fmap_cons in Hin. apply elem_of_cons in Hin as [Heq|Hin]; [congruence|].
    destruct (IH Hin) as (H1 & H2 & H3).
    split; [exact H1|]. split; [|simpl; congruence].
    rewrite !filter_cons. rewrite !decide_True by exact Hne. rewrite H2. reflexivity.
Qed.

Lemma push_id_spec provider id ids :
  provider ∉ authType <$> ids ->
  List.find (fun x => bool_decide (authType x = provider)) (ids ++ [mkOAuthId id provider])
    = Some (mkOAuthId id provider) /\
  filter (fun x => authType x <> provider) (ids ++ [mkOAuthId id provider])
    = filter (fun x => authType x <> provider) ids.
Proof.
  induction ids as [|x ids IH]; intros Hout.
  - simpl. rewrite bool_decide_eq_true_2 by reflexivity. split; [reflexivity|].
    rewrite filter_cons. rewrite decide_False by (simpl; tauto). reflexivity.
  - rewrite fmap_cons in Hout. apply not_elem_of_cons in Hout as [Hne Hout].
    destruct (IH Hout) as [H1 H2]. simpl.
    rewrite bool_decide_eq_false_2 by congruence. split; [exact H1|].
    rewrite !filter_cons. rewrite !decide_True by congruence. rewrite H2. reflexivity.
Qed.

Lemma elem_of_update_at uid g (l : Accounts) k b :
  (k, b) ∈ update_at uid g l <->
  (k <> uid /\ (k, b) ∈ l) \/ (k = uid /\ exists a, (uid, a) ∈ l /\ b = g a).
Proof.
  unfold update_at. rewrite list_elem_of_fmap. split.
  - intros ([k0 a0] & Heq & Hin). simpl in Heq.
    destruct (decide (k0 = uid)) as [->|Hne].
    + rewrite bool_decide_eq_true_2 in Heq by reflexivity. inversion Heq; subst.
      right. eauto.
    + rewrite bool_decide_eq_false_2 in Heq by exact Hne. inversion Heq; subst.
      left. auto.
  - intros [[Hne Hin] | [-> (a & Hin & ->)]].
    + exists (k, b). simpl. rewrite bool_decide_eq_false_2 by exact Hne. auto.
    + exists (uid, a). simpl. rewrite bool_decide_eq_true_2 by reflexivity. auto.
Qed.

Lemma unique_account (l : Accounts) k a b :
  NoDup (fst <$> l) -> (k, a) ∈ l -> (k, b) ∈ l -> a = b.
Proof.
  induction l as [|[k0 c] l IH]; intros Hnd Ha Hb; [inversion Ha|].
  rewrite fmap_cons in Hnd. apply NoDup_cons in Hnd as [Hnotin Hnd]. simpl in Hnotin.
  assert (Hin : forall x, (k0, x) ∈ l -> False).
  { intros x Hx. apply Hnotin. apply list_elem_of_fmap. exists (k0, x). auto. }
  apply elem_of_cons in Ha as [Ha|Ha]; apply elem_of_cons in Hb as [Hb|Hb].
  - congruence.
  - inversion Ha; subst. destruct (Hin _ Hb).
  - inversion Hb; subst. destruct (Hin _ Ha).
  - apply IH; assumption.
Qed.

Lemma setOAuthProvider_present uid provider id (l : Accounts) a :
  NoDup (fst <$> l) -> (uid, a) ∈ l ->
  exists a',
    setOAuthProvider uid provider id l =
      (update_at uid (fun _ => a') l, [provider_set provider a]) /\
    ((uid, a') ∈ update_at uid (fun _ => a') l) /\
    id_for provider a' = Some (mkOAuthId id provider) /\
    matches_profile provider id a' = true /\
    ids_of_others provider a' = ids_of_others provider a /\
    (firstName a', lastName a', email a', account a') =
      (firstName a, lastName a, email a, account a) /\
    (forall k b, k <> uid ->
       ((k, b) ∈ update_at uid (fun _ => a') l <-> (k, b) ∈ l)) /\
    fst <$> update_at uid (fun _ => a') l = fst <$> l.
Proof.
  intros Hnd Hin. unfold setOAuthProvider.
  rewrite !(findOneAndUpdate_present uid _ _ l a Hnd Hin).
  assert (Hsame : forall g, update_at uid g l = update_at uid (fun _ => g a) l).
  { intros g. unfold update_at. apply list_eq_Forall2.
    apply Forall2_fmap. apply Forall_Forall2_diag. apply Forall_forall.
    intros [k b] Hkb. simpl. destruct (decide (k = uid)) as [->|Hne].
    - rewrite !bool_decide_eq_true_2 by reflexivity.
      assert (b = a) as ->; [|reflexivity].
      apply (unique_account l uid b a Hnd Hkb Hin).
    - rewrite !bool_decide_eq_false_2 by exact Hne. reflexivity. }
  assert (Hrest : forall a',
    ((uid, a') ∈ update_at uid (fun _ => a') l) /\
    (forall k b, k <> uid ->
       ((k, b) ∈ update_at uid (fun _ => a') l <-> (k, b) ∈ l)) /\
    fst <$> update_at uid (fun _ => a') l = fst <$> l).
  { intros a'. split; [|split].
    - apply elem_of_update_at. right. eauto.
    - intros k b Hne. rewrite elem_of_update_at. split.
      + intros [[_ H]|[H _]]; [exact H | contradiction].
      + intros H. left. auto.
    - unfold update_at. rewrite <- list_fmap_compose. apply list_fmap_ext.
      intros i [k b] _. simpl. destruct (bool_decide (k = uid)); reflexivity. }
  unfold has_provider.
  destruct (decide (provider ∈ authType <$> oAuthIds a)) as [Hhas|Hnot].
  + rewrite (bool_decide_eq_true_2 _ Hhas). cbn [negb].
    destruct (set_first_id_spec provider id (oAuthIds a) Hhas) as (H1 & H2 & _).
    exists (set_oAuthIds (set_first_id provider id (oAuthIds a)) a).
    rewrite (Hsame (fun a => set_oAuthIds (set_first_id provider id (oAuthIds a)) a)).
    destruct (Hrest (set_oAuthIds (set_first_id provider id (oAuthIds a)) a))
      as (R1 & R2 & R3).
    split; [reflexivity|]. split; [exact R1|]. split; [exact H1|].
    split.
    { unfold matches_profile. apply bool_decide_eq_true_2.
      apply list_elem_of_In. unfold id_for in H1.
      apply (find_some _ _ H1). }
    split; [exact H2|]. split; [reflexivity|]. split; [exact R2 | exact R3].
  + rewrite (bool_decide_eq_false_2 _ Hnot). cbn [negb].
    destruct (push_id_spec provider id (oAuthIds a) Hnot) as (H1 & H2).
    exists (set_oAuthIds (oAuthIds a ++ [mkOAuthId id provider]) a).
    rewrite (Hsame (fun a => set_oAuthIds (oAuthIds a ++ [mkOAuthId id provider]) a)).
    destruct (Hrest (set_oAuthIds (oAuthIds a ++ [mkOAuthId id provider]) a))
      as (R1 & R2 & R3).
    split; [reflexivity|]. split; [exact R1|]. split; [exact H1|].
    split.
    { unfold matches_profile. apply bool_decide_eq_true_2.
      apply list_elem_of_In. unfold id_for in H1.
      apply (find_some _ _ H1). }
    split; [exact H2|]. split; [reflexivity|]. split; [exact R2 | exact R3].
Qed.

(** X27. [setOAuthProvider] sets one identity of one user: for a stored
    user (ids being unique) it reports success and afterwards the first id
    the user has for that provider is the new one, which a login with it
    matches; his ids for other providers, his names, e-mail, coins and flag,
    and every other user are as before, and no user is added or removed. For
    an id no user has, it reports the failure and changes nothing. *)
Theorem setOAuthProvider_sets_one_identity uid provider id (l : Accounts) :
  NoDup (fst <$> l) ->
  (forall a, (uid, a) ∈ l ->
     exists a',
       setOAuthProvider uid provider id l =
         (update_at uid (fun _ => a') l, [provider_set provider a]) /\
       ((uid, a') ∈ update_at uid (fun _ => a') l) /\
       id_for provider a' = Some (mkOAuthId id provider) /\
       matches_profile provider id a' = true /\
       ids_of_others provider a' = ids_of_others provider a /\
       (firstName a', lastName a', email a', account a') =
         (firstName a, lastName a, email a, account a) /\
       (forall k b, k <> uid ->
          ((k, b) ∈ update_at uid (fun _ => a') l <-> (k, b) ∈ l)) /\
       fst <$> update_at uid (fun _ => a') l = fst <$> l) /\
  ((uid ∉ fst <$> l) ->
     setOAuthProvider uid provider id l =
       (l, [(error, "Failed to set OAuth provider information")])).
Proof.
  intros Hnd. split.
  - intros a Hin. exact (setOAuthProvider_present uid provider id l a Hnd Hin).
  - intros Hout. unfold setOAuthProvider.
    rewrite !(findOneAndUpdate_absent uid _ _ l Hout). reflexivity.
Qed.

Lemma setOAuthProvider_sets_one_identity_witness :
  let a := mkAccount "Ada" "Lovelace" "ada@example.org"
             [mkOAuthId "g-1" "google"; mkOAuthId "gh-1" "github"]
             {| coins := 3; enabled := true |} in
  let b := mkAccount "Bob" "Byte" "bob@example.org" [] {| coins := 0; enabled := false |} in
  let l : Accounts := [(1%nat, b); (2%nat, a)] in
  NoDup (fst <$> l) /\ ((2%nat, a) ∈ l) /\
  exists a',
    setOAuthProvider 2%nat "github" "gh-2" l =
      (update_at 2%nat (fun _ => a') l, [provider_set "github" a]) /\
    ((2%nat, a') ∈ update_at 2%nat (fun _ => a') l) /\
    id_for "github" a' = Some (mkOAuthId "gh-2" "github") /\
    matches_profile "github" "gh-2" a' = true /\
    ids_of_others "github" a' = ids_of_others "github" a /\
    (firstName a', lastName a', email a', account a') =
      (firstName a, lastName a, email a, account a) /\
    (forall k b0, k <> 2%nat ->
       ((k, b0) ∈ update_at 2%nat (fun _ => a') l <-> (k, b0) ∈ l)) /\
    fst <$> update_at 2%nat (fun _ => a') l = fst <$> l.
Proof.
  cbv zeta.
  assert (Hnd : NoDup (fst <$> ([(1%nat, mkAccount "Bob" "Byte" "bob@example.org" []
                                   {| coins := 0; enabled := false |});
                                 (2%nat, mkAccount "Ada" "Lovelace" "ada@example.org"
                                   [mkOAuthId "g-1" "google"; mkOAuthId "gh-1" "github"]
                                   {| coins := 3; enabled := true |})] : Accounts))).
  { apply (bool_decide_unpack _). vm_compute. exact I. }
  assert (Hin : (2%nat, mkAccount "Ada" "Lovelace" "ada@example.org"
                   [mkOAuthId "g-1" "google"; mkOAuthId "gh-1" "github"]
                   {| coins := 3; enabled := true |})
                ∈ ([(1%nat, mkAccount "Bob" "Byte" "bob@example.org" []
                      {| coins := 0; enabled := false |});
                    (2%nat, mkAccount "Ada" "Lovelace" "ada@example.org"
                      [mkOAuthId "g-1" "google"; mkOAuthId "gh-1" "github"]
                      {| coins := 3; enabled := true |})] : Accounts)).
  { right. left. }
  split; [exact Hnd|]. split; [exact Hin|].
  exact (proj1 (setOAuthProvider_sets_one_identity 2%nat "github" "gh-2" _ Hnd) _ Hin).
Defined.

(** X28. An identity an administrator has set logs its user in: after
    [setOAuthProvider] for a stored user, a login of that provider with that
    id resolves with this user and registers nobody, provided no other user
    holds the same identity. *)
Theorem set_identity_logs_in uid provider id (l : Accounts) a u :
  NoDup (fst <$> l) -> (uid, a) ∈ l ->
  (forall k b, (k, b) ∈ l -> k <> uid -> matches_profile provider id b = false) ->
  profile_id u = id ->
  let l' := fst (setOAuthProvider uid provider id l) in
  authenticateFromProfile provider u l' = (l', Resolved uid).
Proof.
  intros Hnd Hin Hothers Hid.
  destruct (setOAuthProvider_present uid provider id l a Hnd Hin)
    as (a' & Hset & Hmem & _ & Hmatch & _ & _ & Hrest & _).
  rewrite Hset. cbn [fst]. cbv zeta. unfold authenticateFromProfile.
  rewrite Hid.
  rewrite (find_unique _ _ (uid, a')).
  - reflexivity.
  - exact Hmem.
  - exact Hmatch.
  - intros [k b] Hy HP. cbn [snd] in HP.
    destruct (decide (k = uid)) as [->|Hne].
    + apply elem_of_update_at in Hy as [[Hne _]|[_ (a0 & _ & ->)]];
        [contradiction | reflexivity].
    + apply (Hrest k b Hne) in Hy. rewrite (Hothers k b Hy Hne) in HP.
      discriminate HP.
Qed.

Lemma set_identity_logs_in_witness :
  let a := mkAccount "Ada" "Lovelace" "ada@example.org"
             [mkOAuthId "g-1" "google"] {| coins := 3; enabled := true |} in
  let l : Accounts := [(2%nat, a)] in
  let u := mkOAuthUser "gh-2" "A." "L." "" in
  NoDup (fst <$> l) /\ ((2%nat, a) ∈ l) /\
  (forall k b, (k, b) ∈ l -> k <> 2%nat -> matches_profile "github" "gh-2" b = false) /\
  profile_id u = "gh-2" /\
  authenticateFromProfile "github" u (fst (setOAuthProvider 2%nat "github" "gh-2" l)) =
    (fst (setOAuthProvider 2%nat "github" "gh-2" l), Resolved 2%nat).
Proof.
  cbv zeta.
  assert (Hnd : NoDup (fst <$> ([(2%nat, mkAccount "Ada" "Lovelace" "ada@example.org"
                                   [mkOAuthId "g-1" "google"]
                                   {| coins := 3; enabled := true |})] : Accounts))).
  { apply (bool_decide_unpack _). vm_compute. exact I. }
  assert (Hin : (2%nat, mkAccount "Ada" "Lovelace" "ada@example.org"
                   [mkOAuthId "g-1" "google"] {| coins := 3; enabled := true |})
                ∈ ([(2%nat, mkAccount "Ada" "Lovelace" "ada@example.org"
                      [mkOAuthId "g-1" "google"]
                      {| coins := 3; enabled := true |})] : Accounts)).
  { left. }
  assert (Hothers : forall k b,
            (k, b) ∈ ([(2%nat, mkAccount "Ada" "Lovelace" "ada@example.org"
                         [mkOAuthId "g-1" "google"]
                         {| coins := 3; enabled := true |})] : Accounts) ->
            k <> 2%nat -> matches_profile "github" "gh-2" b = false).
  { intros k b Hkb Hne. apply list_elem_of_singleton in Hkb.
    inversion Hkb; subst. contradiction. }
  split; [exact Hnd|]. split; [exact Hin|]. split; [exact Hothers|].
  split; [reflexivity|].
  exact (set_identity_logs_in 2%nat "github" "gh-2" _ _
           (mkOAuthUser "gh-2" "A." "L." "") Hnd Hin Hothers eq_refl).
Defined.

(** *** [parseProfile] of the GitHub provider *)

Lemma split_space_nonempty s : split_space s <> [].
Proof.
  destruct s as [|c s]; simpl; [discriminate|].
  destruct (bool_decide (c = Ascii.Space)); [discriminate|].
  destruct (split_space s); discriminate.
Qed.

Lemma split_space_no_space s : has_space s = false -> split_space s = [s].
Proof.
  induction s as [|c s IH]; intros H; [reflexivity|].
  simpl in *. apply orb_false_iff in H as [Hc Hs].
  rewrite Hc. rewrite (IH Hs). reflexivity.
Qed.

Lemma split_space_first a b :
  has_space a = false ->
  split_space (a +:+ " " +:+ b) = a :: split_space b.
Proof.
  induction a as [|c a IH]; intros H.
  - reflexivity.
  - simpl in H. apply orb_false_iff in H as [Hc Ha].
    change (String c a +:+ " " +:+ b) with (String c (a +:+ " " +:+ b)).
    cbn [split_space]. rewrite Hc. rewrite (IH Ha). reflexivity.
Qed.

Lemma split_space_pieces s :
  Forall (fun piece => has_space piece = false) (split_space s).
Proof.
  induction s as [|c s IH]; simpl.
  - repeat constructor.
  - destruct (bool_decide (c = Ascii.Space)) eqn:Hc.
    + constructor; [reflexivity | exact IH].
    + destruct (split_space s) as [|piece pieces].
      * repeat constructor. simpl. rewrite Hc. reflexivity.
      * inversion IH; subst. constructor; [|assumption].
        simpl. rewrite Hc. assumption.
Qed.

Lemma parseProfile_names_of_word (p : GithubProfile) :
  has_space (displayName p) = false ->
  profile_firstName (parseProfile p) = displayName p /\
  profile_lastName (parseProfile p) = "Unknown".
Proof.
  intros H. unfold parseProfile. cbn [profile_firstName profile_lastName].
  rewrite (split_space_no_space _ H). split; reflexivity.
Qed.

(** X29. What [parseProfile] makes of a GitHub display name: a name without
    a space is the first name, with the last name 'Unknown'; of a name with
    spaces the first word is the first name and the second word the last
    name, whatever follows being dropped; and neither name ever holds a
    space. *)
Theorem parseProfile_names (p : GithubProfile) :
  (has_space (displayName p) = false ->
   profile_firstName (parseProfile p) = displayName p /\
   profile_lastName (parseProfile p) = "Unknown") /\
  (forall first second rest,
     has_space first = false -> has_space second = false ->
     displayName p = first +:+ " " +:+ second \/
     displayName p = first +:+ " " +:+ second +:+ " " +:+ rest ->
     profile_firstName (parseProfile p) = first /\
     profile_lastName (parseProfile p) = second) /\
  has_space (profile_firstName (parseProfile p)) = false /\
  has_space (profile_lastName (parseProfile p)) = false.
Proof.
  unfold parseProfile. cbn [profile_firstName profile_lastName]. split; [|split].
  - intros H. rewrite (split_space_no_space _ H). split; reflexivity.
  - intros first second rest Hf Hs [-> | ->].
    + rewrite (split_space_first _ _ Hf), (split_space_no_space _ Hs).
      split; reflexivity.
    + rewrite (split_space_first _ _ Hf), (split_space_first _ _ Hs).
      pose proof (split_space_nonempty rest) as Hne.
      destruct (split_space rest); [contradiction|]. split; reflexivity.
  - pose proof (split_space_pieces (displayName p)) as Hall.
    pose proof (split_space_nonempty (displayName p)) as Hne.
    destruct (split_space (displayName p)) as [|x [|y names]]; [contradiction| |].
    + inversion Hall; subst. split; [assumption | reflexivity].
    + inversion Hall as [|? ? Hx Hrest]; subst.
      inversion Hrest; subst. split; assumption.
Qed.

Lemma parseProfile_names_witness :
  let p := mkGithubProfile "gh-1" "Ada King Lovelace" None in
  has_space "Ada" = false /\ has_space "King" = false /\
  (displayName p = "Ada" +:+ " " +:+ "King" \/
   displayName p = "Ada" +:+ " " +:+ "King" +:+ " " +:+ "Lovelace") /\
  profile_firstName (parseProfile p) = "Ada" /\
  profile_lastName (parseProfile p) = "King".
Proof.
  cbv zeta. split; [reflexivity|]. split; [reflexivity|].
  split; [right; reflexivity|].
  exact (proj1 (proj2 (parseProfile_names
                         (mkGithubProfile "gh-1" "Ada King Lovelace" None)))
           "Ada" "King" "Lovelace" eq_refl eq_refl (or_intror eq_refl)).
Defined.

(** X30. Who cannot register through GitHub: a first login with a profile
    that shows no e-mail address, or whose display name is empty or starts
    with a space or has nothing after its first space, is refused and
    stores no user; with an e-mail address and a display name of one word
    it registers the user under the last name 'Unknown'. *)
Theorem github_registration (providerName : string) (p : GithubProfile) (l : Accounts) :
  List.find (fun x => matches_profile providerName (gh_id p) (snd x)) l = None ->
  ((emails p = None \/ emails p = Some [] \/ displayName p = ""
    \/ (exists s, displayName p = " " +:+ s)
    \/ (exists s, has_space s = false /\ displayName p = s +:+ " ")) ->
   authenticateFromProfile providerName (parseProfile p) l =
     (l, Rejected "User validation failed")) /\
  (forall e es, emails p = Some (e :: es) -> e <> "" ->
     displayName p <> "" -> has_space (displayName p) = false ->
     exists k a,
       authenticateFromProfile providerName (parseProfile p) l =
         (l ++ [(k, a)], Resolved k) /\
       firstName a = displayName p /\ lastName a = "Unknown" /\ email a = e /\
       enabled (account a) = false).
Proof.
  intros Hnone.
  assert (Hreject :
    required (profile_firstName (parseProfile p))
      && required (profile_lastName (parseProfile p))
      && required (profile_email (parseProfile p)) = false ->
    authenticateFromProfile providerName (parseProfile p) l =
      (l, Rejected "User validation failed")).
  { intros H. unfold authenticateFromProfile.
    change (profile_id (parseProfile p)) with (gh_id p).
    rewrite Hnone, H. reflexivity. }
  split.
  - intros H. apply Hreject.
    destruct H as [H | [H | [H | [[s H] | (s & Hs & H)]]]].
    + unfold parseProfile. cbn [profile_email]. rewrite H.
      apply andb_false_r.
    + unfold parseProfile. cbn [profile_email]. rewrite H.
      apply andb_false_r.
    + unfold parseProfile. cbn [profile_firstName]. rewrite H. reflexivity.
    + unfold parseProfile. cbn [profile_firstName]. rewrite H.
      change (" " +:+ s) with (String Ascii.Space s). cbn [split_space].
      rewrite bool_decide_eq_true_2 by reflexivity.
      pose proof (split_space_nonempty s) as Hne.
      destruct (split_space s); [contradiction|]. reflexivity.
    + unfold parseProfile. cbn [profile_firstName profile_lastName]. rewrite H.
      change (s +:+ " ") with (s +:+ " " +:+ "").
      rewrite (split_space_first _ _ Hs). cbn.
      rewrite andb_false_r. reflexivity.
  - intros e es He Hne Hname Hsp.
    destruct (parseProfile_names_of_word p Hsp) as [Hf Hl].
    unfold authenticateFromProfile.
    change (profile_id (parseProfile p)) with (gh_id p).
    rewrite Hnone.
    assert (Hmail : profile_email (parseProfile p) = e).
    { unfold parseProfile. cbn [profile_email]. rewrite He. reflexivity. }
    rewrite Hf, Hl, Hmail. unfold required.
    rewrite (bool_decide_eq_false_2 _ Hname), (bool_decide_eq_false_2 _ Hne).
    cbn [negb andb]. rewrite bool_decide_eq_false_2 by discriminate. cbn [negb].
    eexists. eexists. split; [reflexivity|].
    unfold new_account. cbn [firstName lastName email account enabled].
    auto.
Qed.

Lemma github_registration_witness :
  let p := mkGithubProfile "gh-7" "Grace Hopper" None in
  List.find (fun x => matches_profile "github" (gh_id p) (snd x))
    ([] : Accounts) = None /\
  emails p = None /\
  authenticateFromProfile "github" (parseProfile p) [] =
    ([], Rejected "User validation failed").
Proof.
  cbv zeta. split; [reflexivity|]. split; [reflexivity|].
  exact (proj1 (github_registration "github"
                  (mkGithubProfile "gh-7" "Grace Hopper" None) [] eq_refl)
           (or_introl eq_refl)).
Defined.
